(** * Storyboard pipeline (app/actions.ts): a shallow embedding and its properties

    The server action turns a narrated audio file into a storyboard video:
    timed words are chunked into scenes, a text model proposes one prompt
    per scene, an image model renders each prompt, and the images are
    concatenated under the audio track.

    JavaScript values are modelled as the language has them: a string is
    its sequence of UTF-16 code units, a number is an IEEE-754 binary64
    float, [null]/[undefined] are [None].  Awaited calls into storage,
    speech, generation and the transcoder are run in a state-and-exception
    monad over a world whose external part is left abstract. *)

From Stdlib Require Import String Ascii ZArith NArith Bool List Sorted Floats Lia.
Import ListNotations.

Set Implicit Arguments.
Set Warnings "-inexact-float,-register-all".

(** ** JavaScript strings *)

Module JS.

Definition char := N.
Definition jsstring := list char.

Definition lit (s : string) : jsstring :=
  map N_of_ascii (list_ascii_of_string s).

Definition char_eqb (a b : char) : bool := N.eqb a b.

Fixpoint str_eqb (a b : jsstring) : bool :=
  match a, b with
  | [], [] => true
  | x :: a', y :: b' => char_eqb x y && str_eqb a' b'
  | _, _ => false
  end.

(** WhiteSpace and LineTerminator code units of ECMAScript: what
    [String.prototype.trim] removes and what [\s] matches. *)
Definition isWhiteSpace (c : char) : bool :=
  ((9 <=? c) && (c <=? 13) || (c =? 32) || (c =? 160) || (c =? 5760)
   || (8192 <=? c) && (c <=? 8202) || (c =? 8232) || (c =? 8233)
   || (c =? 8239) || (c =? 8287) || (c =? 12288) || (c =? 65279))%N.

Fixpoint trimStart (s : jsstring) : jsstring :=
  match s with
  | [] => []
  | c :: s' => if isWhiteSpace c then trimStart s' else s
  end.

Definition trimEnd (s : jsstring) : jsstring := rev (trimStart (rev s)).

Definition trim (s : jsstring) : jsstring := trimEnd (trimStart s).

Fixpoint startsWith (s prefix : jsstring) {struct prefix} : bool :=
  match prefix, s with
  | [], _ => true
  | p :: prefix', c :: s' => char_eqb c p && startsWith s' prefix'
  | _ :: _, [] => false
  end.

Definition endsWith (s suffix : jsstring) : bool :=
  startsWith (rev s) (rev suffix).

(** [Array.prototype.join] on an array of strings. *)
Fixpoint join (sep : jsstring) (parts : list jsstring) : jsstring :=
  match parts with
  | [] => []
  | [p] => p
  | p :: rest => p ++ sep ++ join sep rest
  end.

(** Truthiness of a string or null: [!s] is true for null and for the
    empty string. *)
Definition truthy_str (s : option jsstring) : bool :=
  match s with
  | Some (_ :: _) => true
  | _ => false
  end.

(** Decimal rendering of a non-negative integer, as [String(n)] and
    template literals give it for array lengths and counters. *)
Definition digit_char (d : N) : char := (48 + d)%N.

Fixpoint N_digits (fuel : nat) (n : N) (acc : jsstring) : jsstring :=
  match fuel with
  | O => acc
  | S fuel' =>
      let acc' := digit_char (n mod 10) :: acc in
      if (n <? 10)%N then acc' else N_digits fuel' (n / 10) acc'
  end.

Definition N_toString (n : N) : jsstring :=
  N_digits (S (N.to_nat (N.log2 n))) n [].

Definition nat_toString (n : nat) : jsstring := N_toString (N.of_nat n).

(** [s.padStart(len, '0')]. *)
Definition padStart0 (len : nat) (s : jsstring) : jsstring :=
  repeat 48%N (len - length s) ++ s.

End JS.

Import JS.

(** ** JavaScript numbers *)

Module Num.

Open Scope float_scope.

Definition number := float.

Definition Number_isFinite (x : number) : bool :=
  negb (is_nan x) && negb (is_infinity x).

(** [a >= b] on numbers: false as soon as one side is NaN. *)
Definition ge (a b : number) : bool := b <=? a.

(** [Math.max] of two numbers. *)
Definition Math_max (a b : number) : number :=
  if is_nan a || is_nan b then nan
  else if a <? b then b
  else if is_zero a && is_zero b && get_sign a then b
  else a.

(** Truthiness of a number: [0], [-0] and NaN are falsy. *)
Definition truthy_num (x : number) : bool :=
  negb (is_nan x) && negb (is_zero x).

(** The Number value of a mathematical integer (round to nearest, ties to
    even), used for integers that come from array lengths and from
    [parseInt]. *)
Definition of_Z (z : Z) : number :=
  SF2Prim (binary_normalize prec emax z 0 false).

Definition of_nat (n : nat) : number := of_Z (Z.of_nat n).

(** SameValueZero, the key equality of [Map]. *)
Definition sameValueZero (a b : number) : bool :=
  (a =? b) || (is_nan a && is_nan b).

End Num.

Import Num.

(** ** Data model *)

(** [type WordInfo = { word; startTime; endTime }] *)
Record WordInfo := mkWord {
  word : jsstring;
  startTime : number;
  endTime : number
}.

(** [type Scene]; the scene number is an array length plus one, hence a
    natural number. *)
Record Scene := mkScene {
  scene : nat;
  start_time_secs : number;
  end_time_secs : number;
  script : jsstring;
  prompt : option jsstring;
  image_url : option jsstring
}.

Definition with_prompt (s : Scene) (p : option jsstring) : Scene :=
  mkScene (scene s) (start_time_secs s) (end_time_secs s) (script s)
          p (image_url s).

Definition with_image_url (s : Scene) (u : option jsstring) : Scene :=
  mkScene (scene s) (start_time_secs s) (end_time_secs s) (script s)
          (prompt s) u.

(** ** Step 2: chunking the word timeline into scenes *)

Module Segmenter.

(** [SENTENCE_END_RE = /[.?!]|\u0964/] tested against a token: some code
    unit is a full stop, a question mark, an exclamation mark or a danda. *)
Definition is_sentence_end_char (c : char) : bool :=
  ((c =? 46) || (c =? 63) || (c =? 33) || (c =? 2404))%N.

Definition SENTENCE_END_RE_test (token : jsstring) : bool :=
  existsb is_sentence_end_char token.

Definition TARGET_DURATION_SEC : number := 7.0%float.

(** The body of the [for] loop, by recursion on the words not yet visited:
    [w :: rest] is [words[i..]], and [isLast] holds when [rest] is empty. *)
Fixpoint chunk_loop (ws : list WordInfo) (scenes : list Scene)
         (currentTokens : list jsstring) (currentStart : number)
  : list Scene :=
  match ws with
  | [] => scenes
  | w :: rest =>
      let token := word w in (* [w.word || '']: a string is its own default *)
      let currentTokens := currentTokens ++ [token] in
      let isLast := match rest with [] => true | _ :: _ => false end in
      let curDuration := (endTime w - currentStart)%float in
      let endHere :=
        (SENTENCE_END_RE_test token && ge curDuration TARGET_DURATION_SEC)
        || isLast in
      if endHere && (0 <? length currentTokens)%nat then
        let scenes' :=
          scenes ++ [mkScene (length scenes + 1) currentStart (endTime w)
                             (trim (join (lit " ") currentTokens))
                             None None] in
        chunk_loop rest scenes' []
                   (match rest with
                    | w' :: _ => startTime w'
                    | [] => currentStart
                    end)
      else chunk_loop rest scenes currentTokens currentStart
  end.

(** The scene list that [runStep2_ChunkScript] computes and returns. *)
Definition chunkScript (words : list WordInfo) : list Scene :=
  match words with
  | [] => []
  | w0 :: _ => chunk_loop words [] [] (startTime w0)
  end.

End Segmenter.

(** ** Exceptions and JSON values *)

(** A thrown value, as far as the pipeline looks at it: an [Error] with
    its message, or some other value without a usable [message]. *)
Inductive Thrown :=
| ErrorObj (message : jsstring)
| NonError.

Inductive Outcome (A : Type) :=
| Ok (a : A)
| Throw (e : Thrown).

Arguments Ok {A} a.
Arguments Throw {A} e.

(** What [JSON.parse] can return. *)
Inductive JSValue :=
| JNull
| JBool (b : bool)
| JNum (x : number)
| JStr (s : jsstring)
| JArr (items : list JSValue)
| JObj (fields : list (jsstring * JSValue)).

Fixpoint assoc (key : jsstring) (fields : list (jsstring * JSValue))
  : option JSValue :=
  match fields with
  | [] => None
  | (k, v) :: rest => if str_eqb k key then Some v else assoc key rest
  end.

(** [v.name] where [v] is known not to be null: [undefined] is [None]. *)
Definition prop (v : JSValue) (name : jsstring) : option JSValue :=
  match v with
  | JObj fields => assoc name fields
  | _ => None
  end.

(** [v.name] for any [v]: reading a property of null is a TypeError. *)
Definition read_prop (v : JSValue) (name : jsstring)
  : Outcome (option JSValue) :=
  match v with
  | JNull =>
      Throw (ErrorObj (lit "Cannot read properties of null (reading '"
                       ++ name ++ lit "')"))
  | _ => Ok (prop v name)
  end.

Definition truthy (v : JSValue) : bool :=
  match v with
  | JNull => false
  | JBool b => b
  | JNum x => truthy_num x
  | JStr s => truthy_str (Some s)
  | JArr _ | JObj _ => true
  end.

(** [a ?? b] on possibly-undefined values: [a] unless it is null or
    undefined. *)
Definition nullish_or (a b : option JSValue) : option JSValue :=
  match a with
  | None | Some JNull => b
  | Some _ => a
  end.

(** ** The JSON sanitizer for model output *)

Module Sanitizer.

Definition fence : jsstring := lit "```".

Definition lower_ascii (c : char) : char :=
  if ((65 <=? c) && (c <=? 90))%N then (c + 32)%N else c.

(** A prefix match that ignores ASCII case, as the [i] flag does on the
    letters of [json]. *)
Fixpoint startsWith_ci (s prefix : jsstring) {struct prefix} : bool :=
  match prefix, s with
  | [], _ => true
  | p :: prefix', c :: s' =>
      char_eqb (lower_ascii c) (lower_ascii p) && startsWith_ci s' prefix'
  | _ :: _, [] => false
  end.

(** [([\s\S]*?)```]: the shortest text up to a closing fence. *)
Fixpoint capture_until_fence (s : jsstring) : option jsstring :=
  if startsWith s fence then Some []
  else match s with
       | [] => None
       | c :: s' => option_map (cons c) (capture_until_fence s')
       end.

(** The part of the pattern after the opening fence: the newline, then
    the captured group. *)
Definition fence_body (s : jsstring) : option jsstring :=
  match s with
  | 10%N :: s' => capture_until_fence s'
  | _ => None
  end.

(** The pattern [/```(?:json)?\n([\s\S]*?)```/i] anchored at the head of
    [s]; the optional tag is tried first, then skipped. *)
Definition fence_match_here (s : jsstring) : option jsstring :=
  if startsWith s fence then
    let r := skipn 3 s in
    match (if startsWith_ci r (lit "json") then fence_body (skipn 4 r)
           else None) with
    | Some cap => Some cap
    | None => fence_body r
    end
  else None.

(** [trimmed.match(...)]: the leftmost match, its first group. *)
Fixpoint fence_match (s : jsstring) : option jsstring :=
  match fence_match_here s with
  | Some cap => Some cap
  | None => match s with
            | [] => None
            | _ :: s' => fence_match s'
            end
  end.

Definition extractPossibleJSON (text : jsstring) : jsstring :=
  match text with
  | [] => text
  | _ :: _ =>
      let trimmed := trim text in
      match fence_match trimmed with
      | Some (c :: cap) => trim (c :: cap)
      | _ => trimmed
      end
  end.

Definition is_closer (c : char) : bool := ((c =? 125) || (c =? 93))%N.

(** After a comma, the length of the white space run when a closing brace
    or bracket follows it. *)
Fixpoint comma_tail (s : jsstring) : option nat :=
  match s with
  | [] => None
  | c :: s' =>
      if isWhiteSpace c then option_map S (comma_tail s')
      else if is_closer c then Some O
      else None
  end.

(** [.replace(/,\s*([}\]])/g, '$1')]: [skip] counts the code units of the
    current match still to be dropped. *)
Fixpoint drop_trailing_commas (skip : nat) (s : jsstring) : jsstring :=
  match s with
  | [] => []
  | c :: s' =>
      match skip with
      | S k => drop_trailing_commas k s'
      | O =>
          if (c =? 44)%N then
            match comma_tail s' with
            | Some n => drop_trailing_commas n s'
            | None => c :: drop_trailing_commas O s'
            end
          else c :: drop_trailing_commas O s'
      end
  end.

Definition is_smart_quote (c : char) : bool :=
  ((c =? 8220) || (c =? 8221) || (c =? 8216) || (c =? 8217))%N.

(** [.replace(/\u201c|\u201d|\u2018|\u2019/g, ...)]: every typographic
    quote, double or single, becomes the plain double quote (code unit 34). *)
Definition plain_quotes (s : jsstring) : jsstring :=
  map (fun c => if is_smart_quote c then 34%N else c) s.

Definition removeTrailingCommas (jsonLike : jsstring) : jsstring :=
  plain_quotes (drop_trailing_commas O jsonLike).

(** [parseModelJSON], over the platform's [JSON.parse]. *)
Definition parseModelJSON (JSON_parse : jsstring -> Outcome JSValue)
           (raw : jsstring) : Outcome JSValue :=
  match JSON_parse raw with
  | Ok v => Ok v
  | Throw _ => JSON_parse (removeTrailingCommas (extractPossibleJSON raw))
  end.

End Sanitizer.

(** ** Scene identifiers in model records *)

Definition is_digit (c : char) : bool := ((48 <=? c) && (c <=? 57))%N.

Definition digits_value (s : jsstring) : Z :=
  fold_left (fun acc c => (acc * 10 + (Z.of_N c - 48))%Z) s 0%Z.

(** [parseInt(s, 10)] on a string made of decimal digits only: NaN on the
    empty string, else the Number value of the integer written (an engine
    may round beyond the twentieth digit first; the exact value is taken
    here). *)
Definition parseInt_digits (s : jsstring) : number :=
  match s with
  | [] => nan
  | _ :: _ => of_Z (digits_value s)
  end.

Definition coerceSceneId (sceneId : option JSValue) : option number :=
  match sceneId with
  | Some (JNum x) => if Number_isFinite x then Some x else None
  | Some (JStr s) =>
      let num := parseInt_digits (filter is_digit s) in
      if Number_isFinite num then Some num else None
  | _ => None
  end.

Definition extractSceneId (obj : JSValue) : option number :=
  match obj with
  | JArr _ | JObj _ =>
      let candidate :=
        nullish_or
          (nullish_or
             (nullish_or (prop obj (lit "scene_id")) (prop obj (lit "scene")))
             (prop obj (lit "id")))
          (prop obj (lit "index")) in
      coerceSceneId candidate
  | _ => None
  end.

(** ** Step 3: reconciling model prompts with scenes *)

Module Reconciler.

(** [Map<number, string>]: insertion-ordered, keys compared by
    SameValueZero. *)
Definition PromptMap := list (number * jsstring).

Fixpoint map_set (m : PromptMap) (k : number) (v : jsstring) : PromptMap :=
  match m with
  | [] => [(k, v)]
  | (k', v') :: rest =>
      if sameValueZero k' k then (k', v) :: rest
      else (k', v') :: map_set rest k v
  end.

Fixpoint map_get (m : PromptMap) (k : number) : option jsstring :=
  match m with
  | [] => None
  | (k', v') :: rest => if sameValueZero k' k then Some v' else map_get rest k
  end.

Definition map_size (m : PromptMap) : nat := length m.

(** [/16:9\.?$/i.test(pRaw)] *)
Definition ends_with_ratio (pRaw : jsstring) : bool :=
  endsWith pRaw (lit "16:9") || endsWith pRaw (lit "16:9.").

Definition promptFinal (pRaw : jsstring) : jsstring :=
  if ends_with_ratio pRaw then pRaw
  else if endsWith pRaw (lit ".") then pRaw ++ lit " 16:9."
  else pRaw ++ lit ". 16:9.".

(** [typeof scenePrompt.prompt === 'string' ? scenePrompt.prompt.trim() : ''] *)
Definition pRaw_of (scenePrompt : JSValue) : Outcome jsstring :=
  match read_prop scenePrompt (lit "prompt") with
  | Throw e => Throw e
  | Ok (Some (JStr s)) => Ok (trim s)
  | Ok _ => Ok []
  end.

(** [sid && pRaw] *)
Definition usable (sid : option number) (pRaw : jsstring) : bool :=
  match sid with
  | Some x => truthy_num x && truthy_str (Some pRaw)
  | None => false
  end.

(** The first [forEach]: prompts keyed by the identifier of their record. *)
Fixpoint collect_by_id (records : list JSValue) (promptMap : PromptMap)
  : Outcome PromptMap :=
  match records with
  | [] => Ok promptMap
  | scenePrompt :: rest =>
      let sid := extractSceneId scenePrompt in
      match pRaw_of scenePrompt with
      | Throw e => Throw e
      | Ok pRaw =>
          match sid with
          | Some x =>
              if usable sid pRaw
              then collect_by_id rest (map_set promptMap x (promptFinal pRaw))
              else collect_by_id rest promptMap
          | None => collect_by_id rest promptMap
          end
      end
  end.

(** The second [forEach], the positional fallback: [idx] is the index of
    the head of [records] in the model response. *)
Fixpoint collect_by_position (records : list JSValue) (idx : nat)
         (promptMap : PromptMap) : Outcome PromptMap :=
  match records with
  | [] => Ok promptMap
  | scenePrompt :: rest =>
      match pRaw_of scenePrompt with
      | Throw e => Throw e
      | Ok [] => collect_by_position rest (S idx) promptMap
      | Ok pRaw =>
          collect_by_position rest (S idx)
            (map_set promptMap (of_nat (idx + 1)) (promptFinal pRaw))
      end
  end.

Definition buildPromptMap (records : list JSValue) : Outcome PromptMap :=
  match collect_by_id records [] with
  | Throw e => Throw e
  | Ok promptMap =>
      if (map_size promptMap =? 0)%nat
      then collect_by_position records 0 promptMap
      else Ok promptMap
  end.

Definition placeholder (n : nat) : jsstring :=
  lit "Failed to generate prompt for scene " ++ nat_toString n.

(** [scenes.map(scene => ({...scene, prompt: promptMap.get(scene.scene) || ...}))] *)
Definition applyPrompts (promptMap : PromptMap) (scenes : list Scene)
  : list Scene :=
  map (fun s =>
         with_prompt s
           (Some (match map_get promptMap (of_nat (scene s)) with
                  | Some (c :: p) => c :: p
                  | _ => placeholder (scene s)
                  end)))
      scenes.

(** The payload check and the reconciliation that follow the parse. *)
Definition reconcile (parsed : JSValue) (scenes : list Scene)
  : Outcome (list Scene) :=
  let malformed :=
    Throw (ErrorObj (lit "Gemini returned malformed JSON for prompt generation.")) in
  match prop parsed (lit "analysis") with
  | Some a =>
      if truthy a then
        match prop parsed (lit "scenes") with
        | Some (JArr records) =>
            match buildPromptMap records with
            | Throw e => Throw e
            | Ok promptMap => Ok (applyPrompts promptMap scenes)
            end
        | _ => malformed
        end
      else malformed
  | None => malformed
  end.

End Reconciler.

(** ** Effects: the world, the platform and the computation monad *)

(** One line of the concatenation script (inputs.txt). *)
Inductive ManifestLine :=
| FileLine (imageFileName : jsstring)
| DurationLine (duration : number).

(** The state a job can observe or change.  [ext] is everything behind
    the collaborators (buckets, models, clock); [dirs] the working
    directories that exist; [image_requests] the prompts sent to the image
    model and [transcodes] the manifests handed to the transcoder, oldest
    first. *)
Record World (Ext : Type) := mkWorld {
  ext : Ext;
  dirs : list jsstring;
  image_requests : list jsstring;
  transcodes : list (list ManifestLine)
}.

(** What the text model's reply is reduced to by the response probing:
    the first candidate's text and the block reason of the feedback. *)
Record TextReply := mkTextReply {
  responseText : option jsstring;
  blockReason : option jsstring
}.

(** Built-ins, configuration and collaborators the module calls into. *)
Record Platform (Ext : Type) := mkPlatform {
  (* language and runtime built-ins *)
  JSON_parse : jsstring -> Outcome JSValue;
  JSON_stringify_scenes : list Scene -> jsstring;
  String_toLowerCase : jsstring -> jsstring;
  Number_toFixed : nat -> number -> jsstring;
  URL_pathname : jsstring -> Outcome jsstring;
  path_basename : jsstring -> jsstring;
  path_join : jsstring -> jsstring -> jsstring;
  process_cwd : jsstring;
  Date_now : Ext -> N * Ext;
  (* configuration *)
  ffmpegBin : jsstring;
  audioBucketName : jsstring;
  transcriptBucketName : jsstring;
  chunkedBucketName : jsstring;
  imageBucketName : jsstring;
  videoBucketName : jsstring;
  (* file system and transcoder *)
  fs_access : jsstring -> Ext -> Outcome unit * Ext;
  fs_mkdir : jsstring -> Ext -> Outcome unit * Ext;
  fs_writeFile : jsstring -> jsstring -> Ext -> Outcome unit * Ext;
  fs_rm : jsstring -> Ext -> Outcome unit * Ext;
  ffmpeg_run : jsstring -> jsstring -> jsstring -> Ext -> Outcome unit * Ext;
  (* object storage *)
  storage_save : jsstring -> jsstring -> jsstring -> Ext -> Outcome unit * Ext;
  storage_download : jsstring -> jsstring -> jsstring -> Ext -> Outcome unit * Ext;
  storage_upload : jsstring -> jsstring -> jsstring -> Ext -> Outcome unit * Ext;
  (* speech and generation *)
  speech_words : jsstring -> Ext -> Outcome (list WordInfo) * Ext;
  generateContent : jsstring -> Ext -> Outcome TextReply * Ext;
  generateImages : jsstring -> Ext -> Outcome (option jsstring) * Ext
}.

Module Effects.

Section Monad.

Variable Ext : Type.

Definition M (A : Type) : Type := World Ext -> Outcome A * World Ext.

Definition ret {A} (a : A) : M A := fun w => (Ok a, w).

Definition throw {A} (e : Thrown) : M A := fun w => (Throw e, w).

Definition bind {A B} (m : M A) (k : A -> M B) : M B :=
  fun w =>
    match m w with
    | (Ok a, w') => k a w'
    | (Throw e, w') => (Throw e, w')
    end.

(** [try { body } catch (e) { handler(e) }] *)
Definition try_catch {A} (body : M A) (handler : Thrown -> M A) : M A :=
  fun w =>
    match body w with
    | (Ok a, w') => (Ok a, w')
    | (Throw e, w') => handler e w'
    end.

(** [try { body } finally { cleanup }]: the cleanup runs on both exits and
    its own failure replaces the outcome of the body. *)
Definition try_finally {A} (body : M A) (cleanup : M unit) : M A :=
  fun w =>
    match body w with
    | (r, w') =>
        match cleanup w' with
        | (Ok _, w'') => (r, w'')
        | (Throw e, w'') => (Throw e, w'')
        end
    end.

(** An awaited call into a collaborator. *)
Definition call {A} (f : Ext -> Outcome A * Ext) : M A :=
  fun w =>
    match f (ext w) with
    | (r, x) => (r, mkWorld x (dirs w) (image_requests w) (transcodes w))
    end.

Definition now (P : Platform Ext) : M N :=
  call (fun x => match Date_now P x with (t, x') => (Ok t, x') end).

(** [fs.mkdir(dir, { recursive: true })] *)
Definition mkdir (P : Platform Ext) (dir : jsstring) : M unit :=
  bind (call (fs_mkdir P dir))
       (fun _ w => (Ok tt, mkWorld (ext w) (dir :: dirs w)
                                   (image_requests w) (transcodes w))).

(** [fs.rm(dir, { recursive: true, force: true })]: when the removal
    succeeds the directory is gone; a missing directory is not an error. *)
Definition rm (P : Platform Ext) (dir : jsstring) : M unit :=
  bind (call (fs_rm P dir))
       (fun _ w =>
          (Ok tt, mkWorld (ext w)
                          (filter (fun d => negb (str_eqb d dir)) (dirs w))
                          (image_requests w) (transcodes w))).

Definition log_image_request (p : jsstring) : M unit :=
  fun w => (Ok tt, mkWorld (ext w) (dirs w) (image_requests w ++ [p])
                           (transcodes w)).

Definition log_transcode (m : list ManifestLine) : M unit :=
  fun w => (Ok tt, mkWorld (ext w) (dirs w) (image_requests w)
                           (transcodes w ++ [m])).

(** [sleep(ms)]: time passes, nothing else changes. *)
Definition sleep (ms : N) : M unit := ret tt.

End Monad.

Arguments ret {Ext A} a.
Arguments throw {Ext A} e.
Arguments bind {Ext A B} m k.
Arguments try_catch {Ext A} body handler.
Arguments try_finally {Ext A} body cleanup.
Arguments call {Ext A} f.
Arguments now {Ext} P.
Arguments mkdir {Ext} P dir.
Arguments rm {Ext} P dir.
Arguments log_image_request {Ext} p.
Arguments log_transcode {Ext} m.
Arguments sleep {Ext} ms.

End Effects.

Import Effects.

Notation "x <- m ;; k" := (bind m (fun x => k))
  (at level 61, m at next level, right associativity).
Notation "m ;;; k" := (bind m (fun _ => k))
  (at level 61, right associativity).

(** ** The pipeline *)

Module Pipeline.

Section Steps.

Variable Ext : Type.
Variable P : Platform Ext.

Local Abbreviation M := (M Ext).

Definition dq : jsstring := [34%N].
Definition nl : jsstring := [10%N].

(** [error?.message || fallback] *)
Definition message_or (error : Thrown) (fallback : jsstring) : jsstring :=
  match error with
  | ErrorObj (c :: m) => c :: m
  | _ => fallback
  end.

(** [`${e.message}`] *)
Definition message_text (error : Thrown) : jsstring :=
  match error with
  | ErrorObj m => m
  | NonError => lit "undefined"
  end.

Definition lift {A} (r : Outcome A) : M A :=
  match r with
  | Ok a => ret a
  | Throw e => throw e
  end.

(** *** Helpers *)

Fixpoint lastIndexOf_from (c : char) (s : jsstring) (i : nat)
         (found : option nat) : option nat :=
  match s with
  | [] => found
  | x :: s' =>
      lastIndexOf_from c s' (S i) (if char_eqb x c then Some i else found)
  end.

Definition lastIndexOf (c : char) (s : jsstring) : option nat :=
  lastIndexOf_from c s 0 None.

Definition is_lower_alnum (c : char) : bool :=
  ((97 <=? c) && (c <=? 122) || (48 <=? c) && (c <=? 57))%N.

(** [.replace(/-+/g, '-')] *)
Fixpoint collapse_dashes (s : jsstring) : jsstring :=
  match s with
  | [] => []
  | c :: s' =>
      if (c =? 45)%N then
        match s' with
        | d :: _ => if (d =? 45)%N then collapse_dashes s'
                    else c :: collapse_dashes s'
        | [] => [c]
        end
      else c :: collapse_dashes s'
  end.

Definition strip_leading_dash (s : jsstring) : jsstring :=
  match s with
  | c :: s' => if (c =? 45)%N then s' else s
  | [] => []
  end.

(** [.replace(/^-|-$/g, '')] *)
Definition strip_edge_dashes (s : jsstring) : jsstring :=
  rev (strip_leading_dash (rev (strip_leading_dash s))).

Definition getJobId (filename : jsstring) : jsstring :=
  let name := match lastIndexOf 46%N filename with
              | None => filename
              | Some fileExtension => firstn fileExtension filename
              end in
  strip_edge_dashes
    (collapse_dashes
       (map (fun c => if is_lower_alnum c then c else 45%N)
            (String_toLowerCase P name))).

(** [try { await file.save(...) } catch (error) { console.error(...) }] *)
Definition save_quietly (bucket filePath content : jsstring) : M unit :=
  try_catch (call (storage_save P bucket filePath content))
            (fun _ => ret tt).

Definition saveTxtTranscript (jobId script : jsstring) : M unit :=
  save_quietly (transcriptBucketName P) (jobId ++ lit ".txt") script.

Definition saveChunkedJson (jobId : jsstring) (scenes : list Scene) : M unit :=
  save_quietly (chunkedBucketName P) (jobId ++ lit ".json")
               (JSON_stringify_scenes P scenes).

Definition downloadGCSFile (bucketName fileName localPathStr : jsstring)
  : M unit :=
  call (storage_download P bucketName fileName localPathStr).

Definition assertFfmpeg : M unit :=
  match ffmpegBin P with
  | [] => throw (ErrorObj (lit "FFmpeg path not resolved"))
  | _ :: _ =>
      try_catch (call (fs_access P (ffmpegBin P)))
                (fun _ => throw (ErrorObj (lit "FFmpeg not found at: "
                                           ++ ffmpegBin P)))
  end.

(** *** Step 1: transcription *)

(** An uploaded file: its name, MIME type and bytes. *)
Record File := mkFile {
  file_name : jsstring;
  file_type : jsstring;
  file_bytes : jsstring
}.

Definition transcript_line (w : WordInfo) : jsstring :=
  lit "[" ++ Number_toFixed P 1 (startTime w) ++ lit "s - "
  ++ Number_toFixed P 1 (endTime w) ++ lit "s] " ++ word w.

(** The upload and the recognizer are collaborators; [speech_words] stands
    for the recognized words that carry a text and both offsets, with the
    offsets already in seconds. *)
Definition runStep1_Transcribe (fullJobId : jsstring) (file : File)
  : M (list WordInfo * jsstring) :=
  let fileExtension :=
    match lastIndexOf 46%N (file_name file) with
    | None => file_name file
    | Some i => skipn i (file_name file)
    end in
  let audioFileName := fullJobId ++ fileExtension in
  let audioFilePath :=
    lit "gs://" ++ audioBucketName P ++ lit "/" ++ audioFileName in
  call (storage_save P (audioBucketName P) audioFileName (file_bytes file)) ;;;
  words <- call (speech_words P audioFilePath) ;;
  if (length words =? 0)%nat
  then throw (ErrorObj (lit "Transcription produced zero words."))
  else
    saveTxtTranscript fullJobId (join nl (map transcript_line words)) ;;;
    ret (words, audioFilePath).

(** *** Step 2: chunking *)

Definition runStep2_ChunkScript (jobId : jsstring) (words : list WordInfo)
  : M (list Scene) :=
  match words with
  | [] => ret []
  | _ :: _ =>
      let scenes := Segmenter.chunkScript words in
      saveChunkedJson jobId scenes ;;;
      ret scenes
  end.

(** *** Step 3: prompts *)

Definition sceneList (scenes : list Scene) : jsstring :=
  join nl (map (fun s => lit "Scene " ++ nat_toString (scene s) ++ lit ": "
                         ++ dq ++ script s ++ dq) scenes).

Definition prompt_text (fullScript : jsstring) (scenes : list Scene)
  : jsstring :=
  lit "You are an expert storyboard prompt generator.

FIRST, analyze this FULL SCRIPT to determine its overall 'backdrop' and 'tone':
--- FULL SCRIPT ---
" ++ fullScript ++ lit "
--- END FULL SCRIPT ---

SECOND, using that analysis, generate one unique image prompt for EACH of the following scenes.

--- RULES ---
1) The prompt MUST follow this exact format: " ++ dq ++
  lit "A cartoon, anime or Ghibli kind of art in [backdrop] and in [tone] that [visual description of scene script]. 16:9."
  ++ dq ++ lit "
2) Replace [backdrop] and [tone] with your analysis.
3) **CRITICAL SAFETY RULE: For any sensitive or violent content, you MUST generate an abstract, symbolic, or non-literal visual description that avoids direct depiction of violence, blood, or explicit harm. Focus on emotion, consequences, or atmosphere (e.g., 'a somber landscape' instead of 'a killing scene').**
4) Replace [visual description of scene script] with a concise visual summary of the scene's script, ensuring it fully complies with Rule 3.
5) Return ONLY minified JSON. Do not wrap in code fences. Do not add any commentary.

--- SCENE LIST ---
" ++ sceneList scenes ++ lit "
--- END SCENE LIST ---

Return ONLY the requested JSON with 'analysis' and 'scenes'.".

Definition runStep3_AnalyzeAndGeneratePrompts (jobId : jsstring)
           (scenes : list Scene) (fullScript : jsstring) : M (list Scene) :=
  result <- call (generateContent P (prompt_text fullScript scenes)) ;;
  match responseText result with
  | Some (c :: text) =>
      let raw := Sanitizer.extractPossibleJSON (c :: text) in
      parsed <-
        lift (match Sanitizer.parseModelJSON (JSON_parse P) raw with
              | Ok v => Ok v
              | Throw e =>
                  Throw (ErrorObj (lit "Gemini returned malformed JSON: "
                                   ++ message_text e))
              end) ;;
      updatedScenes <- lift (Reconciler.reconcile parsed scenes) ;;
      saveChunkedJson jobId updatedScenes ;;;
      ret updatedScenes
  | _ =>
      match blockReason result with
      | Some (c :: reason) =>
          throw (ErrorObj (lit "Gemini safety blocked the request: "
                           ++ c :: reason))
      | _ =>
          throw (ErrorObj
                   (lit "Gemini returned an empty response for prompt generation."))
      end
  end.

(** *** Step 4: images *)

Definition IMAGE_PAUSE_MS : N := (30 * 1000)%N.

(** [!scene.prompt || scene.prompt.startsWith('Failed to generate')] *)
Definition no_valid_prompt (s : Scene) : bool :=
  match prompt s with
  | Some (c :: p) => startsWith (c :: p) (lit "Failed to generate")
  | _ => true
  end.

Definition image_filename (s : Scene) (t : N) : jsstring :=
  lit "scene_" ++ padStart0 3 (nat_toString (scene s)) ++ lit "_"
  ++ N_toString t ++ lit ".png".

Definition public_url (bucket filename : jsstring) : jsstring :=
  lit "https://storage.googleapis.com/" ++ bucket ++ lit "/" ++ filename.

(** The [try] block of the loop body, for a scene with a usable prompt. *)
Definition request_image (s : Scene) (p : jsstring) : M Scene :=
  log_image_request p ;;;
  imageBytesB64 <- call (generateImages P p) ;;
  match imageBytesB64 with
  | Some (c :: b64) =>
      t <- now P ;;
      let filename := image_filename s t in
      call (storage_save P (imageBucketName P) filename (c :: b64)) ;;;
      let publicUrl := public_url (imageBucketName P) filename in
      sleep IMAGE_PAUSE_MS ;;;
      ret (with_image_url s (Some publicUrl))
  | _ => throw (ErrorObj (lit "Imagen returned no image data."))
  end.

(** The [catch] block of the loop body. *)
Definition image_failed (s : Scene) (error : Thrown) : M Scene :=
  sleep IMAGE_PAUSE_MS ;;;
  ret (with_image_url s
         (Some (lit "ERROR: "
                ++ message_or error (lit "Unknown image generation error")))).

Fixpoint step4_loop (scenesWithPrompts finalScenes : list Scene)
  : M (list Scene) :=
  match scenesWithPrompts with
  | [] => ret finalScenes
  | s :: rest =>
      if no_valid_prompt s then step4_loop rest (finalScenes ++ [s])
      else
        match prompt s with
        | Some p =>
            s' <- try_catch (request_image s p) (image_failed s) ;;
            step4_loop rest (finalScenes ++ [s'])
        | None => step4_loop rest (finalScenes ++ [s]) (* not reached *)
        end
  end.

Definition runStep4_GenerateImages (jobId : jsstring)
           (scenesWithPrompts : list Scene) : M (list Scene) :=
  finalScenes <- step4_loop scenesWithPrompts [] ;;
  saveChunkedJson jobId finalScenes ;;;
  ret finalScenes.

(** *** Step 5: video *)

(** [s.replace(pat, '')] with a string pattern: the first occurrence only. *)
Fixpoint remove_first (pat s : jsstring) : jsstring :=
  if startsWith s pat then skipn (length pat) s
  else match s with
       | [] => []
       | c :: s' => c :: remove_first pat s'
       end.

(** [const [head, ...parts] = s.split('/')] together with
    [parts.join('/')]: the text before the first slash and the text after
    it. *)
Fixpoint split_first_slash (s : jsstring) : jsstring * jsstring :=
  match s with
  | [] => ([], [])
  | c :: s' =>
      if (c =? 47)%N then ([], s')
      else match split_first_slash s' with
           | (h, t) => (c :: h, t)
           end
  end.

Definition render_line (l : ManifestLine) : jsstring :=
  match l with
  | FileLine imageFileName => lit "file '" ++ imageFileName ++ lit "'" ++ nl
  | DurationLine duration =>
      lit "duration " ++ Number_toFixed P 3 duration ++ nl
  end.

(** The text of inputs.txt for a list of lines. *)
Definition render (lines : list ManifestLine) : jsstring :=
  concat (map render_line lines).

Definition MIN_DURATION : number := 0.05%float.

Definition scene_duration (s : Scene) : number :=
  Math_max MIN_DURATION (end_time_secs s - start_time_secs s)%float.

(** The loop over the scenes: [inputsTxtContent] is kept as its list of
    lines, [lastImageFileName] is null until an image was listed. *)
Fixpoint manifest_loop (TEMP_DIR : jsstring) (scenes : list Scene)
         (inputsTxtContent : list ManifestLine)
         (localImagePaths : list jsstring)
         (lastImageFileName : option jsstring)
  : M (list ManifestLine * list jsstring * option jsstring) :=
  match scenes with
  | [] => ret (inputsTxtContent, localImagePaths, lastImageFileName)
  | s :: rest =>
      match image_url s with
      | Some (c :: u) =>
          pathname <- lift (URL_pathname P (c :: u)) ;;
          let imageFileName := path_basename P pathname in
          let localImagePath := path_join P TEMP_DIR imageFileName in
          downloadGCSFile (imageBucketName P) imageFileName localImagePath ;;;
          let duration := scene_duration s in
          manifest_loop TEMP_DIR rest
            (inputsTxtContent ++ [FileLine imageFileName; DurationLine duration])
            (localImagePaths ++ [localImagePath])
            (Some imageFileName)
      | _ => manifest_loop TEMP_DIR rest inputsTxtContent localImagePaths
                           lastImageFileName
      end
  end.

(** The manifest once the loop is over: the last file is listed again,
    without a duration. *)
Definition close_manifest (inputsTxtContent : list ManifestLine)
           (lastImageFileName : option jsstring) : list ManifestLine :=
  match lastImageFileName with
  | Some (c :: n) => inputsTxtContent ++ [FileLine (c :: n)]
  | _ => inputsTxtContent
  end.

(** The downloads and the manifest of one job, from the first scene to
    the repeated last file. *)
Definition build_manifest (TEMP_DIR : jsstring) (scenes : list Scene)
  : M (list ManifestLine) :=
  r <- manifest_loop TEMP_DIR scenes [] [] None ;;
  let '(inputsTxtContent, _, lastImageFileName) := r in
  ret (close_manifest inputsTxtContent lastImageFileName).

Definition run_ffmpeg (inputsTxtPath localAudioPath finalVideoPath : jsstring)
  : M unit :=
  try_catch (call (ffmpeg_run P inputsTxtPath localAudioPath finalVideoPath))
            (fun err => throw (ErrorObj (lit "FFmpeg error: "
                                         ++ message_text err))).

(** The [try] block of [runStep5_CreateVideo]. *)
Definition createVideo_body (jobId : jsstring) (scenes : list Scene)
           (gcsAudioUri TEMP_DIR : jsstring) : M jsstring :=
  let finalVideoName := jobId ++ lit ".mp4" in
  let finalVideoPath := path_join P TEMP_DIR finalVideoName in
  let inputsTxtPath := path_join P TEMP_DIR (lit "inputs.txt") in
  let localAudioPath := path_join P TEMP_DIR (lit "audio.wav") in
  let '(audioBucket, audioFileName) :=
    split_first_slash (remove_first (lit "gs://") gcsAudioUri) in
  downloadGCSFile audioBucket audioFileName localAudioPath ;;;
  manifest <- build_manifest TEMP_DIR scenes ;;
  call (fs_writeFile P inputsTxtPath (render manifest)) ;;;
  log_transcode manifest ;;;
  run_ffmpeg inputsTxtPath localAudioPath finalVideoPath ;;;
  call (storage_upload P (videoBucketName P) finalVideoPath finalVideoName) ;;;
  ret (public_url (videoBucketName P) finalVideoName).

Definition temp_dir (jobId : jsstring) : jsstring :=
  path_join P (path_join P (process_cwd P) (lit "temp")) jobId.

Definition runStep5_CreateVideo (jobId : jsstring) (scenes : list Scene)
           (gcsAudioUri : jsstring) : M jsstring :=
  assertFfmpeg ;;;
  let TEMP_DIR := temp_dir jobId in
  mkdir P TEMP_DIR ;;;
  try_finally
    (try_catch (createVideo_body jobId scenes gcsAudioUri TEMP_DIR)
               (fun error => throw error))
    (rm P TEMP_DIR).

(** *** The server action *)

(** What [formData.get('audioFile')] can be. *)
Inductive FormEntry :=
| NoEntry
| TextEntry (s : jsstring)
| FileEntry (f : File).

(** The object the action resolves to. *)
Inductive StoryboardResult :=
| Storyboard (scenes : list Scene) (video : jsstring)
| Failed (error : jsstring).

Definition storyboard_flow (file : File) : M StoryboardResult :=
  let jobIdBase := getJobId (file_name file) in
  t <- now P ;;
  let fullJobId := jobIdBase ++ lit "_" ++ N_toString t in
  r <- runStep1_Transcribe fullJobId file ;;
  let '(words, gcsAudioUri) := r in
  let fullScript := join (lit " ") (map word words) in
  scenes <- runStep2_ChunkScript fullJobId words ;;
  scenesWithPrompts <-
    runStep3_AnalyzeAndGeneratePrompts fullJobId scenes fullScript ;;
  finalScenes <- runStep4_GenerateImages fullJobId scenesWithPrompts ;;
  videoUrl <- runStep5_CreateVideo fullJobId finalScenes gcsAudioUri ;;
  ret (Storyboard finalScenes videoUrl).

Definition generateStoryboard (audioFile : FormEntry) : M StoryboardResult :=
  try_catch
    (match audioFile with
     | NoEntry | TextEntry [] => throw (ErrorObj (lit "No audio file found."))
     | TextEntry (_ :: _) =>
         (* [file.name] is undefined and [getJobId] calls a method on it *)
         throw (ErrorObj
                  (lit "Cannot read properties of undefined (reading 'lastIndexOf')"))
     | FileEntry file => storyboard_flow file
     end)
    (fun error =>
       ret (Failed (message_or error
                               (lit "An unknown server error occurred.")))).

End Steps.

End Pipeline.

(** ** A reference platform for running the pipeline

    An in-memory stand-in for the collaborators: buckets are a list of
    object names, the clock ticks once per reading, the models answer from
    a script.  The readers below cover the JSON texts and URLs that occur
    in the examples; they are not the full built-ins. *)

Module Demo.

Definition syntax_error {A} : Outcome A :=
  Throw (ErrorObj (lit "Unexpected token in JSON")).

Definition is_json_space (c : char) : bool :=
  ((c =? 32) || (c =? 9) || (c =? 10) || (c =? 13))%N.

Fixpoint skip_space (s : jsstring) : jsstring :=
  match s with
  | c :: s' => if is_json_space c then skip_space s' else s
  | [] => []
  end.

(** The characters of a string literal after its opening quote; the
    escapes are limited to the quote, the backslash and the slash. *)
Fixpoint read_string (s : jsstring) : option (jsstring * jsstring) :=
  match s with
  | [] => None
  | 34%N :: rest => Some ([], rest)
  | 92%N :: c :: rest =>
      if ((c =? 34) || (c =? 92) || (c =? 47))%N
      then match read_string rest with
           | Some (t, rest') => Some (c :: t, rest')
           | None => None
           end
      else None
  | c :: rest =>
      if (c <? 32)%N then None
      else match read_string rest with
           | Some (t, rest') => Some (c :: t, rest')
           | None => None
           end
  end.

Fixpoint read_digits (s : jsstring) : jsstring * jsstring :=
  match s with
  | c :: s' =>
      if is_digit c
      then match read_digits s' with (d, rest) => (c :: d, rest) end
      else ([], s)
  | [] => ([], [])
  end.

(** An integer literal: no fraction and no exponent. *)
Definition read_integer (negative : bool) (s : jsstring)
  : option (JSValue * jsstring) :=
  match read_digits s with
  | ([], _) => None
  | (d, rest) =>
      match d, rest with
      | 48%N :: _ :: _, _ => None
      | _, (46%N | 69%N | 101%N) :: _ => None
      | _, _ =>
          let v := digits_value d in
          Some (JNum (of_Z (if negative then - v else v)), rest)
      end
  end.

(** [obj[k] = v]: a repeated key keeps its place and takes the new value. *)
Fixpoint put_field (fields : list (jsstring * JSValue)) (k : jsstring)
         (v : JSValue) : list (jsstring * JSValue) :=
  match fields with
  | [] => [(k, v)]
  | (k', v') :: rest =>
      if str_eqb k' k then (k', v) :: rest else (k', v') :: put_field rest k v
  end.

Fixpoint read_value (fuel : nat) (s : jsstring)
  : option (JSValue * jsstring) :=
  match fuel with
  | O => None
  | S fuel' =>
      match skip_space s with
      | 123%N :: rest =>
          match skip_space rest with
          | 125%N :: rest' => Some (JObj [], rest')
          | _ => read_members fuel' rest []
          end
      | 91%N :: rest =>
          match skip_space rest with
          | 93%N :: rest' => Some (JArr [], rest')
          | _ => read_items fuel' rest []
          end
      | 34%N :: rest =>
          match read_string rest with
          | Some (t, rest') => Some (JStr t, rest')
          | None => None
          end
      | 45%N :: rest => read_integer true rest
      | 116%N :: 114%N :: 117%N :: 101%N :: rest => Some (JBool true, rest)
      | 102%N :: 97%N :: 108%N :: 115%N :: 101%N :: rest =>
          Some (JBool false, rest)
      | 110%N :: 117%N :: 108%N :: 108%N :: rest => Some (JNull, rest)
      | rest => read_integer false rest
      end
  end
with read_items (fuel : nat) (s : jsstring) (acc : list JSValue)
  : option (JSValue * jsstring) :=
  match fuel with
  | O => None
  | S fuel' =>
      match read_value fuel' s with
      | Some (v, rest) =>
          match skip_space rest with
          | 44%N :: rest' => read_items fuel' rest' (acc ++ [v])
          | 93%N :: rest' => Some (JArr (acc ++ [v]), rest')
          | _ => None
          end
      | None => None
      end
  end
with read_members (fuel : nat) (s : jsstring)
                  (acc : list (jsstring * JSValue))
  : option (JSValue * jsstring) :=
  match fuel with
  | O => None
  | S fuel' =>
      match skip_space s with
      | 34%N :: rest =>
          match read_string rest with
          | Some (k, rest1) =>
              match skip_space rest1 with
              | 58%N :: rest2 =>
                  match read_value fuel' rest2 with
                  | Some (v, rest3) =>
                      match skip_space rest3 with
                      | 44%N :: rest4 =>
                          read_members fuel' rest4 (put_field acc k v)
                      | 125%N :: rest4 =>
                          Some (JObj (put_field acc k v), rest4)
                      | _ => None
                      end
                  | None => None
                  end
              | _ => None
              end
          | None => None
          end
      | _ => None
      end
  end.

Definition json_parse (s : jsstring) : Outcome JSValue :=
  match read_value (S (length s)) s with
  | Some (v, rest) =>
      match skip_space rest with
      | [] => Ok v
      | _ :: _ => syntax_error
      end
  | None => syntax_error
  end.

(** URLs: a scheme, then either [//host/path] or an opaque path, up to
    the query or the fragment. *)
Definition is_scheme_char (c : char) : bool :=
  ((65 <=? c) && (c <=? 90) || (97 <=? c) && (c <=? 122)
   || (48 <=? c) && (c <=? 57) || (c =? 43) || (c =? 45) || (c =? 46))%N.

Fixpoint after_scheme (s : jsstring) : option jsstring :=
  match s with
  | [] => None
  | c :: s' =>
      if (c =? 58)%N then Some s'
      else if is_scheme_char c then after_scheme s'
      else None
  end.

Fixpoint until_query (s : jsstring) : jsstring :=
  match s with
  | [] => []
  | c :: s' => if ((c =? 63) || (c =? 35))%N then [] else c :: until_query s'
  end.

Fixpoint from_slash (s : jsstring) : jsstring :=
  match s with
  | [] => [47%N]
  | c :: s' => if (c =? 47)%N then s else from_slash s'
  end.

Definition url_pathname (s : jsstring) : Outcome jsstring :=
  match trim s with
  | c :: s' =>
      if ((65 <=? c) && (c <=? 90) || (97 <=? c) && (c <=? 122))%N then
        match after_scheme s' with
        | Some (47%N :: 47%N :: rest) => Ok (from_slash (until_query rest))
        | Some rest => Ok (until_query rest)
        | None => Throw (ErrorObj (lit "Invalid URL"))
        end
      else Throw (ErrorObj (lit "Invalid URL"))
  | [] => Throw (ErrorObj (lit "Invalid URL"))
  end.

Fixpoint basename_from (s acc : jsstring) : jsstring :=
  match s with
  | [] => acc
  | c :: s' => if (c =? 47)%N then basename_from s' [] else basename_from s' (acc ++ [c])
  end.

Definition basename (s : jsstring) : jsstring := basename_from s [].

Definition join_path (a b : jsstring) : jsstring := a ++ lit "/" ++ b.

Definition lower (s : jsstring) : jsstring := map Sanitizer.lower_ascii s.

(** [x.toFixed(k)] for a finite [x] below 1e21: the nearest multiple of
    [10^-k], ties upward in magnitude. *)
Definition fixed_digits (k : nat) (n : N) : jsstring :=
  let d := N_toString n in
  let d := repeat 48%N (S k - length d) ++ d in
  let int_len := (length d - k)%nat in
  match k with
  | O => d
  | S _ => firstn int_len d ++ lit "." ++ skipn int_len d
  end.

Definition toFixed (k : nat) (x : number) : jsstring :=
  match Prim2SF x with
  | S754_nan => lit "NaN"
  | S754_infinity s => if s then lit "-Infinity" else lit "Infinity"
  | S754_zero _ => fixed_digits k 0
  | S754_finite s m e =>
      let num := (Z.pos m * 10 ^ Z.of_nat k)%Z in
      let n := if (0 <=? e)%Z then (num * 2 ^ e)%Z
               else ((2 * num + 2 ^ (- e)) / (2 * 2 ^ (- e)))%Z in
      (if s then lit "-" else []) ++ fixed_digits k (Z.to_N n)
  end.

(** A rendering of the scene list; the layout of [JSON.stringify] is not
    reproduced. *)
Definition stringify_scenes (scenes : list Scene) : jsstring :=
  lit "[" ++
  join (lit ",")
       (map (fun s => lit "{scene:" ++ nat_toString (scene s) ++ lit ",start:"
                      ++ toFixed 3 (start_time_secs s) ++ lit ",end:"
                      ++ toFixed 3 (end_time_secs s) ++ lit "}") scenes)
  ++ lit "]".

(** The collaborators' state. *)
Record Store := mkStore {
  objects : list (jsstring * jsstring);
  clock : N;
  heard : list WordInfo;
  text_reply : Outcome TextReply;
  image_replies : list (Outcome (option jsstring));
  transcoder_ok : bool
}.

Definition has_object (x : Store) (bucket name : jsstring) : bool :=
  existsb (fun o => str_eqb (fst o) bucket && str_eqb (snd o) name)
          (objects x).

Definition add_object (x : Store) (bucket name : jsstring) : Store :=
  mkStore ((bucket, name) :: objects x) (clock x) (heard x) (text_reply x)
          (image_replies x) (transcoder_ok x).

Definition platform : Platform Store :=
  {| JSON_parse := json_parse;
     JSON_stringify_scenes := stringify_scenes;
     String_toLowerCase := lower;
     Number_toFixed := toFixed;
     URL_pathname := url_pathname;
     path_basename := basename;
     path_join := join_path;
     process_cwd := lit "/srv/app";
     Date_now := fun x =>
       (clock x, mkStore (objects x) (clock x + 1) (heard x) (text_reply x)
                         (image_replies x) (transcoder_ok x));
     ffmpegBin := lit "/usr/bin/ffmpeg";
     audioBucketName := lit "audio";
     transcriptBucketName := lit "transcripts";
     chunkedBucketName := lit "chunked";
     imageBucketName := lit "images";
     videoBucketName := lit "videos";
     fs_access := fun _ x => (Ok tt, x);
     fs_mkdir := fun _ x => (Ok tt, x);
     fs_writeFile := fun _ _ x => (Ok tt, x);
     fs_rm := fun _ x => (Ok tt, x);
     ffmpeg_run := fun _ _ _ x =>
       if transcoder_ok x then (Ok tt, x)
       else (Throw (ErrorObj (lit "ffmpeg exited with code 1")), x);
     storage_save := fun bucket name _ x => (Ok tt, add_object x bucket name);
     storage_download := fun bucket name _ x =>
       if has_object x bucket name then (Ok tt, x)
       else (Throw (ErrorObj (lit "No such object: " ++ bucket ++ lit "/"
                              ++ name)), x);
     storage_upload := fun bucket _ name x => (Ok tt, add_object x bucket name);
     speech_words := fun _ x => (Ok (heard x), x);
     generateContent := fun _ x => (text_reply x, x);
     generateImages := fun _ x =>
       match image_replies x with
       | r :: rest =>
           (r, mkStore (objects x) (clock x) (heard x) (text_reply x) rest
                       (transcoder_ok x))
       | [] => (Throw (ErrorObj (lit "Quota exceeded")), x)
       end |}.

Definition world (x : Store) : World Store := mkWorld x [] [] [].

End Demo.

(** ** Vocabulary of the properties *)

(** The tokens of a text: its maximal runs of code units that are not
    white space, left to right.  This is how the scene scripts and the
    transcript words are compared token for token. *)
Fixpoint tokens_from (cur : jsstring) (s : jsstring) : list jsstring :=
  match s with
  | [] => match cur with [] => [] | _ :: _ => [cur] end
  | c :: s' =>
      if isWhiteSpace c
      then match cur with
           | [] => tokens_from [] s'
           | _ :: _ => cur :: tokens_from [] s'
           end
      else tokens_from (cur ++ [c]) s'
  end.

Definition tokens (s : jsstring) : list jsstring := tokens_from [] s.

(** The scripts of a scene list and the words of a timeline, token by
    token. *)
Definition scene_tokens (scenes : list Scene) : list jsstring :=
  concat (map (fun s => tokens (script s)) scenes).

Definition word_tokens (words : list WordInfo) : list jsstring :=
  concat (map (fun w => tokens (word w)) words).

Module Timeline.

Definition le (a b : number) : Prop := (a <=? b)%float = true.

(** A word whose start does not come after its end. *)
Definition well_timed (w : WordInfo) : Prop := le (startTime w) (endTime w).

(** Words in temporal order: each starts no later than the next one. *)
Definition temporally_ordered (words : list WordInfo) : Prop :=
  Sorted (fun a b => le (startTime a) (startTime b)) words.

Definition scene_well_timed (s : Scene) : Prop :=
  le (start_time_secs s) (end_time_secs s).

(** Scene [k] (counting from one) carries the number [k]. *)
Definition numbered_from_one (scenes : list Scene) : Prop :=
  forall k s, nth_error scenes k = Some s -> scene s = S k.

Definition starts_non_decreasing (scenes : list Scene) : Prop :=
  StronglySorted (fun a b => le (start_time_secs a) (start_time_secs b))
                 scenes.

Definition scenes_ok (scenes : list Scene) : Prop :=
  Forall scene_well_timed scenes
  /\ numbered_from_one scenes
  /\ starts_non_decreasing scenes.

End Timeline.

(** Sample inputs used by the examples. *)
Module Samples.

Definition words3 : list WordInfo :=
  [ mkWord (lit "Hi") 0 1; mkWord (lit "there.") 1 8.5;
    mkWord (lit "Bye") 9 10 ].

(** The fenced reply of the specification: a json-tagged fence around an
    object with a trailing comma; then the same object as plain JSON. *)
Definition fenced_reply : jsstring :=
  lit "```json" ++ [10%N]
  ++ lit "{" ++ [34%N] ++ lit "a" ++ [34%N] ++ lit ":1,}" ++ [10%N]
  ++ lit "```".

Definition plain_reply : jsstring :=
  lit "{" ++ [34%N] ++ lit "a" ++ [34%N] ++ lit ":1}".

Definition object_a1 : JSValue := JObj [(lit "a", JNum 1)].

End Samples.

(** A fence tag the pattern accepts: none, or [json] in any letter case. *)
Definition fence_tag (tag : jsstring) : Prop :=
  tag = [] \/ (length tag = 4%nat
               /\ map Sanitizer.lower_ascii tag = lit "json").

Definition no_backtick (s : jsstring) : Prop :=
  Forall (fun c => c <> 96%N) s.

(** The identifier fields of a model record, in the order they are
    probed, and the first of them that is neither missing nor null. *)
Definition identifier_fields : list jsstring :=
  [lit "scene_id"; lit "scene"; lit "id"; lit "index"].

Fixpoint first_present (obj : JSValue) (names : list jsstring)
  : option JSValue :=
  match names with
  | [] => None
  | name :: rest =>
      match prop obj name with
      | None | Some JNull => first_present obj rest
      | Some v => Some v
      end
  end.

(** A number that is the value of a positive integer. *)
Definition positive_integer (x : number) : Prop :=
  (0 <? x)%float = true /\ exists n : Z, x = of_Z n.

(** A record that the first pass of the reconciliation keeps: its
    identifier is truthy and its trimmed prompt is not empty. *)
Definition usable_record (r : JSValue) : bool :=
  match Reconciler.pRaw_of r with
  | Ok pRaw => Reconciler.usable (extractSceneId r) pRaw
  | Throw _ => false
  end.

(** A model record with the given identifier under [scene_id]. *)
Definition record_with_id (id : JSValue) (p : jsstring) : JSValue :=
  JObj [(lit "scene_id", id); (lit "prompt", JStr p)].

(** The prompts for which step 4 calls the image model, in order. *)
Definition requested_prompts (scenes : list Scene) : list jsstring :=
  flat_map (fun s => if Pipeline.no_valid_prompt s then []
                     else match prompt s with
                          | Some p => [p]
                          | None => []
                          end) scenes.

(** What step 4 makes of one scene: the scene itself when it is skipped,
    else the scene with a non-empty image reference or error marker. *)
Definition image_outcome (s o : Scene) : Prop :=
  if Pipeline.no_valid_prompt s then o = s
  else exists u, u <> [] /\ o = with_image_url s (Some u).

Definition failed_prefix : jsstring := lit "Failed to generate".

(** *** Video assembly *)

(** The test of the assembly loop: the scene has a non-empty image
    reference. *)
Definition has_image (s : Scene) : bool := truthy_str (image_url s).

(** The local file name the loop derives from the image reference. *)
Definition image_file {Ext} (P : Platform Ext) (s : Scene) : jsstring :=
  match image_url s with
  | Some u => match URL_pathname P u with
              | Ok pathname => path_basename P pathname
              | Throw _ => []
              end
  | None => []
  end.

(** A valid image reference: it parses as a URL, names a file, and the
    file can be fetched from the image bucket in every state of the
    collaborators that satisfies [Inv], which the fetch maintains. *)
Definition retrievable {Ext} (P : Platform Ext) (Inv : Ext -> Prop)
           (s : Scene) : Prop :=
  match image_url s with
  | Some (c :: u) =>
      exists pathname,
        URL_pathname P (c :: u) = Ok pathname
        /\ path_basename P pathname <> []
        /\ forall dest x,
            Inv x ->
            exists x',
              storage_download P (imageBucketName P)
                               (path_basename P pathname) dest x
              = (Ok tt, x')
              /\ Inv x'
  | _ => True
  end.

Definition finite_times (s : Scene) : Prop :=
  Number_isFinite (start_time_secs s) = true
  /\ Number_isFinite (end_time_secs s) = true.

(** The (file, duration) pairs of the given scenes, as manifest lines. *)
Definition manifest_entries {Ext} (P : Platform Ext) (scenes : list Scene)
  : list ManifestLine :=
  flat_map (fun s => [FileLine (image_file P s);
                      DurationLine (Pipeline.scene_duration s)]) scenes.

(** The file listed last, after the loop has gone through [scenes]. *)
Definition last_listed {Ext} (P : Platform Ext) (before : option jsstring)
           (scenes : list Scene) : option jsstring :=
  fold_left (fun _ s => Some (image_file P s)) scenes before.

(** A scene whose image reference is the marker of a failed image call. *)
Definition error_marked (s : Scene) : Prop :=
  exists msg, image_url s = Some (lit "ERROR: " ++ msg).

(** A computation that leaves the set of working directories alone. *)
Definition keeps_dirs {Ext A} (m : M Ext A) : Prop :=
  forall w, dirs (snd (m w)) = dirs w.

(** A finished job of three scenes, as step 4 leaves it, with the objects
    its image references name. *)
Module VideoSamples.

Definition image_ref (name : string) : option jsstring :=
  Some (lit "https://storage.googleapis.com/images/" ++ lit name).

Definition scene_a : Scene :=
  mkScene 1 0 8.5 (lit "One.") (Some (lit "a quay. 16:9."))
          (image_ref "scene_001_5.png").

(** The second scene, when its image call failed... *)
Definition scene_b_failed : Scene :=
  mkScene 2 8.5 16 (lit "Two.") (Some (lit "a gull. 16:9."))
          (Some (lit "ERROR: Imagen returned no image data.")).

(** ... and when no image was requested for it. *)
Definition scene_b_skipped : Scene :=
  mkScene 2 8.5 16 (lit "Two.")
          (Some (lit "Failed to generate prompt for scene 2")) None.

Definition scene_c : Scene :=
  mkScene 3 16 24 (lit "Three.") (Some (lit "a sail. 16:9."))
          (image_ref "scene_003_7.png").

Definition store : Demo.Store :=
  Demo.mkStore [ (lit "images", lit "scene_001_5.png");
                 (lit "images", lit "scene_003_7.png");
                 (lit "audio", lit "story_1.wav") ]
               100 [] (Throw NonError) [] true.

Definition jobId : jsstring := lit "story_1".

Definition gcsAudioUri : jsstring := lit "gs://audio/story_1.wav".

Definition TEMP_DIR : jsstring := Pipeline.temp_dir Demo.platform jobId.

End VideoSamples.

(** A whole job on the reference platform: three sentences of eight
    seconds, a model reply with one prompt per scene, and the answers of
    the image model. *)
Module JobSamples.

(** JSON text written with apostrophes in place of double quotes. *)
Definition json_text (s : string) : jsstring :=
  map (fun c => if (c =? 39)%N then 34%N else c) (lit s).

Definition reply : TextReply :=
  mkTextReply
    (Some (json_text
       "{'analysis':{'backdrop':'harbour','tone':'calm'},'scenes':[{'scene_id':1,'prompt':'a quay'},{'scene_id':'scene_2','prompt':'a gull.'},{'scene_id':3,'prompt':'a sail 16:9.'}]}"))
    None.

(** A reply whose second prompt, written by the model, begins with the
    words of the placeholder. *)
Definition reply_hopeful : TextReply :=
  mkTextReply
    (Some (json_text
       "{'analysis':{'backdrop':'harbour','tone':'calm'},'scenes':[{'scene_id':1,'prompt':'a quay'},{'scene_id':2,'prompt':'Failed to generate hope, a lone gull'},{'scene_id':3,'prompt':'a sail 16:9.'}]}"))
    None.

Definition heard : list WordInfo :=
  [ mkWord (lit "One.") 0 8; mkWord (lit "Two.") 8 16;
    mkWord (lit "Three.") 16 24 ].

Definition store_with (r : TextReply)
           (image_replies : list (Outcome (option jsstring))) : Demo.Store :=
  Demo.mkStore [] 100 heard (Ok r) image_replies true.

Definition store (image_replies : list (Outcome (option jsstring)))
  : Demo.Store :=
  store_with reply image_replies.

Definition upload : Pipeline.FormEntry :=
  Pipeline.FileEntry (Pipeline.mkFile (lit "Story 1.wav") (lit "audio/wav")
                                      (lit "RIFF")).

Definition all_images : list (Outcome (option jsstring)) :=
  [ Ok (Some (lit "AAAA")); Ok (Some (lit "BBBB")); Ok (Some (lit "CCCC")) ].

Definition second_image_fails : list (Outcome (option jsstring)) :=
  [ Ok (Some (lit "AAAA")); Ok None; Ok (Some (lit "CCCC")) ].

Definition run (image_replies : list (Outcome (option jsstring)))
  : Outcome Pipeline.StoryboardResult * World Demo.Store :=
  Pipeline.generateStoryboard Demo.platform upload
                              (Demo.world (store image_replies)).

End JobSamples.

(** ** Vocabulary of the further properties *)

(** *** Chunking *)

(** A word that lets a scene end before the stream does: it carries a
    sentence end and closes at least the target duration after [start]. *)
Definition closes_scene (start : number) (w : WordInfo) : Prop :=
  Segmenter.SENTENCE_END_RE_test (word w) = true
  /\ ge (endTime w - start)%float Segmenter.TARGET_DURATION_SEC = true.

(** A scene closed by one of the given words in that way. *)
Definition closed_on_sentence (words : list WordInfo) (s : Scene) : Prop :=
  exists w, In w words
            /\ end_time_secs s = endTime w
            /\ closes_scene (start_time_secs s) w.

(** *** Job identifiers *)

Definition is_job_char (c : char) : bool :=
  Pipeline.is_lower_alnum c || (c =? 45)%N.

(** No dash is followed by a dash. *)
Fixpoint single_dashes (s : jsstring) : bool :=
  match s with
  | [] => true
  | c :: s' =>
      match s' with
      | [] => true
      | d :: _ => negb ((c =? 45)%N && (d =? 45)%N) && single_dashes s'
      end
  end.

(** A well-formed job identifier stem: lower-case letters, digits and
    single dashes, with no dash at either end. *)
Definition clean_job_id (s : jsstring) : Prop :=
  Forall (fun c => is_job_char c = true) s
  /\ (forall a b, s <> a ++ 45%N :: 45%N :: b)
  /\ (forall t, s <> 45%N :: t)
  /\ (forall t, s <> t ++ [45%N]).

(** *** Prompts *)

(** SameValueZero on the representations of two numbers. *)
Definition SF_same (a b : spec_float) : bool :=
  SFeqb a b || (negb (SFeqb a a) && negb (SFeqb b b)).

(** Same scene, apart from the prompt. *)
Definition same_but_prompt (s o : Scene) : Prop :=
  scene o = scene s
  /\ start_time_secs o = start_time_secs s
  /\ end_time_secs o = end_time_secs s
  /\ script o = script s
  /\ image_url o = image_url s.

(** Same scene, apart from the image reference. *)
Definition same_but_image (s o : Scene) : Prop :=
  scene o = scene s
  /\ start_time_secs o = start_time_secs s
  /\ end_time_secs o = end_time_secs s
  /\ script o = script s
  /\ prompt o = prompt s.

Definition null_prompt_error : Thrown :=
  ErrorObj (lit "Cannot read properties of null (reading 'prompt')").

Definition malformed_payload_error : Thrown :=
  ErrorObj (lit "Gemini returned malformed JSON for prompt generation.").

(** [!parsed?.analysis || !Array.isArray(parsed.scenes)] *)
Definition payload_rejected (parsed : JSValue) : Prop :=
  match prop parsed (lit "analysis") with
  | Some a => truthy a = false
              \/ (forall records, prop parsed (lit "scenes")
                                  <> Some (JArr records))
  | None => True
  end.

(** *** Images *)

(** The image reference step 4 writes for a scene it did not skip: the
    public URL of a file named after the scene, or an error marker. *)
Definition image_ref_written {Ext} (P : Platform Ext) (s : Scene)
           (u : jsstring) : Prop :=
  startsWith u (lit "ERROR: ") = true
  \/ exists t, u = Pipeline.public_url (imageBucketName P)
                                       (Pipeline.image_filename s t).

(** *** Steps *)

(** The world after a collaborator left the external state [x]. *)
Definition world_at {Ext} (w : World Ext) (x : Ext) : World Ext :=
  mkWorld x (dirs w) (image_requests w) (transcodes w).

(** [file.name.substring(file.name.lastIndexOf('.'))] *)
Definition file_extension (name : jsstring) : jsstring :=
  match Pipeline.lastIndexOf 46%N name with
  | None => name
  | Some i => skipn i name
  end.

(** The object step 1 uploads the audio to, and its [gs://] reference. *)
Definition audio_object (fullJobId : jsstring) (file : Pipeline.File)
  : jsstring :=
  fullJobId ++ file_extension (Pipeline.file_name file).

Definition audio_uri {Ext} (P : Platform Ext) (fullJobId : jsstring)
           (file : Pipeline.File) : jsstring :=
  lit "gs://" ++ audioBucketName P ++ lit "/" ++ audio_object fullJobId file.

Definition zero_words_error : Thrown :=
  ErrorObj (lit "Transcription produced zero words.").

(** The error of step 3 for a reply without text. *)
Definition empty_reply_error (r : TextReply) : Thrown :=
  ErrorObj
    (match blockReason r with
     | Some (c :: reason) =>
         lit "Gemini safety blocked the request: " ++ c :: reason
     | _ => lit "Gemini returned an empty response for prompt generation."
     end).

(** A computation that hands nothing to the transcoder. *)
Definition keeps_transcodes {Ext A} (m : M Ext A) : Prop :=
  forall w, transcodes (snd (m w)) = transcodes w.

(** At most one manifest was handed to the transcoder between two
    worlds, and exactly one when [sure] holds. *)
Definition transcoded_once {Ext} (sure : bool) (w w' : World Ext) : Prop :=
  (exists m, transcodes w' = transcodes w ++ [m])
  \/ (sure = false /\ transcodes w' = transcodes w).

(** A reply of the text model that was blocked. *)
Definition blocked_reply : TextReply :=
  mkTextReply None (Some (lit "SAFETY")).

(** ** Vocabulary of the positions, the repair, the manifest and the job result *)

(** *** Integers as numbers *)

(** The mantissa of a positive integer below 2^53, aligned on 53 bits. *)
Definition aligned (m : positive) : positive :=
  match (Zpos (digits2_pos m) - 53)%Z with
  | Zneg d => Pos.iter xO m d
  | _ => m
  end.

(** *** Positional assignment *)

(** The prompt the positional assignment gives scene number [n]: that of
    the [n]-th record of the model response, counting from one, when the
    record has a non-empty trimmed prompt. *)
Definition positional_prompt (records : list JSValue) (n : nat)
  : option jsstring :=
  match n with
  | O => None
  | S i =>
      match nth_error records i with
      | Some r =>
          match Reconciler.pRaw_of r with
          | Ok (c :: p) => Some (Reconciler.promptFinal (c :: p))
          | _ => None
          end
      | None => None
      end
  end.

(** The prompt a scene ends up with under the positional assignment. *)
Definition positional_scene_prompt (records : list JSValue) (s : Scene)
  : option jsstring :=
  Some (match positional_prompt records (scene s) with
        | Some p => p
        | None => Reconciler.placeholder (scene s)
        end).

(** *** The repair of a model reply *)

(** The typographic quotation marks: left and right, double and single. *)
Definition typographic_quote (c : char) : Prop :=
  In c [8220; 8221; 8216; 8217]%N.

(** A closing brace or bracket. *)
Definition closing (c : char) : Prop := c = 125%N \/ c = 93%N.

(** A text that begins with a trailing comma: a comma, then white space
    if any, then a closing brace or bracket. *)
Definition trailing_comma (s : jsstring) : Prop :=
  exists ws c rest,
    s = 44%N :: ws ++ c :: rest
    /\ Forall (fun x => isWhiteSpace x = true) ws
    /\ closing c.

(** The normalisation of a text, read from left to right: a typographic
    quote becomes the plain double quote, a trailing comma goes together
    with the white space behind it, and every other code unit stays. *)
Inductive normalised : jsstring -> jsstring -> Prop :=
| normalised_end : normalised [] []
| normalised_quote (c : char) (s t : jsstring) :
    typographic_quote c -> normalised s t ->
    normalised (c :: s) (34%N :: t)
| normalised_comma (ws : jsstring) (c : char) (rest t : jsstring) :
    Forall (fun x => isWhiteSpace x = true) ws -> closing c ->
    normalised (c :: rest) t ->
    normalised (44%N :: ws ++ c :: rest) t
| normalised_keep (c : char) (s t : jsstring) :
    ~ typographic_quote c -> ~ trailing_comma (c :: s) ->
    normalised s t ->
    normalised (c :: s) (c :: t).

Module RepairSamples.

(** A json-tagged fence around an object written with typographic quotes
    and a trailing comma. *)
Definition curly_reply : jsstring :=
  lit "```json" ++ [10%N]
  ++ lit "{" ++ [8220%N] ++ lit "a" ++ [8221%N] ++ lit ":1,}" ++ [10%N]
  ++ lit "```".

End RepairSamples.

(** *** The manifest the assembly is meant to build *)

(** A valid image reference: not empty, and not the marker of a failed
    image call. *)
Definition valid_image (s : Scene) : bool :=
  match image_url s with
  | Some (c :: u) => negb (startsWith (c :: u) (lit "ERROR: "))
  | _ => false
  end.

(** The manifest for the scenes with a valid image: one (file, duration)
    pair each, in the order of the list, every duration the larger of
    0.05 and the length of the scene; then the file of the last of them
    once more. *)
Definition intended_manifest {Ext} (P : Platform Ext) (scenes : list Scene)
  : list ManifestLine :=
  let listed := filter valid_image scenes in
  flat_map (fun s => [FileLine (image_file P s);
                      DurationLine
                        (Math_max 0.05
                           (end_time_secs s - start_time_secs s)%float)])
           listed
  ++ match rev listed with
     | l :: _ => [FileLine (image_file P l)]
     | [] => []
     end.

Definition is_duration (l : ManifestLine) : bool :=
  match l with
  | DurationLine _ => true
  | FileLine _ => false
  end.

(** The number of (file, duration) pairs of a manifest. *)
Definition pairs (manifest : list ManifestLine) : nat :=
  length (filter is_duration manifest).

(** *** The result of a job *)

(** The identifier of the job started at [t] for an uploaded file. *)
Definition job_id {Ext} (P : Platform Ext) (file : Pipeline.File) (t : N)
  : jsstring :=
  Pipeline.getJobId P (Pipeline.file_name file) ++ lit "_" ++ N_toString t.

(** A scene of a finished storyboard, against the chunk it was made
    from: the number, the times and the script of the chunk; a prompt
    that is not empty; an image reference that is absent, the public URL
    of an image of that scene, or an error marker. *)
Definition finalized_scene {Ext} (P : Platform Ext) (chunk s : Scene) : Prop :=
  scene s = scene chunk
  /\ start_time_secs s = start_time_secs chunk
  /\ end_time_secs s = end_time_secs chunk
  /\ script s = script chunk
  /\ truthy_str (prompt s) = true
  /\ (image_url s = None
      \/ exists u, image_url s = Some u /\ image_ref_written P chunk u).

(** The video of a job is published: the reference is the public URL of
    the job's video in the video bucket, and the upload of that file to
    the bucket has returned. *)
Definition published {Ext} (P : Platform Ext) (jobId video : jsstring)
  : Prop :=
  video = Pipeline.public_url (videoBucketName P) (jobId ++ lit ".mp4")
  /\ exists x x',
       storage_upload P (videoBucketName P)
                      (path_join P (Pipeline.temp_dir P jobId)
                                 (jobId ++ lit ".mp4"))
                      (jobId ++ lit ".mp4") x
       = (Ok tt, x').

(** What a job went through on its way: the time it started, the words
    and the audio reference of step 1, the scenes of steps 2 and 3, and
    the world after each step. *)
Record JobTrace (Ext : Type) := mkJobTrace {
  started : N;
  heard_words : list WordInfo;
  audio_ref : jsstring;
  chunked : list Scene;
  prompted : list Scene;
  after_start : World Ext;
  after_step1 : World Ext;
  after_step2 : World Ext;
  after_step3 : World Ext;
  after_step4 : World Ext
}.

(** The five steps of a job on an uploaded file have all returned, the
    last two with the scenes and the video of the result. *)
Definition ran_to_end {Ext} (P : Platform Ext) (file : Pipeline.File)
           (w : World Ext) (tr : JobTrace Ext) (scenes : list Scene)
           (video : jsstring) (w' : World Ext) : Prop :=
  let fullJobId := job_id P file (started tr) in
  now P w = (Ok (started tr), after_start tr)
  /\ Pipeline.runStep1_Transcribe P fullJobId file (after_start tr)
     = (Ok (heard_words tr, audio_ref tr), after_step1 tr)
  /\ Pipeline.runStep2_ChunkScript P fullJobId (heard_words tr)
                                   (after_step1 tr)
     = (Ok (chunked tr), after_step2 tr)
  /\ Pipeline.runStep3_AnalyzeAndGeneratePrompts
       P fullJobId (chunked tr)
       (join (lit " ") (map word (heard_words tr))) (after_step2 tr)
     = (Ok (prompted tr), after_step3 tr)
  /\ Pipeline.runStep4_GenerateImages P fullJobId (prompted tr)
                                      (after_step3 tr)
     = (Ok scenes, after_step4 tr)
  /\ Pipeline.runStep5_CreateVideo P fullJobId scenes (audio_ref tr)
                                   (after_step4 tr)
     = (Ok video, w').

(** * Properties *)


(** ** Order on numbers *)

Section NumberOrder.

Open Scope float_scope.

Lemma SFleb_trans (a b c : spec_float) :
  SFleb a b = true -> SFleb b c = true -> SFleb a c = true.
Proof.
  unfold SFleb, SFcompare.
  destruct a as [sa|sa| |sa ma ea], b as [sb|sb| |sb mb eb],
           c as [sc|sc| |sc mc ec];
    try destruct sa; try destruct sb; try destruct sc;
    try discriminate; try reflexivity.
  all: rewrite !Pos.compare_cont_spec.
  all: destruct (Z.compare_spec ea eb), (Z.compare_spec eb ec),
         (Z.compare_spec ea ec); try discriminate; try reflexivity; try lia.
  all: destruct (Pos.compare_spec ma mb), (Pos.compare_spec mb mc),
         (Pos.compare_spec ma mc); simpl;
       try discriminate; try reflexivity; try lia.
Qed.

Lemma SFleb_refl_left (a b : spec_float) :
  SFleb a b = true -> SFleb a a = true.
Proof.
  unfold SFleb, SFcompare.
  destruct a as [sa|sa| |sa ma ea]; try destruct sa; try discriminate;
    try reflexivity; intros _;
    rewrite Z.compare_refl, Pos.compare_cont_refl; reflexivity.
Qed.

Lemma SFleb_refl_right (a b : spec_float) :
  SFleb a b = true -> SFleb b b = true.
Proof.
  unfold SFleb, SFcompare.
  destruct a as [sa|sa| |sa ma ea], b as [sb|sb| |sb mb eb];
    try destruct sa; try destruct sb; try discriminate; try reflexivity;
    intros _; rewrite Z.compare_refl, Pos.compare_cont_refl; reflexivity.
Qed.

Lemma leb_trans (x y z : number) :
  (x <=? y) = true -> (y <=? z) = true -> (x <=? z) = true.
Proof. rewrite !leb_spec. apply SFleb_trans. Qed.

Lemma leb_refl_left (x y : number) : (x <=? y) = true -> (x <=? x) = true.
Proof. rewrite !leb_spec. apply SFleb_refl_left. Qed.

Lemma leb_refl_right (x y : number) : (x <=? y) = true -> (y <=? y) = true.
Proof. rewrite !leb_spec. apply SFleb_refl_right. Qed.

Lemma ltb_leb (x y : number) : (x <? y) = true -> (x <=? y) = true.
Proof.
  rewrite ltb_spec, leb_spec. unfold SFltb, SFleb.
  destruct (SFcompare _ _) as [[]|]; congruence.
Qed.

End NumberOrder.


Section NumberRounding.

Open Scope Z_scope.

Lemma shr_1_nonneg (mrs : shr_record) :
  0 <= shr_m mrs -> 0 <= shr_m (shr_1 mrs).
Proof.
  destruct mrs as [m r s]. simpl.
  destruct m as [|[p|p|]|[p|p|]]; simpl; lia.
Qed.

Lemma iter_shr_1_nonneg (p : positive) :
  forall mrs, 0 <= shr_m mrs -> 0 <= shr_m (iter_pos shr_1 p mrs).
Proof.
  induction p as [p IH|p IH|]; intros mrs H; simpl.
  - apply IH, IH, shr_1_nonneg, H.
  - apply IH, IH, H.
  - apply shr_1_nonneg, H.
Qed.

Lemma shr_fexp_nonneg (p e m ex : Z) (l : location) :
  0 <= m -> 0 <= shr_m (fst (shr_fexp p e m ex l)).
Proof.
  intros Hm. unfold shr_fexp, shr.
  assert (H0 : 0 <= shr_m (shr_record_of_loc m l)).
  { unfold shr_record_of_loc. destruct l as [|[]]; simpl; exact Hm. }
  destruct (fexp p e (Zdigits2 m + ex) - ex); simpl; try exact H0.
  apply iter_shr_1_nonneg, H0.
Qed.

Lemma round_nearest_even_nonneg (m : Z) (l : location) :
  0 <= m -> 0 <= round_nearest_even m l.
Proof.
  intros Hm. unfold round_nearest_even.
  destruct l as [|[]]; try destruct (Z.even m); lia.
Qed.

Lemma binary_round_aux_not_nan (p e : Z) (sx : bool) (mx ex : Z) (lx : location) :
  0 <= mx -> binary_round_aux p e sx mx ex lx <> S754_nan.
Proof.
  intros Hm. unfold binary_round_aux.
  pose proof (shr_fexp_nonneg p e ex lx Hm) as H1.
  destruct (shr_fexp p e mx ex lx) as [mrs' e']. simpl in H1.
  pose proof (shr_fexp_nonneg p e e' loc_Exact
                (round_nearest_even_nonneg (loc_of_shr_record mrs') H1)) as H2.
  destruct (shr_fexp p e (round_nearest_even (shr_m mrs')
                            (loc_of_shr_record mrs')) e' loc_Exact)
    as [mrs'' e''].
  simpl in H2.
  destruct (shr_m mrs'') as [|q|q]; try discriminate; [|lia].
  destruct (e'' <=? e - p); discriminate.
Qed.

Lemma binary_normalize_not_nan (p e m ex : Z) (szero : bool) :
  binary_normalize p e m ex szero <> S754_nan.
Proof.
  unfold binary_normalize, binary_round.
  destruct m as [|q|q]; try discriminate;
    destruct (shl_align q ex _) as [mz ez];
    apply binary_round_aux_not_nan; lia.
Qed.

End NumberRounding.

Section NumberFinite.

Open Scope float_scope.

Lemma Prim2SF_finite (x : number) :
  Number_isFinite x = true ->
  (exists s, Prim2SF x = S754_zero s)
  \/ (exists s m e, Prim2SF x = S754_finite s m e).
Proof.
  unfold Number_isFinite. intros H. apply andb_prop in H.
  destruct H as [Hnan Hinf].
  apply negb_true_iff in Hnan. apply negb_true_iff in Hinf.
  unfold Prim2SF. rewrite Hnan, Hinf.
  destruct (is_zero x); [left; eexists; reflexivity|].
  destruct (Z.frexp x) as [r ex].
  destruct (shr_fexp _ _ _ _ _) as [shr e'].
  destruct (shr_m shr).
  - left. eexists. reflexivity.
  - right. eexists. eexists. eexists. reflexivity.
  - left. eexists. reflexivity.
Qed.

Lemma is_nan_Prim2SF (x : number) :
  Prim2SF x <> S754_nan -> is_nan x = false.
Proof.
  intros H. unfold is_nan. rewrite eqb_spec. unfold SFeqb, SFcompare.
  destruct (Prim2SF x) as [s|s| |s m e]; try reflexivity; try destruct s;
    try reflexivity; try contradiction;
    rewrite Z.compare_refl, Pos.compare_cont_refl; reflexivity.
Qed.

(** The difference of two finite numbers is a number. *)
Lemma sub_finite_not_nan (x y : number) :
  Number_isFinite x = true -> Number_isFinite y = true ->
  is_nan (x - y) = false.
Proof.
  intros Hx Hy. apply is_nan_Prim2SF. rewrite sub_spec.
  destruct (Prim2SF_finite x Hx) as [[sx ->] | (sx & mx & ex & ->)];
    destruct (Prim2SF_finite y Hy) as [[sy ->] | (sy & my & ey & ->)];
    unfold SF64sub, SFsub; try discriminate.
  - destruct sx, sy; discriminate.
  - apply binary_normalize_not_nan.
Qed.

Lemma Math_max_floor (x : number) :
  is_nan x = false -> (0.05 <=? Math_max 0.05 x) = true.
Proof.
  intros Hx. unfold Math_max. rewrite Hx.
  change (is_nan 0.05) with false. change (is_zero 0.05) with false.
  cbn [orb andb].
  destruct (0.05 <? x) eqn:E; [apply ltb_leb, E | reflexivity].
Qed.

End NumberFinite.

(** ** Tokens of joined and trimmed text *)

Section Tokens.

Lemma tokens_from_split (cur s1 s2 : jsstring) (c : char) :
  isWhiteSpace c = true ->
  tokens_from cur (s1 ++ c :: s2) = tokens_from cur s1 ++ tokens s2.
Proof.
  intros Hc. revert cur.
  induction s1 as [|x s1 IH]; intros cur; simpl.
  - rewrite Hc. destruct cur; reflexivity.
  - destruct (isWhiteSpace x).
    + destruct cur; simpl; rewrite IH; reflexivity.
    + apply IH.
Qed.

Lemma tokens_from_snoc_space (cur s : jsstring) (c : char) :
  isWhiteSpace c = true ->
  tokens_from cur (s ++ [c]) = tokens_from cur s.
Proof.
  intros Hc. rewrite tokens_from_split by assumption.
  apply app_nil_r.
Qed.

Lemma tokens_trimStart (s : jsstring) : tokens (trimStart s) = tokens s.
Proof.
  unfold tokens. induction s as [|c s IH]; simpl; [reflexivity|].
  destruct (isWhiteSpace c) eqn:E; [exact IH|].
  simpl. rewrite E. reflexivity.
Qed.

Lemma tokens_from_rev_trimStart (cur l : jsstring) :
  tokens_from cur (rev (trimStart l)) = tokens_from cur (rev l).
Proof.
  induction l as [|c l IH]; simpl; [reflexivity|].
  destruct (isWhiteSpace c) eqn:E; [|reflexivity].
  rewrite tokens_from_snoc_space by assumption. exact IH.
Qed.

Lemma tokens_trim (s : jsstring) : tokens (trim s) = tokens s.
Proof.
  unfold trim, trimEnd, tokens.
  rewrite tokens_from_rev_trimStart, rev_involutive.
  apply tokens_trimStart.
Qed.

Lemma tokens_join_space (parts : list jsstring) :
  tokens (join (lit " ") parts) = concat (map tokens parts).
Proof.
  induction parts as [|p rest IH]; [reflexivity|].
  destruct rest as [|q rest].
  - simpl. rewrite app_nil_r. reflexivity.
  - change (join (lit " ") (p :: q :: rest))
      with (p ++ 32%N :: join (lit " ") (q :: rest)).
    unfold tokens at 1. rewrite tokens_from_split by reflexivity.
    rewrite IH. reflexivity.
Qed.

Lemma tokens_from_plain (s : jsstring) :
  Forall (fun c => isWhiteSpace c = false) s ->
  forall cur,
    tokens_from cur s = match cur ++ s with [] => [] | _ :: _ => [cur ++ s] end.
Proof.
  induction 1 as [|c s Hc _ IH]; intros cur; simpl.
  - rewrite app_nil_r. destruct cur; reflexivity.
  - rewrite Hc, IH, <- app_assoc. reflexivity.
Qed.

(** A word without white space is its own single token. *)
Lemma word_tokens_plain (words : list WordInfo) :
  Forall (fun w => word w <> []
                   /\ Forall (fun c => isWhiteSpace c = false) (word w))
         words ->
  word_tokens words = map word words.
Proof.
  unfold word_tokens. induction 1 as [|w rest [Hne Hplain] _ IH];
    [reflexivity|].
  simpl. rewrite IH. unfold tokens. rewrite tokens_from_plain by assumption.
  simpl. destruct (word w); [contradiction | reflexivity].
Qed.

(** Joined end to end, the tokens of a text are the text without its
    white space. *)
Lemma concat_tokens_from (s : jsstring) :
  forall cur,
    concat (tokens_from cur s)
    = cur ++ filter (fun c => negb (isWhiteSpace c)) s.
Proof.
  induction s as [|c s IH]; intros cur; simpl.
  - destruct cur; simpl; rewrite ?app_nil_r; reflexivity.
  - destruct (isWhiteSpace c); simpl.
    + destruct cur; simpl; rewrite IH; reflexivity.
    + rewrite IH, <- app_assoc. reflexivity.
Qed.

Lemma concat_tokens (s : jsstring) :
  concat (tokens s) = filter (fun c => negb (isWhiteSpace c)) s.
Proof. unfold tokens. apply concat_tokens_from. Qed.

Lemma tokens_script (currentTokens : list jsstring) :
  tokens (trim (join (lit " ") currentTokens))
  = concat (map tokens currentTokens).
Proof. rewrite tokens_trim. apply tokens_join_space. Qed.

End Tokens.

(** ** Step 2: the scenes partition the transcript *)

Module SegmenterFacts.

Import Segmenter.

Lemma scene_tokens_snoc (scenes : list Scene) (s : Scene) :
  scene_tokens (scenes ++ [s]) = scene_tokens scenes ++ tokens (script s).
Proof.
  unfold scene_tokens. rewrite map_app, concat_app. simpl.
  rewrite app_nil_r. reflexivity.
Qed.

Lemma buffer_nonempty (currentTokens : list jsstring) (token : jsstring) :
  (0 <? length (currentTokens ++ [token]))%nat = true.
Proof. rewrite length_app. simpl. apply Nat.ltb_lt. lia. Qed.

(** The loop keeps every token: what is already in scenes, what waits in
    the buffer and what is still to be read come out in that order. *)
Lemma chunk_loop_tokens (ws : list WordInfo) :
  forall scenes currentTokens currentStart,
    (ws = [] -> currentTokens = []) ->
    scene_tokens (chunk_loop ws scenes currentTokens currentStart)
    = scene_tokens scenes ++ concat (map tokens currentTokens)
      ++ word_tokens ws.
Proof.
  induction ws as [|w rest IH]; intros scenes cur start Hcur.
  - rewrite (Hcur eq_refl). simpl. rewrite app_nil_r. reflexivity.
  - cbn [chunk_loop]. rewrite buffer_nonempty, andb_true_r.
    destruct (_ || _) eqn:HendHere.
    + rewrite IH by reflexivity.
      rewrite scene_tokens_snoc. cbn [script].
      rewrite tokens_script, map_app, concat_app. simpl.
      rewrite !app_nil_r, <- !app_assoc. reflexivity.
    + assert (Hrest : rest <> []).
      { intros ->. rewrite orb_true_r in HendHere. discriminate. }
      rewrite IH by (intros ?; contradiction).
      rewrite map_app, concat_app. simpl.
      rewrite !app_nil_r, <- !app_assoc. reflexivity.
Qed.

Lemma chunk_loop_length (ws : list WordInfo) :
  forall scenes currentTokens currentStart,
    (length scenes <= length (chunk_loop ws scenes currentTokens currentStart)
     /\ (ws <> [] ->
         length scenes
         < length (chunk_loop ws scenes currentTokens currentStart)))%nat.
Proof.
  induction ws as [|w rest IH]; intros scenes cur start.
  - simpl. split; [lia | congruence].
  - cbn [chunk_loop]. rewrite buffer_nonempty, andb_true_r.
    destruct (_ || _) eqn:HendHere.
    + match goal with
      | |- context [chunk_loop rest ?sc ?c ?st] =>
          destruct (IH sc c st) as [Hle _]
      end.
      rewrite length_app in Hle. simpl in Hle. split; intros; lia.
    + assert (Hrest : rest <> []).
      { intros ->. rewrite orb_true_r in HendHere. discriminate. }
      destruct (IH scenes (cur ++ [word w]) start) as [Hle Hlt].
      specialize (Hlt Hrest). split; intros; lia.
Qed.

End SegmenterFacts.

(** C3: for a non-empty word sequence, chunking emits at least one scene,
    and the tokens of the scene scripts, scene after scene, are the tokens
    of the input words, word after word; joined end to end they give the
    same text. *)
Theorem chunkScript_keeps_tokens (words : list WordInfo) :
  words <> [] ->
  (1 <= length (Segmenter.chunkScript words))%nat
  /\ scene_tokens (Segmenter.chunkScript words) = word_tokens words
  /\ concat (scene_tokens (Segmenter.chunkScript words))
     = concat (word_tokens words).
Proof.
  intros Hne. destruct words as [|w0 rest]; [contradiction|].
  assert (Htok : scene_tokens (Segmenter.chunkScript (w0 :: rest))
                 = word_tokens (w0 :: rest)).
  { unfold Segmenter.chunkScript.
    rewrite SegmenterFacts.chunk_loop_tokens by congruence. reflexivity. }
  split; [|split].
  - destruct (SegmenterFacts.chunk_loop_length (w0 :: rest) [] []
                (startTime w0)) as [_ Hlt].
    exact (Hlt Hne).
  - exact Htok.
  - rewrite Htok. reflexivity.
Qed.

Module TimelineFacts.

Import Segmenter Timeline.

Lemma le_trans (a b c : number) : le a b -> le b c -> le a c.
Proof. apply leb_trans. Qed.

Lemma StronglySorted_snoc {A} (R : A -> A -> Prop) (l : list A) (y : A) :
  StronglySorted R l -> Forall (fun x => R x y) l ->
  StronglySorted R (l ++ [y]).
Proof.
  induction 1 as [|x l Hl IH Hx]; intros Hy; simpl.
  - constructor; constructor.
  - inversion Hy; subst. constructor.
    + apply IH; assumption.
    + apply Forall_app. split; [assumption | constructor; [assumption | constructor]].
Qed.

Lemma numbered_snoc (scenes : list Scene) (s : Scene) :
  numbered_from_one scenes -> scene s = (length scenes + 1)%nat ->
  numbered_from_one (scenes ++ [s]).
Proof.
  intros Hn Hs k s' Hk.
  destruct (Nat.lt_ge_cases k (length scenes)) as [Hlt | Hge].
  - rewrite nth_error_app1 in Hk by assumption. apply Hn, Hk.
  - rewrite nth_error_app2 in Hk by assumption.
    destruct (k - length scenes)%nat as [|j] eqn:Ej; simpl in Hk.
    + injection Hk as <-. rewrite Hs. lia.
    + destruct j; discriminate.
Qed.

Lemma scenes_ok_snoc (scenes : list Scene) (s : Scene) :
  scenes_ok scenes ->
  scene_well_timed s ->
  scene s = (length scenes + 1)%nat ->
  Forall (fun x => le (start_time_secs x) (start_time_secs s)) scenes ->
  scenes_ok (scenes ++ [s]).
Proof.
  intros (Ht & Hn & Hs) Hts Hnum Hbefore. repeat split.
  - apply Forall_app. split; [assumption | constructor; [assumption | constructor]].
  - apply numbered_snoc; assumption.
  - apply StronglySorted_snoc; assumption.
Qed.

(** The loop invariant: the scenes emitted so far are well formed and
    none starts after the buffer, and the buffer starts no later than the
    word about to be read. *)
Lemma chunk_loop_ok (ws : list WordInfo) :
  forall scenes currentTokens currentStart,
    temporally_ordered ws ->
    Forall well_timed ws ->
    scenes_ok scenes ->
    Forall (fun s => le (start_time_secs s) currentStart) scenes ->
    match ws with
    | w :: _ => le currentStart (startTime w)
    | [] => True
    end ->
    scenes_ok (chunk_loop ws scenes currentTokens currentStart).
Proof.
  induction ws as [|w rest IH];
    intros scenes cur start Hord Hwt Hok Hbefore Hhead.
  - exact Hok.
  - cbn [chunk_loop]. rewrite SegmenterFacts.buffer_nonempty, andb_true_r.
    apply Sorted_inv in Hord. destruct Hord as [Hord Hhd].
    inversion Hwt as [|? ? Hw Hwt']; subst.
    assert (Hend : le start (endTime w)) by exact (le_trans Hhead Hw).
    assert (Hnext : match rest with
                    | w' :: _ => le start (startTime w')
                    | [] => True
                    end).
    { destruct rest as [|w' rest']; [exact I|].
      inversion Hhd as [|? ? Hww']; subst. exact (le_trans Hhead Hww'). }
    destruct (_ || _).
    + apply IH; try assumption.
      * apply scenes_ok_snoc; try assumption; reflexivity.
      * apply Forall_app. split.
        -- destruct rest as [|w' rest'].
           ++ assumption.
           ++ eapply Forall_impl; [|exact Hbefore].
              intros s Hs. exact (le_trans Hs Hnext).
        -- constructor; [|constructor]. cbn [start_time_secs].
           destruct rest as [|w' rest']; [|assumption].
           exact (leb_refl_left Hhead).
      * destruct rest as [|w' rest']; [exact I|].
        inversion Hwt' as [|? ? Hw' ?]; subst. exact (leb_refl_left Hw').
    + apply IH; assumption.
Qed.

End TimelineFacts.

(** C9: when the words are in temporal order and none ends before it
    starts, every scene has [start_time_secs <= end_time_secs], scene [k] is
    numbered [k], and the scenes come by non-decreasing start time. *)
Theorem chunkScript_scenes_ordered (words : list WordInfo) :
  Timeline.temporally_ordered words ->
  Forall Timeline.well_timed words ->
  Forall Timeline.scene_well_timed (Segmenter.chunkScript words)
  /\ Timeline.numbered_from_one (Segmenter.chunkScript words)
  /\ Timeline.starts_non_decreasing (Segmenter.chunkScript words).
Proof.
  intros Hord Hwt.
  change (Timeline.scenes_ok (Segmenter.chunkScript words)).
  destruct words as [|w0 rest].
  - repeat split; try constructor. intros [|k] s Hk; discriminate.
  - unfold Segmenter.chunkScript.
    apply TimelineFacts.chunk_loop_ok; try assumption.
    + repeat split; try constructor. intros [|k] s Hk; discriminate.
    + constructor.
    + inversion Hwt as [|? ? Hw0 ?]; subst. exact (leb_refl_left Hw0).
Qed.

Lemma chunkScript_keeps_tokens_witness :
  (1 <= length (Segmenter.chunkScript Samples.words3))%nat
  /\ scene_tokens (Segmenter.chunkScript Samples.words3)
     = word_tokens Samples.words3
  /\ concat (scene_tokens (Segmenter.chunkScript Samples.words3))
     = concat (word_tokens Samples.words3).
Proof. apply chunkScript_keeps_tokens. discriminate. Defined.

Lemma chunkScript_scenes_ordered_witness :
  Forall Timeline.scene_well_timed (Segmenter.chunkScript Samples.words3)
  /\ Timeline.numbered_from_one (Segmenter.chunkScript Samples.words3)
  /\ Timeline.starts_non_decreasing (Segmenter.chunkScript Samples.words3).
Proof.
  apply chunkScript_scenes_ordered.
  - repeat constructor.
  - repeat constructor.
Defined.

(** The hand-made case of the specification: the sentence end at 8.5 s
    closes the first scene, the last word closes the second. *)
Example chunkScript_sample :
  Segmenter.chunkScript Samples.words3
  = [ mkScene 1 0 8.5 (lit "Hi there.") None None;
      mkScene 2 9 10 (lit "Bye") None None ].
Proof. reflexivity. Qed.

(** Without sentence-terminal punctuation there is one scene, from the
    first start to the last end. *)
Example chunkScript_no_punctuation :
  Segmenter.chunkScript
    [ mkWord (lit "one") 0 4; mkWord (lit "two") 4 9; mkWord (lit "three") 9 12 ]
  = [ mkScene 1 0 12 (lit "one two three") None None ].
Proof. reflexivity. Qed.

(** ** Scene identifiers *)

Lemma candidate_is_first_present (obj : JSValue) :
  coerceSceneId
    (nullish_or
       (nullish_or
          (nullish_or (prop obj (lit "scene_id")) (prop obj (lit "scene")))
          (prop obj (lit "id")))
       (prop obj (lit "index")))
  = coerceSceneId (first_present obj identifier_fields).
Proof.
  unfold identifier_fields, first_present, nullish_or.
  destruct (prop obj (lit "scene_id")) as [[]|];
    destruct (prop obj (lit "scene")) as [[]|];
    destruct (prop obj (lit "id")) as [[]|];
    destruct (prop obj (lit "index")) as [[]|]; reflexivity.
Qed.

Lemma coerceSceneId_finite (v : option JSValue) :
  match coerceSceneId v with
  | Some x => Number_isFinite x = true
  | None => True
  end.
Proof.
  destruct v as [[]|]; simpl; try exact I.
  - destruct (Number_isFinite x) eqn:E; [exact E | exact I].
  - destruct (Number_isFinite (parseInt_digits _)) eqn:E; [exact E | exact I].
Qed.

(** C4, as the code has it: identifier extraction never fails; it yields
    null or a finite number.  The value is that of the first identifier
    field that is present and not null: a number is taken as it is when
    finite, whatever its sign or fraction; a string gives the value of its
    decimal digits, and null when it has none. *)
Theorem extractSceneId_finite_or_null (record : JSValue) :
  match extractSceneId record with
  | Some x => Number_isFinite x = true
  | None => True
  end
  /\ extractSceneId record
     = match record with
       | JObj _ | JArr _ =>
           match first_present record identifier_fields with
           | Some (JNum x) => if Number_isFinite x then Some x else None
           | Some (JStr s) =>
               match filter is_digit s with
               | [] => None
               | d :: ds =>
                   let v := of_Z (digits_value (d :: ds)) in
                   if Number_isFinite v then Some v else None
               end
           | _ => None
           end
       | _ => None
       end.
Proof.
  split.
  - destruct record; simpl; try exact I; apply coerceSceneId_finite.
  - destruct record; try reflexivity; unfold extractSceneId;
      rewrite candidate_is_first_present;
      destruct (first_present _ _) as [[]|]; try reflexivity;
      simpl; destruct (filter is_digit s); reflexivity.
Qed.

(** C4 as stated fails: a record whose identifier is the number -3 yields
    -3, which is not a positive integer. *)
Lemma extractSceneId_not_positive :
  ~ (forall record,
        match extractSceneId record with
        | Some x => positive_integer x
        | None => True
        end).
Proof.
  intros H.
  specialize (H (record_with_id (JNum (-3)%float) (lit "a river at dawn"))).
  vm_compute in H. destruct H as [H _]. discriminate H.
Qed.

(** Identifiers as the specification's test lists them, and a few that
    are not positive integers. *)
Example extractSceneId_samples :
  map (fun id => extractSceneId (record_with_id id []))
      [ JStr (lit "2"); JStr (lit "scene_1"); JStr (lit "x");
        JNum 3; JNum 0; JNum 2.5; JNum (-3); JStr (lit "scene 0");
        JNum infinity; JBool true; JNull ]
  = [ Some 2; Some 1; None; Some 3; Some 0; Some 2.5; Some (-3); Some 0;
      None; None; None ]%float.
Proof. reflexivity. Qed.

(** Only the first field that is present decides: an unreadable
    [scene_id] hides a readable [scene]. *)
Example extractSceneId_first_field_only :
  extractSceneId (JObj [(lit "scene_id", JStr (lit "x")); (lit "scene", JNum 2)])
  = None.
Proof. reflexivity. Qed.

(** ** Step 3: when the positional fallback applies *)

Module ReconcilerFacts.

Import Reconciler.

Lemma map_set_nonempty (m : PromptMap) (k : number) (v : jsstring) :
  map_set m k v <> [].
Proof.
  destruct m as [|[k' v'] m]; simpl; [discriminate|].
  destruct (sameValueZero k' k); discriminate.
Qed.

Lemma collect_by_id_keeps_entries (records : list JSValue) :
  forall m, m <> [] ->
    match collect_by_id records m with
    | Ok m' => m' <> []
    | Throw _ => True
    end.
Proof.
  induction records as [|r rest IH]; intros m Hm; simpl; [exact Hm|].
  destruct (pRaw_of r) as [pRaw|e]; [|exact I].
  destruct (extractSceneId r) as [x|]; [|apply IH, Hm].
  destruct (usable (Some x) pRaw); apply IH;
    [apply map_set_nonempty | exact Hm].
Qed.

Lemma collect_by_id_usable (records : list JSValue) :
  Exists (fun r => usable_record r = true) records ->
  forall m,
    match collect_by_id records m with
    | Ok m' => m' <> []
    | Throw _ => True
    end.
Proof.
  induction 1 as [r rest Hr | r rest _ IH]; intros m; simpl.
  - unfold usable_record in Hr.
    destruct (pRaw_of r) as [pRaw|e]; [|exact I].
    destruct (extractSceneId r) as [x|]; [|discriminate Hr].
    rewrite Hr. apply collect_by_id_keeps_entries, map_set_nonempty.
  - destruct (pRaw_of r) as [pRaw|e]; [|exact I].
    destruct (extractSceneId r) as [x|]; [|apply IH].
    destruct (usable (Some x) pRaw); apply IH.
Qed.

(** When no record is usable the first pass leaves the map as it was, or
    stops on the record on which the second pass stops as well. *)
Lemma collect_by_id_unusable (records : list JSValue) :
  Forall (fun r => usable_record r = false) records ->
  forall m,
    collect_by_id records m = Ok m
    \/ exists e, collect_by_id records m = Throw e
                 /\ forall idx m', collect_by_position records idx m' = Throw e.
Proof.
  induction 1 as [|r rest Hr _ IH]; intros m; simpl; [left; reflexivity|].
  unfold usable_record in Hr.
  destruct (pRaw_of r) as [pRaw|e].
  - assert (Hstep : match extractSceneId r with
                    | Some x =>
                        if usable (extractSceneId r) pRaw
                        then collect_by_id rest (map_set m x (promptFinal pRaw))
                        else collect_by_id rest m
                    | None => collect_by_id rest m
                    end = collect_by_id rest m).
    { rewrite Hr. destruct (extractSceneId r); reflexivity. }
    rewrite Hstep.
    destruct (IH m) as [Hok | (e & He & Hpos)]; [left; exact Hok|].
    right. exists e. split; [exact He|].
    intros idx m'. destruct pRaw; apply Hpos.
  - right. exists e. split; [reflexivity|]. intros idx m'. reflexivity.
Qed.

(** The positional pass reads the prompts only. *)
Lemma collect_by_position_ignores_ids (rs1 : list JSValue) :
  forall rs2 idx m,
    map pRaw_of rs1 = map pRaw_of rs2 ->
    collect_by_position rs1 idx m = collect_by_position rs2 idx m.
Proof.
  induction rs1 as [|r1 rs1 IH]; intros [|r2 rs2] idx m Hmap;
    try discriminate; [reflexivity|].
  simpl in Hmap. injection Hmap as Hhead Htail. simpl. rewrite Hhead.
  destruct (pRaw_of r2) as [[|c p]|e]; try reflexivity; apply IH, Htail.
Qed.

End ReconcilerFacts.

(** C5 as stated fails: the first record below has the identifier 5, yet
    its prompt is empty, nothing is stored by identifier, and the second
    record is assigned by position to scene 2. *)
Lemma positional_despite_identifier :
  ~ (forall records,
        (exists r, In r records /\ extractSceneId r <> None) ->
        Reconciler.buildPromptMap records
        = Reconciler.collect_by_id records []).
Proof.
  intros H.
  specialize (H [ record_with_id (JNum 5) [];
                  record_with_id (JStr (lit "x")) (lit "a harbour") ]).
  assert (Hid : exists r,
             In r [ record_with_id (JNum 5) [];
                    record_with_id (JStr (lit "x")) (lit "a harbour") ]
             /\ extractSceneId r <> None).
  { exists (record_with_id (JNum 5) []). split; [left; reflexivity|].
    discriminate. }
  specialize (H Hid). vm_compute in H. discriminate H.
Qed.

(** The test of the specification: identifiers 2, scene_1 and x against
    scenes 1 to 3. *)
Example reconcile_by_identifier :
  Reconciler.buildPromptMap
    [ record_with_id (JStr (lit "2")) (lit "two");
      record_with_id (JStr (lit "scene_1")) (lit "one.");
      record_with_id (JStr (lit "x")) (lit "three 16:9") ]
  = Ok [ (2%float, lit "two. 16:9."); (1%float, lit "one. 16:9.") ].
Proof. reflexivity. Qed.

Example reconcile_by_position :
  Reconciler.buildPromptMap
    [ record_with_id (JStr (lit "a")) (lit "two");
      record_with_id (JStr (lit "b")) (lit "one.");
      record_with_id (JStr (lit "c")) (lit "three 16:9") ]
  = Ok [ (1%float, lit "two. 16:9."); (2%float, lit "one. 16:9.");
         (3%float, lit "three 16:9") ].
Proof. reflexivity. Qed.

Example applyPrompts_sample :
  map prompt
      (Reconciler.applyPrompts
         [ (2%float, lit "two. 16:9."); (1%float, lit "one. 16:9.") ]
         [ mkScene 1 0 8 (lit "a") None None;
           mkScene 2 8 16 (lit "b") None None;
           mkScene 3 16 20 (lit "c") None None ])
  = [ Some (lit "one. 16:9."); Some (lit "two. 16:9.");
      Some (lit "Failed to generate prompt for scene 3") ].
Proof. reflexivity. Qed.

(** ** The tolerant parser *)

Module SanitizerFacts.

Import Sanitizer.

Lemma startsWith_backtick (c : char) (s : jsstring) :
  c <> 96%N -> startsWith (c :: s) fence = false.
Proof.
  intros Hc. unfold fence. simpl. unfold char_eqb.
  destruct (N.eqb_spec c 96); [contradiction | reflexivity].
Qed.

Lemma capture_until_fence_cons (c : char) (s : jsstring) :
  capture_until_fence (c :: s)
  = if startsWith (c :: s) fence then Some []
    else option_map (cons c) (capture_until_fence s).
Proof. reflexivity. Qed.

Lemma capture_until_fence_body (body rest : jsstring) :
  no_backtick body ->
  capture_until_fence (body ++ fence ++ rest) = Some body.
Proof.
  induction 1 as [|c body Hc _ IH].
  - reflexivity.
  - change ((c :: body) ++ fence ++ rest) with (c :: (body ++ fence ++ rest)).
    rewrite capture_until_fence_cons, startsWith_backtick by assumption.
    exact (f_equal (option_map (cons c)) IH).
Qed.

Lemma startsWith_ci_tag (tag rest : jsstring) :
  length tag = 4%nat -> map lower_ascii tag = lit "json" ->
  startsWith_ci (tag ++ rest) (lit "json") = true
  /\ skipn 4 (tag ++ rest) = rest.
Proof.
  intros Hlen Hmap.
  destruct tag as [|a [|b [|c [|d [|? ?]]]]]; try discriminate.
  simpl in Hmap. injection Hmap as Ha Hb Hc Hd.
  split; [|reflexivity].
  simpl. unfold char_eqb. rewrite Ha, Hb, Hc, Hd. reflexivity.
Qed.

Lemma fence_match_unfold (s : jsstring) :
  fence_match s
  = match fence_match_here s with
    | Some cap => Some cap
    | None => match s with
              | [] => None
              | _ :: s' => fence_match s'
              end
    end.
Proof. destruct s; reflexivity. Qed.

(** The pattern matches a fenced block at the head of the text and
    captures what is between the fences. *)
Lemma fence_match_fenced (tag body rest : jsstring) :
  fence_tag tag -> no_backtick body ->
  fence_match (fence ++ tag ++ [10%N] ++ body ++ fence ++ rest) = Some body.
Proof.
  intros Htag Hbody.
  assert (Hhere : fence_match_here
                    (fence ++ tag ++ [10%N] ++ body ++ fence ++ rest)
                  = Some body).
  { unfold fence_match_here.
    change (startsWith (fence ++ tag ++ [10%N] ++ body ++ fence ++ rest) fence)
      with true.
    change (skipn 3 (fence ++ tag ++ [10%N] ++ body ++ fence ++ rest))
      with (tag ++ [10%N] ++ body ++ fence ++ rest).
    cbv iota.
    destruct Htag as [-> | [Hlen Hmap]].
    - change (startsWith_ci ([] ++ [10%N] ++ body ++ fence ++ rest)
                            (lit "json")) with false.
      cbv iota.
      change (fence_body ([] ++ [10%N] ++ body ++ fence ++ rest))
        with (capture_until_fence (body ++ fence ++ rest)).
      apply capture_until_fence_body, Hbody.
    - destruct (@startsWith_ci_tag tag ([10%N] ++ body ++ fence ++ rest)
                                   Hlen Hmap) as [Hci Hskip].
      rewrite Hci, Hskip.
      change (fence_body ([10%N] ++ body ++ fence ++ rest))
        with (capture_until_fence (body ++ fence ++ rest)).
      rewrite capture_until_fence_body by assumption. reflexivity. }
  rewrite fence_match_unfold, Hhere. reflexivity.
Qed.

Lemma trim_fenced (tag body : jsstring) :
  trim (fence ++ tag ++ [10%N] ++ body ++ fence)
  = fence ++ tag ++ [10%N] ++ body ++ fence.
Proof.
  unfold trim. change (trimStart (fence ++ ?s)) with (fence ++ s).
  unfold trimEnd.
  rewrite !app_assoc, rev_app_distr.
  change (rev fence) with fence.
  change (trimStart (fence ++ ?s)) with (fence ++ s).
  rewrite rev_app_distr, rev_involutive. reflexivity.
Qed.

(** X9: a reply that is one fenced block is reduced to the trimmed inside of
    the block. *)
Lemma extractPossibleJSON_fenced (tag body : jsstring) :
  fence_tag tag -> no_backtick body -> body <> [] ->
  extractPossibleJSON (fence ++ tag ++ [10%N] ++ body ++ fence) = trim body.
Proof.
  intros Htag Hbody Hne.
  unfold extractPossibleJSON.
  change (fence ++ tag ++ [10%N] ++ body ++ fence)
    with (96%N :: 96%N :: 96%N :: tag ++ [10%N] ++ body ++ fence) at 1.
  cbv iota.
  rewrite trim_fenced.
  replace (fence ++ tag ++ [10%N] ++ body ++ fence)
    with (fence ++ tag ++ [10%N] ++ body ++ fence ++ [])
    by (rewrite app_nil_r; reflexivity).
  rewrite fence_match_fenced by assumption.
  destruct body; [contradiction | reflexivity].
Qed.

Lemma fence_match_none (s : jsstring) :
  no_backtick s -> fence_match s = None.
Proof.
  induction 1 as [|c s Hc _ IH]; [reflexivity|].
  rewrite fence_match_unfold. unfold fence_match_here.
  rewrite startsWith_backtick by assumption. exact IH.
Qed.

Lemma no_backtick_trimStart (s : jsstring) :
  no_backtick s -> no_backtick (trimStart s).
Proof.
  induction 1 as [|c s Hc Hs IH]; simpl; [constructor|].
  destruct (isWhiteSpace c); [exact IH | constructor; assumption].
Qed.

Lemma no_backtick_rev (s : jsstring) : no_backtick s -> no_backtick (rev s).
Proof. unfold no_backtick. apply Forall_rev. Qed.

(** X10: a reply without any fence is only trimmed. *)
Lemma extractPossibleJSON_plain (text : jsstring) :
  no_backtick text -> extractPossibleJSON text = trim text.
Proof.
  intros H. unfold extractPossibleJSON.
  destruct text as [|c text]; [reflexivity|].
  rewrite fence_match_none; [reflexivity|].
  unfold trim, trimEnd.
  apply no_backtick_rev, no_backtick_trimStart, no_backtick_rev,
    no_backtick_trimStart, H.
Qed.

(** A comma, white space and a closing brace or bracket: the brace or
    bracket alone remains. *)
Lemma comma_tail_run (ws : jsstring) (c : char) (rest : jsstring) :
  Forall (fun x => isWhiteSpace x = true) ws -> is_closer c = true ->
  comma_tail (ws ++ c :: rest) = Some (length ws).
Proof.
  intros Hws Hc. induction Hws as [|x ws Hx _ IH]; simpl.
  - rewrite Hc. unfold is_closer in Hc.
    apply orb_prop in Hc. destruct Hc as [Hc|Hc];
      apply N.eqb_eq in Hc; subst c; reflexivity.
  - rewrite Hx, IH. reflexivity.
Qed.

Lemma drop_skip (ws rest : jsstring) :
  drop_trailing_commas (length ws) (ws ++ rest)
  = drop_trailing_commas 0 rest.
Proof. induction ws as [|x ws IH]; simpl; [reflexivity | exact IH]. Qed.

Lemma closer_not_comma (c : char) : is_closer c = true -> (c =? 44)%N = false.
Proof.
  unfold is_closer. intros H.
  destruct (N.eqb_spec c 44) as [->|]; [discriminate H | reflexivity].
Qed.

Lemma drop_trailing_comma (ws : jsstring) (c : char) (rest : jsstring) :
  Forall (fun x => isWhiteSpace x = true) ws -> is_closer c = true ->
  drop_trailing_commas 0 (44%N :: ws ++ c :: rest)
  = c :: drop_trailing_commas 0 rest.
Proof.
  intros Hws Hc. cbn [drop_trailing_commas]. cbv iota.
  change (44 =? 44)%N with true. cbv iota.
  rewrite comma_tail_run by assumption.
  rewrite drop_skip. cbn [drop_trailing_commas].
  rewrite closer_not_comma by assumption. reflexivity.
Qed.

(** The two replacements do not interfere: quotes first or commas first
    gives the same text. *)
Lemma comma_tail_plain_quotes (s : jsstring) :
  comma_tail (plain_quotes s) = comma_tail s.
Proof.
  induction s as [|c s IH]; [reflexivity|].
  simpl. destruct (is_smart_quote c) eqn:Eq.
  - unfold is_smart_quote in Eq.
    repeat (apply orb_prop in Eq; destruct Eq as [Eq|Eq]);
      apply N.eqb_eq in Eq; subst c; reflexivity.
  - fold (plain_quotes s). rewrite IH. reflexivity.
Qed.

Lemma quotes_commas_commute (s : jsstring) :
  forall skip,
    plain_quotes (drop_trailing_commas skip s)
    = drop_trailing_commas skip (plain_quotes s).
Proof.
  induction s as [|c s IH]; intros skip; [reflexivity|].
  cbn [drop_trailing_commas plain_quotes map].
  fold (plain_quotes s).
  destruct skip as [|k]; [|apply IH].
  destruct (is_smart_quote c) eqn:Eq.
  - assert (Hc : (c =? 44)%N = false).
    { unfold is_smart_quote in Eq.
      repeat (apply orb_prop in Eq; destruct Eq as [Eq|Eq]);
        apply N.eqb_eq in Eq; subst c; reflexivity. }
    rewrite Hc. change (34 =? 44)%N with false. cbv iota.
    cbn [plain_quotes map]. rewrite Eq. fold (plain_quotes s).
    rewrite IH. reflexivity.
  - rewrite comma_tail_plain_quotes.
    destruct (c =? 44)%N.
    + destruct (comma_tail s); [apply IH|].
      cbn [plain_quotes map]. rewrite Eq. fold (plain_quotes s).
      rewrite IH. reflexivity.
    + cbn [plain_quotes map]. rewrite Eq. fold (plain_quotes s).
      rewrite IH. reflexivity.
Qed.

End SanitizerFacts.

(** The normalisation of the fenced reply of the specification. *)
Example fenced_reply_normalised :
  Sanitizer.removeTrailingCommas
    (Sanitizer.extractPossibleJSON Samples.fenced_reply)
  = Samples.plain_reply.
Proof. reflexivity. Qed.

(** With a JSON reader at hand the fenced reply gives the object, and a
    valid text is read as it is. *)
Example parseModelJSON_fenced_reply :
  Sanitizer.parseModelJSON Demo.json_parse Samples.fenced_reply
  = Ok Samples.object_a1.
Proof. reflexivity. Qed.

Example parseModelJSON_plain_reply :
  Sanitizer.parseModelJSON Demo.json_parse Samples.plain_reply
  = Ok Samples.object_a1.
Proof. reflexivity. Qed.

(** ** Step 4: which scenes are skipped *)

Module ImageFacts.

Import Pipeline.

Section WithPlatform.

Variable Ext : Type.
Variable P : Platform Ext.

Ltac run :=
  cbv beta iota zeta delta
      [try_catch request_image image_failed bind call log_image_request
       now sleep ret throw ext dirs image_requests transcodes].

(** One pass through the loop body for a scene that is not skipped: the
    prompt is sent once, and the scene comes back with a public URL or
    with an error marker; nothing is thrown. *)
Lemma image_step (s : Scene) (p : jsstring) (w : World Ext) :
  exists u w',
    try_catch (request_image P s p) (image_failed (Ext := Ext) s) w
    = (Ok (with_image_url s (Some u)), w')
    /\ u <> []
    /\ image_requests w' = image_requests w ++ [p]
    /\ dirs w' = dirs w
    /\ transcodes w' = transcodes w.
Proof.
  destruct w as [x0 ds reqs ts]. run.
  destruct (generateImages P p x0) as [[[[|c b64]|]|e] x]; run.
  1, 3, 4: eexists; eexists; repeat split; try reflexivity; discriminate.
  destruct (Date_now P x) as [t x1]; run.
  destruct (storage_save P (imageBucketName P) (image_filename s t)
                         (c :: b64) x1) as [[[]|e] x2]; run.
  all: eexists; eexists; repeat split; try reflexivity; discriminate.
Qed.

Lemma step4_loop_spec (scenes : list Scene) :
  forall finalScenes w,
  exists out w',
    step4_loop P scenes finalScenes w = (Ok (finalScenes ++ out), w')
    /\ Forall2 image_outcome scenes out
    /\ image_requests w' = image_requests w ++ requested_prompts scenes
    /\ dirs w' = dirs w
    /\ transcodes w' = transcodes w.
Proof.
  induction scenes as [|s rest IH]; intros acc w.
  - exists [], w. cbn. rewrite !app_nil_r. repeat split. constructor.
  - cbn [step4_loop]. unfold requested_prompts. cbn [flat_map].
    fold (requested_prompts rest).
    destruct (no_valid_prompt s) eqn:Hskip.
    + destruct (IH (acc ++ [s]) w) as (out & w' & Hrun & Hout & Hreq & Hd & Ht).
      exists (s :: out), w'. rewrite Hrun, <- app_assoc.
      repeat split; try assumption.
      constructor; [|assumption]. unfold image_outcome. rewrite Hskip.
      reflexivity.
    + destruct (prompt s) as [p|] eqn:Hp;
        [|unfold no_valid_prompt in Hskip; rewrite Hp in Hskip; discriminate].
      destruct (image_step s p w) as (u & w1 & Hstep & Hu & Hreq1 & Hd1 & Ht1).
      destruct (IH (acc ++ [with_image_url s (Some u)]) w1)
        as (out & w' & Hrun & Hout & Hreq & Hd & Ht).
      exists (with_image_url s (Some u) :: out), w'.
      unfold bind at 1. rewrite Hstep, Hrun, <- app_assoc.
      repeat split.
      * constructor; [|assumption]. unfold image_outcome. rewrite Hskip.
        exists u. split; [assumption | reflexivity].
      * rewrite Hreq, Hreq1, <- app_assoc. reflexivity.
      * congruence.
      * congruence.
Qed.

(** Saving the scene list never throws and asks for no image. *)
Lemma saveChunkedJson_quiet (jobId : jsstring) (scenes : list Scene)
      (w : World Ext) :
  exists w',
    saveChunkedJson P jobId scenes w = (Ok tt, w')
    /\ image_requests w' = image_requests w.
Proof.
  unfold saveChunkedJson, save_quietly. destruct w as [x0 ds reqs ts]. run.
  destruct (storage_save P (chunkedBucketName P) (jobId ++ lit ".json")
                         (JSON_stringify_scenes P scenes) x0)
    as [[[]|e] x1]; run; eexists; split; reflexivity.
Qed.

Lemma runStep4_spec (jobId : jsstring) (scenes : list Scene) (w : World Ext) :
  exists out w',
    runStep4_GenerateImages P jobId scenes w = (Ok out, w')
    /\ Forall2 image_outcome scenes out
    /\ image_requests w' = image_requests w ++ requested_prompts scenes.
Proof.
  destruct (step4_loop_spec scenes [] w)
    as (out & w1 & Hloop & Hout & Hreq & _).
  destruct (saveChunkedJson_quiet jobId out w1) as (w2 & Hsave & Hreq2).
  exists out, w2. unfold runStep4_GenerateImages, bind.
  rewrite Hloop. cbn [app]. rewrite Hsave.
  repeat split; [assumption | congruence].
Qed.

End WithPlatform.

Lemma no_valid_prompt_iff (s : Scene) :
  no_valid_prompt s = true
  <-> prompt s = None \/ prompt s = Some []
      \/ exists p, prompt s = Some p /\ startsWith p failed_prefix = true.
Proof.
  unfold no_valid_prompt. destruct (prompt s) as [[|c p]|]; split.
  - intros _. right. left. reflexivity.
  - intros _. reflexivity.
  - intros H. right. right. exists (c :: p). split; [reflexivity | exact H].
  - intros [H | [H | (q & Hq & Hpre)]]; try discriminate.
    injection Hq as <-. exact Hpre.
  - intros _. left. reflexivity.
  - intros _. reflexivity.
Qed.

Lemma startsWith_app (s t prefix : jsstring) :
  startsWith s prefix = true -> startsWith (s ++ t) prefix = true.
Proof.
  revert s. induction prefix as [|x prefix IH]; intros s H; [reflexivity|].
  destruct s as [|c s]; [discriminate H|].
  simpl in *. apply andb_prop in H. destruct H as [Hc Hs].
  rewrite Hc. apply IH, Hs.
Qed.

(** Completing a prompt with the aspect ratio keeps its beginning. *)
Lemma promptFinal_keeps_prefix (pRaw prefix : jsstring) :
  startsWith pRaw prefix = true ->
  startsWith (Reconciler.promptFinal pRaw) prefix = true.
Proof.
  intros H. unfold Reconciler.promptFinal.
  destruct (Reconciler.ends_with_ratio pRaw); [exact H|].
  destruct (endsWith pRaw (lit ".")); apply startsWith_app, H.
Qed.

End ImageFacts.

(** C10: step 4 decides by the text of the prompt.  A scene is skipped
    exactly when its prompt is null, empty or begins with "Failed to
    generate"; a skipped scene is appended unchanged and no image is
    requested for it, while every other scene gets exactly one request
    and comes back with an image reference or an error marker.  A prompt
    written by the model that begins with the same words is therefore
    skipped too. *)
Theorem step4_skips_by_prefix
        (Ext : Type) (P : Platform Ext) (jobId : jsstring)
        (scenes : list Scene) (w : World Ext) :
  (forall s,
      Pipeline.no_valid_prompt s = true
      <-> prompt s = None \/ prompt s = Some []
          \/ exists p, prompt s = Some p /\ startsWith p failed_prefix = true)
  /\ (exists out w',
        Pipeline.runStep4_GenerateImages P jobId scenes w = (Ok out, w')
        /\ Forall2 image_outcome scenes out
        /\ image_requests w' = image_requests w ++ requested_prompts scenes)
  /\ (forall s pRaw,
        prompt s = Some (Reconciler.promptFinal pRaw) ->
        startsWith pRaw failed_prefix = true ->
        Pipeline.no_valid_prompt s = true).
Proof.
  split; [|split].
  - apply ImageFacts.no_valid_prompt_iff.
  - apply ImageFacts.runStep4_spec.
  - intros s pRaw Hp Hpre. apply ImageFacts.no_valid_prompt_iff.
    right. right. exists (Reconciler.promptFinal pRaw). split; [exact Hp|].
    apply ImageFacts.promptFinal_keeps_prefix, Hpre.
Qed.

Lemma step4_skips_by_prefix_witness :
  Pipeline.no_valid_prompt VideoSamples.scene_b_skipped = true.
Proof.
  apply (proj1 (step4_skips_by_prefix Demo.platform VideoSamples.jobId []
                  (Demo.world VideoSamples.store))).
  right. right.
  exists (lit "Failed to generate prompt for scene 2").
  split; reflexivity.
Defined.

(** The placeholder of step 3 and a prompt of the model that begins the
    same way are both passed over; the other prompts are requested. *)
Example step4_sample :
  let scenes :=
    [ mkScene 1 0 8 (lit "One.") (Some (lit "a quay. 16:9.")) None;
      mkScene 2 8 16 (lit "Two.")
              (Some (lit "Failed to generate prompt for scene 2")) None;
      mkScene 3 16 24 (lit "Three.")
              (Some (lit "Failed to generate hope, a lone gull. 16:9.")) None;
      mkScene 4 24 30 (lit "Four.") None None ] in
  let run := Pipeline.step4_loop Demo.platform scenes []
               (Demo.world (JobSamples.store JobSamples.all_images)) in
  image_requests (snd run) = [lit "a quay. 16:9."]
  /\ match fst run with
     | Ok out =>
         map image_url out
         = [ Some (lit "https://storage.googleapis.com/images/scene_001_100.png");
             None; None; None ]
     | Throw _ => False
     end.
Proof. split; reflexivity. Qed.

(** ** Step 5: the manifest and the working directory *)

Module VideoFacts.

Import Pipeline.

Section WithPlatform.

Variable Ext : Type.
Variable P : Platform Ext.

Ltac run :=
  cbv beta iota zeta delta
      [try_catch try_finally bind call lift downloadGCSFile log_transcode
       ret throw ext dirs image_requests transcodes fst snd].

Lemma filter_has_image_cons (s : Scene) (rest : list Scene) (c : char)
      (u : jsstring) :
  image_url s = Some (c :: u) ->
  filter has_image (s :: rest) = s :: filter has_image rest.
Proof. intros H. simpl. unfold has_image at 1. rewrite H. reflexivity. Qed.

Lemma filter_has_image_skip (s : Scene) (rest : list Scene) :
  has_image s = false ->
  filter has_image (s :: rest) = filter has_image rest.
Proof. intros H. simpl. rewrite H. reflexivity. Qed.

(** With valid references only, the loop lists every scene that has an
    image, in the order of the scene list, and throws nothing. *)
Lemma manifest_loop_valid (Inv : Ext -> Prop) (TEMP_DIR : jsstring)
      (scenes : list Scene) :
  Forall (retrievable P Inv) scenes ->
  forall lines paths last w,
    Inv (ext w) ->
    exists paths' w',
      manifest_loop P TEMP_DIR scenes lines paths last w
      = (Ok (lines ++ manifest_entries P (filter has_image scenes), paths',
             last_listed P last (filter has_image scenes)), w')
      /\ Inv (ext w').
Proof.
  induction 1 as [|s rest Hs _ IH]; intros lines paths last w Hw.
  - exists paths, w. cbn. rewrite app_nil_r. split; [reflexivity | exact Hw].
  - cbn [manifest_loop]. unfold retrievable in Hs.
    destruct (image_url s) as [[|c u]|] eqn:Hurl.
    + rewrite filter_has_image_skip
        by (unfold has_image; rewrite Hurl; reflexivity).
      apply IH, Hw.
    + destruct Hs as (pathname & Hparse & _ & Hget).
      rewrite (@filter_has_image_cons s rest c u Hurl).
      destruct w as [x0 ds reqs ts]. run. rewrite Hparse. run.
      destruct (Hget (path_join P TEMP_DIR (path_basename P pathname)) x0 Hw)
        as (x1 & Hdown & Hx1).
      rewrite Hdown. run.
      match goal with
      | |- context [manifest_loop P TEMP_DIR rest ?l ?p ?o ?w0] =>
          destruct (IH l p o w0 Hx1) as (paths' & w' & Hrun & Hw')
      end.
      exists paths', w'. rewrite Hrun. split; [|exact Hw'].
      assert (Hfile : image_file P s = path_basename P pathname)
        by (unfold image_file; rewrite Hurl, Hparse; reflexivity).
      unfold manifest_entries, last_listed.
      cbn [flat_map fold_left]. rewrite Hfile, <- app_assoc. reflexivity.
    + rewrite filter_has_image_skip
        by (unfold has_image; rewrite Hurl; reflexivity).
      apply IH, Hw.
Qed.

Lemma last_listed_snoc (before : option jsstring) (front : list Scene)
      (l : Scene) :
  last_listed P before (front ++ [l]) = Some (image_file P l).
Proof. unfold last_listed. rewrite fold_left_app. reflexivity. Qed.

Lemma image_file_named (Inv : Ext -> Prop) (scenes : list Scene)
      (s : Scene) :
  Forall (retrievable P Inv) scenes -> In s (filter has_image scenes) ->
  image_file P s <> [].
Proof.
  intros Hall Hin. apply filter_In in Hin. destruct Hin as [Hin Himg].
  rewrite Forall_forall in Hall. specialize (Hall s Hin).
  unfold retrievable in Hall. unfold has_image in Himg. unfold image_file.
  destruct (image_url s) as [[|c u]|]; try discriminate.
  destruct Hall as (pathname & -> & Hname & _). exact Hname.
Qed.

Lemma duration_floor (s : Scene) :
  finite_times s -> Timeline.le MIN_DURATION (scene_duration s).
Proof.
  intros [Hs He]. unfold Timeline.le, scene_duration, MIN_DURATION.
  apply Math_max_floor, sub_finite_not_nan; assumption.
Qed.

(** A scene with a non-empty image reference is never passed over: if
    the loop completes, its file is in the manifest. *)
Lemma manifest_loop_lists (TEMP_DIR : jsstring) (s : Scene)
      (scenes : list Scene) :
  In s scenes -> has_image s = true ->
  forall lines paths last w,
    match manifest_loop P TEMP_DIR scenes lines paths last w with
    | (Ok (lines', _, _), _) => In (FileLine (image_file P s)) lines'
    | (Throw _, _) => True
    end.
Proof.
  assert (Hmono : forall scenes0 x lines paths last w,
             In x lines ->
             match manifest_loop P TEMP_DIR scenes0 lines paths last w with
             | (Ok (lines', _, _), _) => In x lines'
             | (Throw _, _) => True
             end).
  { induction scenes0 as [|s0 rest IH]; intros x lines paths last w Hx.
    - exact Hx.
    - cbn [manifest_loop].
      destruct (image_url s0) as [[|c u]|]; try (apply IH, Hx).
      destruct w as [x0 ds reqs ts]. run.
      destruct (URL_pathname P (c :: u)) as [pathname|e]; run; [|exact I].
      destruct (storage_download P _ _ _ x0) as [[[]|e] x1]; run; [|exact I].
      apply IH. apply in_or_app. left. exact Hx. }
  induction scenes as [|s0 rest IH]; intros Hin Himg lines paths last w.
  - destruct Hin.
  - cbn [manifest_loop]. destruct Hin as [-> | Hin].
    + unfold has_image in Himg. unfold image_file.
      destruct (image_url s) as [[|c u]|]; try discriminate.
      destruct w as [x0 ds reqs ts]. run.
      destruct (URL_pathname P (c :: u)) as [pathname|e]; run; [|exact I].
      destruct (storage_download P _ _ _ x0) as [[[]|e] x1]; run; [|exact I].
      apply Hmono. apply in_or_app. right. left. reflexivity.
    + destruct (image_url s0) as [[|c u]|]; try (apply IH; assumption).
      destruct w as [x0 ds reqs ts]. run.
      destruct (URL_pathname P (c :: u)) as [pathname|e]; run; [|exact I].
      destruct (storage_download P _ _ _ x0) as [[[]|e] x1]; run; [|exact I].
      apply IH; assumption.
Qed.

End WithPlatform.

End VideoFacts.

(** X27: when every image reference in the scene list is valid (it
    parses, names a file and can be fetched), the manifest lists the
    scenes that have an image in the order of the list, one (file,
    duration) pair each, and then the file of the last of them once more
    without a duration.  Each duration is [max(0.05, end - start)], and at
    least 0.05 when the times are finite. *)
Theorem manifest_of_valid_images
        (Ext : Type) (P : Platform Ext) (Inv : Ext -> Prop)
        (TEMP_DIR : jsstring) (scenes front : list Scene) (l : Scene)
        (w : World Ext) :
  Inv (ext w) ->
  Forall (retrievable P Inv) scenes ->
  filter has_image scenes = front ++ [l] ->
  (exists w',
      Pipeline.build_manifest P TEMP_DIR scenes w
      = (Ok (manifest_entries P (front ++ [l]) ++ [FileLine (image_file P l)]),
         w'))
  /\ length (manifest_entries P (front ++ [l])) = (2 * length (front ++ [l]))%nat
  /\ Forall (fun s => Pipeline.scene_duration s
                      = Math_max 0.05
                          (end_time_secs s - start_time_secs s)%float)
            (front ++ [l])
  /\ (Forall finite_times scenes ->
      Forall (fun s => Timeline.le 0.05 (Pipeline.scene_duration s))
             (front ++ [l])).
Proof.
  intros Hw Hvalid Hfilter. repeat split.
  - unfold Pipeline.build_manifest.
    destruct (VideoFacts.manifest_loop_valid TEMP_DIR Hvalid [] [] None w Hw)
      as (paths' & w' & Hrun & _).
    exists w'. unfold bind. rewrite Hrun, Hfilter.
    rewrite VideoFacts.last_listed_snoc. cbn [app].
    unfold Pipeline.close_manifest, ret.
    assert (Hname : image_file P l <> []).
    { apply (VideoFacts.image_file_named (Inv := Inv) (scenes := scenes));
        [assumption|].
      rewrite Hfilter. apply in_or_app. right. left. reflexivity. }
    destruct (image_file P l); [contradiction | reflexivity].
  - unfold manifest_entries. generalize (front ++ [l]).
    induction l0 as [|s rest IH]; simpl; [reflexivity | lia].
  - apply Forall_forall. intros s _. reflexivity.
  - intros Hfin. apply Forall_forall. intros s Hs.
    apply VideoFacts.duration_floor.
    rewrite Forall_forall in Hfin. apply Hfin.
    rewrite <- Hfilter in Hs. apply filter_In in Hs. apply Hs.
Qed.

Lemma manifest_of_valid_images_witness :
  (exists w',
      Pipeline.build_manifest Demo.platform VideoSamples.TEMP_DIR
        [VideoSamples.scene_a; VideoSamples.scene_b_skipped;
         VideoSamples.scene_c]
        (Demo.world VideoSamples.store)
      = (Ok (manifest_entries Demo.platform
               ([VideoSamples.scene_a] ++ [VideoSamples.scene_c])
             ++ [FileLine (image_file Demo.platform VideoSamples.scene_c)]),
         w'))
  /\ length (manifest_entries Demo.platform
               ([VideoSamples.scene_a] ++ [VideoSamples.scene_c]))
     = (2 * length ([VideoSamples.scene_a] ++ [VideoSamples.scene_c]))%nat
  /\ Forall (fun s => Pipeline.scene_duration s
                      = Math_max 0.05
                          (end_time_secs s - start_time_secs s)%float)
            ([VideoSamples.scene_a] ++ [VideoSamples.scene_c])
  /\ (Forall finite_times
             [VideoSamples.scene_a; VideoSamples.scene_b_skipped;
              VideoSamples.scene_c] ->
      Forall (fun s => Timeline.le 0.05 (Pipeline.scene_duration s))
             ([VideoSamples.scene_a] ++ [VideoSamples.scene_c])).
Proof.
  apply (manifest_of_valid_images
           (P := Demo.platform) (Inv := fun x => x = VideoSamples.store)).
  - reflexivity.
  - repeat constructor.
    + exists (lit "/images/scene_001_5.png").
      split; [reflexivity|]. split; [discriminate|].
      intros dest x ->. exists VideoSamples.store.
      split; reflexivity.
    + exists (lit "/images/scene_003_7.png").
      split; [reflexivity|]. split; [discriminate|].
      intros dest x ->. exists VideoSamples.store.
      split; reflexivity.
  - reflexivity.
Defined.

(** The manifest of the sample job and its text. *)
Example manifest_sample :
  fst (Pipeline.build_manifest Demo.platform VideoSamples.TEMP_DIR
         [VideoSamples.scene_a; VideoSamples.scene_b_skipped;
          VideoSamples.scene_c]
         (Demo.world VideoSamples.store))
  = Ok [ FileLine (lit "scene_001_5.png"); DurationLine 8.5;
         FileLine (lit "scene_003_7.png"); DurationLine 8;
         FileLine (lit "scene_003_7.png") ].
Proof. reflexivity. Qed.

Example manifest_sample_text :
  Pipeline.render Demo.platform
    [ FileLine (lit "scene_001_5.png"); DurationLine 8.5;
      FileLine (lit "scene_003_7.png"); DurationLine 8;
      FileLine (lit "scene_003_7.png") ]
  = lit "file 'scene_001_5.png'
duration 8.500
file 'scene_003_7.png'
duration 8.000
file 'scene_003_7.png'
".
Proof. reflexivity. Qed.

(** X22: without any image the manifest is empty: there is no last file to
    repeat. *)
Lemma manifest_without_images
      (Ext : Type) (P : Platform Ext) (TEMP_DIR : jsstring)
      (scenes : list Scene) (w : World Ext) :
  filter has_image scenes = [] ->
  Pipeline.build_manifest P TEMP_DIR scenes w = (Ok [], w).
Proof.
  intros Hnone. unfold Pipeline.build_manifest, bind.
  assert (Hloop : forall lines paths last,
             Pipeline.manifest_loop P TEMP_DIR scenes lines paths last w
             = (Ok (lines, paths, last), w)).
  { induction scenes as [|s rest IH]; intros lines paths last;
      [reflexivity|].
    simpl in Hnone. cbn [Pipeline.manifest_loop].
    destruct (has_image s) eqn:Himg; [discriminate Hnone|].
    unfold has_image in Himg.
    destruct (image_url s) as [[|c u]|]; try discriminate Himg;
      apply IH, Hnone. }
  rewrite Hloop. reflexivity.
Qed.

(** An error marker is a non-empty image reference: the loop treats the
    scene as one that has an image.  When assembly gets as far as the
    manifest, the marker has an entry of its own in it. *)
Theorem error_marker_is_listed
        (Ext : Type) (P : Platform Ext) (TEMP_DIR : jsstring)
        (scenes : list Scene) (s : Scene) (w : World Ext) :
  In s scenes -> error_marked s ->
  match Pipeline.build_manifest P TEMP_DIR scenes w with
  | (Ok manifest, _) => In (FileLine (image_file P s)) manifest
  | (Throw _, _) => True
  end.
Proof.
  intros Hin [msg Hmark].
  assert (Himg : has_image s = true)
    by (unfold has_image; rewrite Hmark; reflexivity).
  pose proof (VideoFacts.manifest_loop_lists P TEMP_DIR s scenes Hin Himg
                [] [] None w) as Hloop.
  unfold Pipeline.build_manifest, bind.
  destruct (Pipeline.manifest_loop P TEMP_DIR scenes [] [] None w)
    as [[[[lines paths] last]|e] w']; [|exact I].
  unfold ret, Pipeline.close_manifest.
  destruct last as [[|c n]|]; try exact Hloop.
  apply in_or_app. left. exact Hloop.
Qed.

Lemma error_marker_is_listed_witness :
  match Pipeline.build_manifest Demo.platform VideoSamples.TEMP_DIR
          [VideoSamples.scene_a; VideoSamples.scene_b_failed;
           VideoSamples.scene_c]
          (Demo.world VideoSamples.store) with
  | (Ok manifest, _) =>
      In (FileLine (image_file Demo.platform VideoSamples.scene_b_failed))
         manifest
  | (Throw _, _) => True
  end.
Proof.
  apply error_marker_is_listed.
  - right. left. reflexivity.
  - exists (lit "Imagen returned no image data."). reflexivity.
Defined.

(** C1 on the code: one scene of the finished job carries an error
    marker.  Assembly does not leave that scene out; it takes the marker
    for a URL, asks the image bucket for the file the marker seems to
    name, and the job is aborted before any manifest reaches the
    transcoder. *)
Theorem assembly_aborts_on_error_marker :
  fst (Pipeline.runStep5_CreateVideo Demo.platform VideoSamples.jobId
         [VideoSamples.scene_a; VideoSamples.scene_b_failed;
          VideoSamples.scene_c]
         VideoSamples.gcsAudioUri (Demo.world VideoSamples.store))
  = Throw (ErrorObj
             (lit "No such object: images/ Imagen returned no image data."))
  /\ transcodes
       (snd (Pipeline.runStep5_CreateVideo Demo.platform VideoSamples.jobId
               [VideoSamples.scene_a; VideoSamples.scene_b_failed;
                VideoSamples.scene_c]
               VideoSamples.gcsAudioUri (Demo.world VideoSamples.store)))
     = [].
Proof. split; reflexivity. Qed.

(** The same job when the second scene has no image reference at all:
    the scene is left out and the video is published. *)
Example assembly_skips_missing_image :
  fst (Pipeline.runStep5_CreateVideo Demo.platform VideoSamples.jobId
         [VideoSamples.scene_a; VideoSamples.scene_b_skipped;
          VideoSamples.scene_c]
         VideoSamples.gcsAudioUri (Demo.world VideoSamples.store))
  = Ok (lit "https://storage.googleapis.com/videos/story_1.mp4")
  /\ transcodes
       (snd (Pipeline.runStep5_CreateVideo Demo.platform VideoSamples.jobId
               [VideoSamples.scene_a; VideoSamples.scene_b_skipped;
                VideoSamples.scene_c]
               VideoSamples.gcsAudioUri (Demo.world VideoSamples.store)))
     = [[ FileLine (lit "scene_001_5.png"); DurationLine 8.5;
          FileLine (lit "scene_003_7.png"); DurationLine 8;
          FileLine (lit "scene_003_7.png") ]].
Proof. split; reflexivity. Qed.

(** ** The working directory and the job boundary *)

Module JobFacts.

Import Pipeline.

Lemma str_eqb_refl (s : jsstring) : str_eqb s s = true.
Proof.
  induction s as [|c s IH]; [reflexivity|].
  simpl. unfold char_eqb. rewrite N.eqb_refl. exact IH.
Qed.

Section WithPlatform.

Variable Ext : Type.
Variable P : Platform Ext.

Lemma bind_ok_inv {A B} (m : M Ext A) (k : A -> M Ext B) (w w' : World Ext)
      (b : B) :
  bind m k w = (Ok b, w') ->
  exists a w1, m w = (Ok a, w1) /\ k a w1 = (Ok b, w').
Proof.
  unfold bind. destruct (m w) as [[a|e] w1]; intros H; [|discriminate H].
  exists a, w1. split; [reflexivity | exact H].
Qed.

Lemma keeps_ret {A} (a : A) : keeps_dirs (ret (Ext := Ext) a).
Proof. intros w. reflexivity. Qed.

Lemma keeps_throw {A} (e : Thrown) : keeps_dirs (throw (Ext := Ext) (A := A) e).
Proof. intros w. reflexivity. Qed.

Lemma keeps_bind {A B} (m : M Ext A) (k : A -> M Ext B) :
  keeps_dirs m -> (forall a, keeps_dirs (k a)) -> keeps_dirs (bind m k).
Proof.
  intros Hm Hk w. unfold bind. specialize (Hm w).
  destruct (m w) as [[a|e] w1]; simpl in Hm.
  - rewrite Hk. exact Hm.
  - exact Hm.
Qed.

Lemma keeps_try_catch {A} (body : M Ext A) (handler : Thrown -> M Ext A) :
  keeps_dirs body -> (forall e, keeps_dirs (handler e)) ->
  keeps_dirs (try_catch body handler).
Proof.
  intros Hb Hh w. unfold try_catch. specialize (Hb w).
  destruct (body w) as [[a|e] w1]; simpl in Hb.
  - exact Hb.
  - rewrite Hh. exact Hb.
Qed.

Lemma keeps_call {A} (f : Ext -> Outcome A * Ext) : keeps_dirs (call f).
Proof. intros w. unfold call. destruct (f (ext w)). reflexivity. Qed.

Lemma keeps_lift {A} (r : Outcome A) : keeps_dirs (lift (Ext := Ext) r).
Proof. intros w. destruct r; reflexivity. Qed.

Lemma keeps_log_transcode (m : list ManifestLine) :
  keeps_dirs (log_transcode (Ext := Ext) m).
Proof. intros w. reflexivity. Qed.

Lemma keeps_manifest_loop (TEMP_DIR : jsstring) (scenes : list Scene) :
  forall lines paths last,
    keeps_dirs (manifest_loop P TEMP_DIR scenes lines paths last).
Proof.
  induction scenes as [|s rest IH]; intros lines paths last.
  - apply keeps_ret.
  - cbn [manifest_loop]. destruct (image_url s) as [[|c u]|]; try apply IH.
    apply keeps_bind; [apply keeps_lift|]. intros pathname.
    apply keeps_bind; [apply keeps_call|]. intros _. apply IH.
Qed.

Lemma keeps_createVideo_body (jobId : jsstring) (scenes : list Scene)
      (gcsAudioUri TEMP_DIR : jsstring) :
  keeps_dirs (createVideo_body P jobId scenes gcsAudioUri TEMP_DIR).
Proof.
  unfold createVideo_body.
  destruct (split_first_slash _) as [audioBucket audioFileName].
  apply keeps_bind; [apply keeps_call|]. intros _.
  apply keeps_bind.
  { unfold build_manifest. apply keeps_bind; [apply keeps_manifest_loop|].
    intros [[lines paths] last]. apply keeps_ret. }
  intros manifest.
  apply keeps_bind; [apply keeps_call|]. intros _.
  apply keeps_bind; [apply keeps_log_transcode|]. intros _.
  apply keeps_bind.
  { unfold run_ffmpeg. apply keeps_try_catch; [apply keeps_call|].
    intros e. apply keeps_throw. }
  intros _.
  apply keeps_bind; [apply keeps_call|]. intros _. apply keeps_ret.
Qed.

Lemma keeps_assertFfmpeg : keeps_dirs (assertFfmpeg P).
Proof.
  unfold assertFfmpeg. destruct (ffmpegBin P); [apply keeps_throw|].
  apply keeps_try_catch; [apply keeps_call|]. intros e. apply keeps_throw.
Qed.

(** The guarded part of step 5: whatever the body does, the directory is
    gone when control leaves, as long as the removal itself succeeds. *)
Lemma guarded_body_removes (jobId : jsstring) (scenes : list Scene)
      (gcsAudioUri TEMP_DIR : jsstring) (w : World Ext) :
  (forall dir x, fst (fs_rm P dir x) = Ok tt) ->
  ~ In TEMP_DIR
       (dirs (snd (try_finally
                     (try_catch
                        (createVideo_body P jobId scenes gcsAudioUri TEMP_DIR)
                        (fun error => throw error))
                     (rm P TEMP_DIR) w))).
Proof.
  intros Hrm. unfold try_finally.
  destruct (try_catch _ _ w) as [r w1]. unfold rm, bind, call.
  specialize (Hrm TEMP_DIR (ext w1)).
  destruct (fs_rm P TEMP_DIR (ext w1)) as [o x]. cbn in Hrm. subst o. cbn.
  intros Hin. apply filter_In in Hin. destruct Hin as [_ Hneq].
  rewrite str_eqb_refl in Hneq. discriminate Hneq.
Qed.

(** Before the guarded part only the creation of the directory touches
    the set of directories. *)
Lemma precondition_dirs (TEMP_DIR : jsstring) (w : World Ext) :
  match bind (assertFfmpeg P) (fun _ => mkdir P TEMP_DIR) w with
  | (Ok _, w1) => dirs w1 = TEMP_DIR :: dirs w
  | (Throw _, w1) => dirs w1 = dirs w
  end.
Proof.
  unfold bind at 1. pose proof (keeps_assertFfmpeg w) as Ha.
  destruct (assertFfmpeg P w) as [[[]|e] w0]; simpl in Ha; [|exact Ha].
  unfold mkdir, bind. pose proof (keeps_call (fs_mkdir P TEMP_DIR) w0) as Hm.
  destruct (call (fs_mkdir P TEMP_DIR) w0) as [[[]|e] w1]; simpl in Hm.
  - cbn. rewrite Hm, Ha. reflexivity.
  - rewrite Hm. exact Ha.
Qed.

(** A video reference returned by step 5 is the public URL of the job's
    video. *)
Lemma runStep5_result (jobId : jsstring) (scenes : list Scene)
      (gcsAudioUri : jsstring) (w w' : World Ext) (v : jsstring) :
  runStep5_CreateVideo P jobId scenes gcsAudioUri w = (Ok v, w') ->
  v = public_url (videoBucketName P) (jobId ++ lit ".mp4").
Proof.
  unfold runStep5_CreateVideo. intros H.
  apply bind_ok_inv in H. destruct H as (_ & w0 & _ & H).
  apply bind_ok_inv in H. destruct H as (_ & w1 & _ & H).
  unfold try_finally in H.
  destruct (try_catch _ _ w1) as [r w2] eqn:Hbody.
  destruct (rm P (temp_dir P jobId) w2) as [[[]|e] w3]; [|discriminate H].
  injection H as -> _.
  unfold try_catch in Hbody.
  destruct (createVideo_body P jobId scenes gcsAudioUri
              (temp_dir P jobId) w1) as [[v'|e] w4] eqn:Hrun;
    [|discriminate Hbody].
  injection Hbody as -> _.
  unfold createVideo_body in Hrun.
  destruct (split_first_slash _) as [audioBucket audioFileName].
  repeat (apply bind_ok_inv in Hrun;
          destruct Hrun as (? & ? & _ & Hrun)).
  injection Hrun as <- _. reflexivity.
Qed.

End WithPlatform.

End JobFacts.

(** C8: provided the removal of a directory does not itself fail, the
    working directory does not exist when step 5 returns or throws, once
    it has been created, whatever the other collaborators do: the download
    may fail, the transcoder may fail, the upload may fail.  When the
    precondition check or the creation fails, the directories are as they
    were, so a directory that did not exist before does not exist after. *)
Theorem workdir_removed
        (Ext : Type) (P : Platform Ext) (jobId : jsstring)
        (scenes : list Scene) (gcsAudioUri : jsstring) (w : World Ext) :
  (forall dir x, fst (fs_rm P dir x) = Ok tt) ->
  let TEMP_DIR := Pipeline.temp_dir P jobId in
  let after :=
    dirs (snd (Pipeline.runStep5_CreateVideo P jobId scenes gcsAudioUri w)) in
  (fst (bind (Pipeline.assertFfmpeg P) (fun _ => mkdir P TEMP_DIR) w) = Ok tt ->
   ~ In TEMP_DIR after)
  /\ (~ In TEMP_DIR (dirs w) -> ~ In TEMP_DIR after).
Proof.
  intros Hrm TEMP_DIR after.
  assert (Hrun :
            Pipeline.runStep5_CreateVideo P jobId scenes gcsAudioUri w
            = bind (bind (Pipeline.assertFfmpeg P) (fun _ => mkdir P TEMP_DIR))
                   (fun _ =>
                      try_finally
                        (try_catch
                           (Pipeline.createVideo_body P jobId scenes
                              gcsAudioUri TEMP_DIR)
                           (fun error => throw error))
                        (rm P TEMP_DIR)) w).
  { unfold Pipeline.runStep5_CreateVideo, bind.
    destruct (Pipeline.assertFfmpeg P w) as [[[]|e] w0]; reflexivity. }
  subst after. rewrite Hrun. clear Hrun.
  pose proof (JobFacts.precondition_dirs P TEMP_DIR w) as Hpre.
  set (pre := bind (Pipeline.assertFfmpeg P) (fun _ => mkdir P TEMP_DIR)) in *.
  unfold bind.
  destruct (pre w) as [[[]|e] w1]; cbn [fst snd].
  - split; intros _; apply JobFacts.guarded_body_removes, Hrm.
  - split; [intros H; discriminate H|].
    rewrite Hpre. intros H. exact H.
Qed.

Lemma workdir_removed_witness :
  ~ In VideoSamples.TEMP_DIR
       (dirs (snd (Pipeline.runStep5_CreateVideo Demo.platform
                     VideoSamples.jobId
                     [VideoSamples.scene_a; VideoSamples.scene_b_failed;
                      VideoSamples.scene_c]
                     VideoSamples.gcsAudioUri
                     (Demo.world VideoSamples.store)))).
Proof.
  apply (proj1 (workdir_removed Demo.platform VideoSamples.jobId
                  [VideoSamples.scene_a; VideoSamples.scene_b_failed;
                   VideoSamples.scene_c]
                  VideoSamples.gcsAudioUri (Demo.world VideoSamples.store)
                  (fun dir x => eq_refl))).
  reflexivity.
Defined.

(** The three exits of the guarded part on the reference platform: the
    video is published, the transcoder fails, a download fails. *)
Example workdir_after_each_exit :
  let run scenes transcoder :=
    Pipeline.runStep5_CreateVideo Demo.platform VideoSamples.jobId scenes
      VideoSamples.gcsAudioUri
      (Demo.world
         (Demo.mkStore (Demo.objects VideoSamples.store) 100 []
                       (Throw NonError) [] transcoder)) in
  let good := [VideoSamples.scene_a; VideoSamples.scene_c] in
  let bad := [VideoSamples.scene_a; VideoSamples.scene_b_failed] in
  (fst (run good true)
   = Ok (lit "https://storage.googleapis.com/videos/story_1.mp4")
   /\ dirs (snd (run good true)) = [])
  /\ (fst (run good false)
      = Throw (ErrorObj (lit "FFmpeg error: ffmpeg exited with code 1"))
      /\ dirs (snd (run good false)) = [])
  /\ (fst (run bad true)
      = Throw (ErrorObj
                 (lit "No such object: images/ Imagen returned no image data."))
      /\ dirs (snd (run bad true)) = []).
Proof. vm_compute. repeat split; reflexivity. Qed.

(** The end-to-end scenarios of the specification on the reference
    platform.  With three images the job publishes its video... *)
Example job_completes :
  match fst (JobSamples.run JobSamples.all_images) with
  | Ok (Pipeline.Storyboard scenes video) =>
      map image_url scenes
      = [ Some (lit "https://storage.googleapis.com/images/scene_001_101.png");
          Some (lit "https://storage.googleapis.com/images/scene_002_102.png");
          Some (lit "https://storage.googleapis.com/images/scene_003_103.png") ]
      /\ map prompt scenes
         = [ Some (lit "a quay. 16:9."); Some (lit "a gull. 16:9.");
             Some (lit "a sail 16:9.") ]
      /\ video = lit "https://storage.googleapis.com/videos/story-1_100.mp4"
  | _ => False
  end.
Proof. vm_compute. repeat split; reflexivity. Qed.

(** ... and when the second image call returns no data, the marker left
    in the second scene makes assembly fail: the job reports a failure,
    no manifest reaches the transcoder and no directory is left. *)
Example job_fails_after_image_failure :
  fst (JobSamples.run JobSamples.second_image_fails)
  = Ok (Pipeline.Failed
          (lit "No such object: images/ Imagen returned no image data."))
  /\ transcodes (snd (JobSamples.run JobSamples.second_image_fails)) = []
  /\ dirs (snd (JobSamples.run JobSamples.second_image_fails)) = [].
Proof. vm_compute. repeat split; reflexivity. Qed.

(** A prompt of the model that begins like the placeholder gets no image,
    and the job goes on without it. *)
Example job_skips_hopeful_prompt :
  let run := Pipeline.generateStoryboard Demo.platform JobSamples.upload
               (Demo.world (JobSamples.store_with JobSamples.reply_hopeful
                                                  JobSamples.all_images)) in
  image_requests (snd run) = [lit "a quay. 16:9."; lit "a sail 16:9."]
  /\ match fst run with
     | Ok (Pipeline.Storyboard scenes _) =>
         map image_url scenes
         = [ Some (lit "https://storage.googleapis.com/images/scene_001_101.png");
             None;
             Some (lit "https://storage.googleapis.com/images/scene_003_102.png") ]
     | _ => False
     end.
Proof. vm_compute. split; reflexivity. Qed.

(** Without an uploaded file the action answers with its own message. *)
Example job_without_file :
  fst (Pipeline.generateStoryboard Demo.platform Pipeline.NoEntry
         (Demo.world (JobSamples.store [])))
  = Ok (Pipeline.Failed (lit "No audio file found.")).
Proof. vm_compute. reflexivity. Qed.

(** * Further properties *)

(** ** Step 2: shape of the scene list *)

Module ChunkFacts.

Import Segmenter.

Lemma last_cons_cons {A} (a b : A) (l : list A) (d : A) :
  last (a :: b :: l) d = last (b :: l) d.
Proof. reflexivity. Qed.

(** What the loop appends: scenes closed on a sentence, then the scene
    closed by the last word; the first of them starts where the buffer
    started. *)
Lemma chunk_loop_shape (ws : list WordInfo) :
  forall w0 scenes currentTokens currentStart,
    ws <> [] ->
    exists front final,
      chunk_loop ws scenes currentTokens currentStart
      = scenes ++ front ++ [final]
      /\ Forall (closed_on_sentence ws) front
      /\ start_time_secs (hd final front) = currentStart
      /\ end_time_secs final = endTime (last ws w0).
Proof.
  induction ws as [|w rest IH]; intros w0 scenes cur start Hne;
    [contradiction|].
  cbn [chunk_loop]. rewrite SegmenterFacts.buffer_nonempty, andb_true_r.
  destruct rest as [|w' rest'].
  - rewrite orb_true_r. cbn [chunk_loop].
    eexists [], _. repeat split. constructor.
  - rewrite orb_false_r.
    assert (Hlift : forall l, Forall (closed_on_sentence (w' :: rest')) l ->
                              Forall (closed_on_sentence (w :: w' :: rest')) l).
    { intros l. apply Forall_impl. intros s (x & Hin & Hx).
      exists x. split; [right; exact Hin | exact Hx]. }
    rewrite last_cons_cons.
    destruct (SENTENCE_END_RE_test (word w)
              && ge (endTime w - start) TARGET_DURATION_SEC) eqn:Hclose.
    + match goal with
      | |- context [chunk_loop (w' :: rest') ?sc ?c ?st] =>
          destruct (IH w0 sc c st) as (front & final & Hrun & Hfront & _ & Hend);
            [discriminate|]
      end.
      rewrite Hrun, <- app_assoc.
      eexists (_ :: front), final. repeat split.
      * constructor; [|apply Hlift, Hfront].
        exists w. apply andb_prop in Hclose. destruct Hclose as [Hre Hge].
        repeat split; [left; reflexivity | exact Hre | exact Hge].
      * exact Hend.
    + destruct (IH w0 scenes (cur ++ [word w]) start)
        as (front & final & Hrun & Hfront & Hstart & Hend); [discriminate|].
      exists front, final. repeat split; try assumption.
      apply Hlift, Hfront.
Qed.

(** Without a sentence end the loop closes one scene only, at the end. *)
Lemma chunk_loop_one_scene (ws : list WordInfo) :
  forall w0 scenes currentTokens currentStart,
    ws <> [] ->
    Forall (fun w => SENTENCE_END_RE_test (word w) = false) ws ->
    chunk_loop ws scenes currentTokens currentStart
    = scenes ++ [mkScene (length scenes + 1) currentStart
                         (endTime (last ws w0))
                         (trim (join (lit " ")
                                     (currentTokens ++ map word ws)))
                         None None].
Proof.
  induction ws as [|w rest IH]; intros w0 scenes cur start Hne Hplain;
    [contradiction|].
  inversion Hplain as [|? ? Hw Hrest]; subst.
  cbn [chunk_loop]. rewrite SegmenterFacts.buffer_nonempty, andb_true_r, Hw.
  cbn [andb orb].
  destruct rest as [|w' rest'].
  - reflexivity.
  - rewrite (IH w0) by (discriminate || assumption).
    rewrite last_cons_cons. cbn [map]. rewrite <- app_assoc. reflexivity.
Qed.

Lemma chunk_loop_numbered (ws : list WordInfo) :
  forall scenes currentTokens currentStart,
    Timeline.numbered_from_one scenes ->
    Timeline.numbered_from_one
      (chunk_loop ws scenes currentTokens currentStart).
Proof.
  induction ws as [|w rest IH]; intros scenes cur start Hn; [exact Hn|].
  cbn [chunk_loop]. destruct (_ && _); apply IH; [|exact Hn].
  apply TimelineFacts.numbered_snoc; [exact Hn | reflexivity].
Qed.

Lemma chunk_loop_bounded (ws : list WordInfo) :
  forall scenes currentTokens currentStart,
    (length (chunk_loop ws scenes currentTokens currentStart)
     <= length scenes + length ws)%nat.
Proof.
  induction ws as [|w rest IH]; intros scenes cur start; simpl; [lia|].
  destruct (_ && _).
  - match goal with
    | |- context [chunk_loop rest ?sc ?c ?st] => specialize (IH sc c st)
    end.
    rewrite length_app in IH. simpl in IH. lia.
  - specialize (IH scenes (cur ++ [word w]) start). lia.
Qed.

Lemma numbered_nil : Timeline.numbered_from_one [].
Proof. intros [|k] s H; discriminate H. Qed.

Lemma chunkScript_numbered (words : list WordInfo) :
  Timeline.numbered_from_one (chunkScript words).
Proof.
  destruct words as [|w0 rest]; [apply numbered_nil|].
  apply chunk_loop_numbered, numbered_nil.
Qed.

End ChunkFacts.

(** X1: every scene but the last was closed on a sentence end, at least seven
    seconds after it began; the first scene begins with the first word and
    the last scene ends with the last word. *)
Theorem chunkScript_shape (w0 : WordInfo) (rest : list WordInfo) :
  exists front final,
    Segmenter.chunkScript (w0 :: rest) = front ++ [final]
    /\ Forall (closed_on_sentence (w0 :: rest)) front
    /\ start_time_secs (hd final front) = startTime w0
    /\ end_time_secs final = endTime (last (w0 :: rest) w0).
Proof.
  destruct (ChunkFacts.chunk_loop_shape (ws := w0 :: rest) w0 [] []
              (startTime w0)) as (front & final & Hrun & H);
    [discriminate|].
  exists front, final. split; [exact Hrun | exact H].
Qed.

(** X2: when no word carries sentence-terminal punctuation, the whole
    timeline is one scene: number 1, from the first start to the last end,
    with all the words in its script. *)
Theorem chunkScript_without_punctuation (w0 : WordInfo)
        (rest : list WordInfo) :
  Forall (fun w => Segmenter.SENTENCE_END_RE_test (word w) = false)
         (w0 :: rest) ->
  Segmenter.chunkScript (w0 :: rest)
  = [mkScene 1 (startTime w0) (endTime (last (w0 :: rest) w0))
             (trim (join (lit " ") (map word (w0 :: rest)))) None None].
Proof.
  intros Hplain. unfold Segmenter.chunkScript.
  rewrite (ChunkFacts.chunk_loop_one_scene (ws := w0 :: rest) w0 [] []
             (startTime w0)) by (discriminate || assumption).
  reflexivity.
Qed.

Lemma chunkScript_without_punctuation_witness :
  Segmenter.chunkScript
    [mkWord (lit "one") 0 4; mkWord (lit "two") 4 9; mkWord (lit "three") 9 12]
  = [mkScene 1 0 12 (lit "one two three") None None].
Proof.
  apply (@chunkScript_without_punctuation
           (mkWord (lit "one") 0 4)
           [mkWord (lit "two") 4 9; mkWord (lit "three") 9 12]).
  repeat constructor.
Defined.

(** X3: whatever the times of the words, scene [k] is numbered [k], and there
    are never more scenes than words. *)
Theorem chunkScript_numbered_and_bounded (words : list WordInfo) :
  Timeline.numbered_from_one (Segmenter.chunkScript words)
  /\ (length (Segmenter.chunkScript words) <= length words)%nat.
Proof.
  split; [apply ChunkFacts.chunkScript_numbered|].
  destruct words as [|w0 rest]; [apply Nat.le_refl|].
  apply (ChunkFacts.chunk_loop_bounded (w0 :: rest) [] [] (startTime w0)).
Qed.

(** ** Map keys *)

Section KeyEquality.

Open Scope float_scope.

Lemma sameValueZero_spec (a b : number) :
  sameValueZero a b = SF_same (Prim2SF a) (Prim2SF b).
Proof. unfold sameValueZero, SF_same, is_nan. rewrite !eqb_spec. reflexivity. Qed.

Lemma SF_same_refl (a : spec_float) : SF_same a a = true.
Proof. unfold SF_same. destruct (SFeqb a a); reflexivity. Qed.

Lemma SF_same_sym (a b : spec_float) : SF_same a b = SF_same b a.
Proof.
  unfold SF_same, SFeqb, SFcompare.
  destruct a as [sa|sa| |sa ma ea], b as [sb|sb| |sb mb eb];
    try destruct sa; try destruct sb; try reflexivity;
    rewrite ?Z.compare_refl, ?Pos.compare_cont_refl, ?Pos.compare_cont_spec;
    cbn [negb andb orb]; try reflexivity.
  all: rewrite (Z.compare_antisym ea eb), (Pos.compare_antisym ma mb);
       destruct (Z.compare ea eb); cbn; try reflexivity;
       destruct (Pos.compare ma mb); reflexivity.
Qed.

Lemma SF_same_trans (a b c : spec_float) :
  SF_same a b = true -> SF_same b c = true -> SF_same a c = true.
Proof.
  unfold SF_same, SFeqb, SFcompare.
  destruct a as [sa|sa| |sa ma ea], b as [sb|sb| |sb mb eb],
           c as [sc|sc| |sc mc ec];
    try destruct sa; try destruct sb; try destruct sc;
    try discriminate; try reflexivity;
    rewrite ?Z.compare_refl, ?Pos.compare_cont_refl, ?Pos.compare_cont_spec;
    cbn [negb andb orb]; rewrite ?orb_false_r;
    try discriminate; try reflexivity.
  all: destruct (Z.compare_spec ea eb), (Z.compare_spec eb ec),
         (Z.compare_spec ea ec); try discriminate; try reflexivity; try lia.
  all: destruct (Pos.compare_spec ma mb), (Pos.compare_spec mb mc),
         (Pos.compare_spec ma mc); cbn;
       try discriminate; try reflexivity; try lia.
Qed.

Lemma sameValueZero_refl (a : number) : sameValueZero a a = true.
Proof. rewrite sameValueZero_spec. apply SF_same_refl. Qed.

Lemma sameValueZero_sym (a b : number) : sameValueZero a b = sameValueZero b a.
Proof. rewrite !sameValueZero_spec. apply SF_same_sym. Qed.

Lemma sameValueZero_trans (a b c : number) :
  sameValueZero a b = true -> sameValueZero b c = true ->
  sameValueZero a c = true.
Proof. rewrite !sameValueZero_spec. apply SF_same_trans. Qed.

End KeyEquality.

(** ** Step 3: prompts and their map *)

Module PromptFacts.

Import Reconciler.

Lemma endsWith_app (s suffix : jsstring) : endsWith (s ++ suffix) suffix = true.
Proof.
  unfold endsWith. rewrite rev_app_distr.
  generalize (rev suffix) (rev s). intros p t.
  induction p as [|c p IH]; [reflexivity|].
  simpl. unfold char_eqb. rewrite N.eqb_refl. exact IH.
Qed.

Lemma promptFinal_marked (pRaw : jsstring) :
  ends_with_ratio (promptFinal pRaw) = true.
Proof.
  unfold promptFinal. destruct (ends_with_ratio pRaw) eqn:E; [exact E|].
  unfold ends_with_ratio.
  destruct (endsWith pRaw (lit ".")).
  - change (pRaw ++ lit " 16:9.") with (pRaw ++ lit " " ++ lit "16:9.").
    rewrite app_assoc, endsWith_app. apply orb_true_r.
  - change (pRaw ++ lit ". 16:9.") with (pRaw ++ lit ". " ++ lit "16:9.").
    rewrite app_assoc, endsWith_app. apply orb_true_r.
Qed.

Lemma promptFinal_nonempty (pRaw : jsstring) : promptFinal pRaw <> [].
Proof.
  unfold promptFinal. destruct (ends_with_ratio pRaw) eqn:E.
  - intros ->. discriminate E.
  - destruct (endsWith pRaw (lit ".")); destruct pRaw; discriminate.
Qed.

Lemma map_set_values (Q : jsstring -> Prop) (m : PromptMap) (k : number)
      (v : jsstring) :
  Forall (fun kv => Q (snd kv)) m -> Q v ->
  Forall (fun kv => Q (snd kv)) (map_set m k v).
Proof.
  intros Hm Hv. induction Hm as [|[k' v'] rest Hkv Hrest IH]; simpl.
  - constructor; [exact Hv | constructor].
  - destruct (sameValueZero k' k); constructor; assumption.
Qed.

Lemma collect_by_id_values (Q : jsstring -> Prop) (records : list JSValue) :
  (forall p, Q (promptFinal p)) ->
  forall m m',
    Forall (fun kv => Q (snd kv)) m ->
    collect_by_id records m = Ok m' ->
    Forall (fun kv => Q (snd kv)) m'.
Proof.
  intros HQ. induction records as [|r rest IH]; intros m m' Hm Hrun;
    simpl in Hrun.
  - injection Hrun as <-. exact Hm.
  - destruct (pRaw_of r) as [pRaw|e]; [|discriminate Hrun].
    destruct (extractSceneId r) as [x|]; [|exact (IH _ _ Hm Hrun)].
    destruct (usable (Some x) pRaw); [|exact (IH _ _ Hm Hrun)].
    eapply IH; [|exact Hrun]. apply map_set_values; [exact Hm | apply HQ].
Qed.

Lemma collect_by_position_values (Q : jsstring -> Prop)
      (records : list JSValue) :
  (forall p, Q (promptFinal p)) ->
  forall idx m m',
    Forall (fun kv => Q (snd kv)) m ->
    collect_by_position records idx m = Ok m' ->
    Forall (fun kv => Q (snd kv)) m'.
Proof.
  intros HQ. induction records as [|r rest IH]; intros idx m m' Hm Hrun;
    simpl in Hrun.
  - injection Hrun as <-. exact Hm.
  - destruct (pRaw_of r) as [[|c p]|e]; [| |discriminate Hrun].
    + exact (IH _ _ _ Hm Hrun).
    + eapply IH; [|exact Hrun]. apply map_set_values; [exact Hm | apply HQ].
Qed.

Lemma buildPromptMap_values (Q : jsstring -> Prop) (records : list JSValue)
      (m : PromptMap) :
  (forall p, Q (promptFinal p)) ->
  buildPromptMap records = Ok m ->
  Forall (fun kv => Q (snd kv)) m.
Proof.
  intros HQ. unfold buildPromptMap.
  destruct (collect_by_id records []) as [m0|e] eqn:Hid; [|discriminate].
  assert (H0 : Forall (fun kv => Q (snd kv)) m0).
  { eapply collect_by_id_values; [exact HQ | | exact Hid]. constructor. }
  destruct (map_size m0 =? 0)%nat.
  - intros Hpos.
    eapply collect_by_position_values; [exact HQ | exact H0 | exact Hpos].
  - intros H. injection H as <-. exact H0.
Qed.

Lemma pRaw_of_throws (r : JSValue) (e : Thrown) :
  pRaw_of r = Throw e -> r = JNull /\ e = null_prompt_error.
Proof.
  unfold pRaw_of. destruct r; simpl;
    try (destruct (assoc _ _) as [[]|]; discriminate);
    try discriminate.
  intros H. injection H as <-. split; reflexivity.
Qed.

Lemma collect_by_id_null (records : list JSValue) :
  In JNull records ->
  forall m, collect_by_id records m = Throw null_prompt_error.
Proof.
  induction records as [|r rest IH]; intros Hin m; [destruct Hin|].
  simpl. destruct (pRaw_of r) as [pRaw|e] eqn:Hp.
  - destruct Hin as [-> | Hin]; [discriminate Hp|].
    destruct (extractSceneId r) as [x|]; [|apply IH, Hin].
    destruct (usable (Some x) pRaw); apply IH, Hin.
  - apply pRaw_of_throws in Hp. destruct Hp as [_ ->]. reflexivity.
Qed.

Lemma collect_by_id_no_null (records : list JSValue) :
  ~ In JNull records -> forall m, exists m', collect_by_id records m = Ok m'.
Proof.
  induction records as [|r rest IH]; intros Hnot m; [exists m; reflexivity|].
  simpl. destruct (pRaw_of r) as [pRaw|e] eqn:Hp.
  - assert (Hrest : ~ In JNull rest) by (intros H; apply Hnot; right; exact H).
    destruct (extractSceneId r) as [x|]; [|apply IH, Hrest].
    destruct (usable (Some x) pRaw); apply IH, Hrest.
  - apply pRaw_of_throws in Hp. destruct Hp as [-> _].
    contradiction Hnot. left. reflexivity.
Qed.

Lemma collect_by_position_no_null (records : list JSValue) :
  ~ In JNull records ->
  forall idx m, exists m', collect_by_position records idx m = Ok m'.
Proof.
  induction records as [|r rest IH]; intros Hnot idx m;
    [exists m; reflexivity|].
  simpl. destruct (pRaw_of r) as [[|c p]|e] eqn:Hp.
  - apply IH. intros H. apply Hnot. right. exact H.
  - apply IH. intros H. apply Hnot. right. exact H.
  - apply pRaw_of_throws in Hp. destruct Hp as [-> _].
    contradiction Hnot. left. reflexivity.
Qed.

Lemma collect_by_id_app (a b : list JSValue) :
  forall m,
    collect_by_id (a ++ b) m
    = match collect_by_id a m with
      | Ok m' => collect_by_id b m'
      | Throw e => Throw e
      end.
Proof.
  induction a as [|r a IH]; intros m; [reflexivity|].
  simpl. destruct (pRaw_of r) as [pRaw|e]; [|reflexivity].
  destruct (extractSceneId r) as [x|]; [|apply IH].
  destruct (usable (Some x) pRaw); apply IH.
Qed.

Lemma map_get_set_same (m : PromptMap) (k : number) (v : jsstring) :
  map_get (map_set m k v) k = Some v.
Proof.
  induction m as [|[k' v'] rest IH]; simpl.
  - rewrite sameValueZero_refl. reflexivity.
  - destruct (sameValueZero k' k) eqn:E; simpl; rewrite E;
      [reflexivity | exact IH].
Qed.

Lemma map_get_set_other (m : PromptMap) (k k2 : number) (v : jsstring) :
  sameValueZero k k2 = false ->
  map_get (map_set m k v) k2 = map_get m k2.
Proof.
  intros Hk. induction m as [|[k' v'] rest IH]; simpl.
  - rewrite Hk. reflexivity.
  - destruct (sameValueZero k' k) eqn:E; simpl.
    + destruct (sameValueZero k' k2) eqn:E2; [|reflexivity].
      rewrite sameValueZero_sym in E.
      rewrite (@sameValueZero_trans k k' k2 E E2) in Hk. discriminate Hk.
    + destruct (sameValueZero k' k2); [reflexivity | exact IH].
Qed.

Lemma applyPrompts_same (m : PromptMap) (scenes : list Scene) :
  Forall2 same_but_prompt scenes (applyPrompts m scenes).
Proof.
  unfold applyPrompts. induction scenes as [|s rest IH]; simpl;
    constructor; [|exact IH].
  repeat split.
Qed.

Lemma applyPrompts_prompted (m : PromptMap) (scenes : list Scene) :
  Forall (fun o => truthy_str (prompt o) = true) (applyPrompts m scenes).
Proof.
  unfold applyPrompts. induction scenes as [|s rest IH]; simpl;
    constructor; [|exact IH].
  cbn [with_prompt prompt].
  destruct (map_get m (of_nat (scene s))) as [[|c p]|]; reflexivity.
Qed.

Lemma placeholder_not_valid (s : Scene) (n : nat) :
  prompt s = Some (placeholder n) -> Pipeline.no_valid_prompt s = true.
Proof.
  intros H. unfold Pipeline.no_valid_prompt. rewrite H. reflexivity.
Qed.

End PromptFacts.

(** X13: a completed prompt is never empty and ends with the aspect-ratio
    marker, with or without a final full stop; completing it again
    changes nothing. *)
Theorem promptFinal_ends_with_ratio (pRaw : jsstring) :
  Reconciler.ends_with_ratio (Reconciler.promptFinal pRaw) = true
  /\ Reconciler.promptFinal pRaw <> []
  /\ Reconciler.promptFinal (Reconciler.promptFinal pRaw)
     = Reconciler.promptFinal pRaw.
Proof.
  split; [apply PromptFacts.promptFinal_marked|].
  split; [apply PromptFacts.promptFinal_nonempty|].
  unfold Reconciler.promptFinal at 1.
  rewrite PromptFacts.promptFinal_marked. reflexivity.
Qed.

(** X14: whichever pass fills it, every prompt in the map is non-empty and
    ends with the aspect-ratio marker. *)
Theorem buildPromptMap_prompts_marked (records : list JSValue)
        (m : Reconciler.PromptMap) :
  Reconciler.buildPromptMap records = Ok m ->
  Forall (fun kv => Reconciler.ends_with_ratio (snd kv) = true
                    /\ snd kv <> []) m.
Proof.
  apply (PromptFacts.buildPromptMap_values
           (fun v => Reconciler.ends_with_ratio v = true /\ v <> [])).
  intros p. split;
    [apply PromptFacts.promptFinal_marked
    | apply PromptFacts.promptFinal_nonempty].
Qed.

Lemma buildPromptMap_prompts_marked_witness :
  Forall (fun kv => Reconciler.ends_with_ratio (snd kv) = true
                    /\ snd kv <> [])
         [ (2%float, lit "two. 16:9."); (1%float, lit "one. 16:9.") ].
Proof.
  apply (@buildPromptMap_prompts_marked
           [ record_with_id (JStr (lit "2")) (lit "two");
             record_with_id (JStr (lit "scene_1")) (lit "one.");
             record_with_id (JStr (lit "x")) (lit "three 16:9") ]).
  reflexivity.
Defined.

(** X15: building the map fails exactly when one of the records is null, and
    then with the TypeError of reading [prompt] of null; records of any
    other shape are tolerated. *)
Theorem buildPromptMap_throws_on_null (records : list JSValue) :
  (In JNull records ->
   Reconciler.buildPromptMap records = Throw null_prompt_error)
  /\ (~ In JNull records ->
      exists m, Reconciler.buildPromptMap records = Ok m).
Proof.
  unfold Reconciler.buildPromptMap. split; intros H.
  - rewrite PromptFacts.collect_by_id_null by exact H. reflexivity.
  - destruct (@PromptFacts.collect_by_id_no_null records H []) as [m0 ->].
    destruct (Reconciler.map_size m0 =? 0)%nat; [|exists m0; reflexivity].
    apply PromptFacts.collect_by_position_no_null, H.
Qed.

Lemma buildPromptMap_throws_on_null_witness :
  Reconciler.buildPromptMap
    [record_with_id (JNum 1) (lit "a quay"); JNull]
  = Throw null_prompt_error.
Proof.
  apply (proj1 (buildPromptMap_throws_on_null
                  [record_with_id (JNum 1) (lit "a quay"); JNull])).
  right. left. reflexivity.
Defined.

(** X16: in the pass by identifier the last usable record for an identifier
    decides: its prompt is what the map holds for that identifier, and the
    entries of all other identifiers are as the earlier records left
    them. *)
Theorem last_record_decides (earlier : list JSValue) (r : JSValue)
        (x : number) (pRaw : jsstring) (m0 m : Reconciler.PromptMap) :
  extractSceneId r = Some x ->
  Reconciler.pRaw_of r = Ok pRaw ->
  Reconciler.usable (Some x) pRaw = true ->
  Reconciler.collect_by_id earlier [] = Ok m0 ->
  Reconciler.collect_by_id (earlier ++ [r]) [] = Ok m ->
  Reconciler.map_get m x = Some (Reconciler.promptFinal pRaw)
  /\ (forall k, sameValueZero x k = false ->
                Reconciler.map_get m k = Reconciler.map_get m0 k).
Proof.
  intros Hid Hp Hus H0 Hrun.
  rewrite PromptFacts.collect_by_id_app, H0 in Hrun.
  simpl in Hrun. rewrite Hp, Hid, Hus in Hrun. injection Hrun as <-.
  split.
  - apply PromptFacts.map_get_set_same.
  - intros k Hk. apply PromptFacts.map_get_set_other, Hk.
Qed.

Lemma last_record_decides_witness :
  Reconciler.map_get
    [ (2%float, lit "later. 16:9."); (1%float, lit "one. 16:9.") ] 2%float
  = Some (Reconciler.promptFinal (lit "later"))
  /\ (forall k, sameValueZero 2%float k = false ->
                Reconciler.map_get
                  [ (2%float, lit "later. 16:9."); (1%float, lit "one. 16:9.") ]
                  k
                = Reconciler.map_get
                    [ (2%float, lit "two. 16:9."); (1%float, lit "one. 16:9.") ]
                    k).
Proof.
  apply (@last_record_decides
           [ record_with_id (JStr (lit "2")) (lit "two");
             record_with_id (JNum 1) (lit "one.") ]
           (record_with_id (JNum 2) (lit "later"))
           2%float (lit "later"));
    reflexivity.
Defined.

(** X17: a payload without a truthy [analysis], or whose [scenes] is not an
    array, is rejected with the malformed-payload error instead of being
    reconciled. *)
Theorem reconcile_rejects_payload (parsed : JSValue) (scenes : list Scene) :
  payload_rejected parsed ->
  Reconciler.reconcile parsed scenes = Throw malformed_payload_error.
Proof.
  unfold payload_rejected, Reconciler.reconcile.
  destruct (prop parsed (lit "analysis")) as [a|]; [|reflexivity].
  intros [Ha | Hs].
  - rewrite Ha. reflexivity.
  - destruct (truthy a); [|reflexivity].
    destruct (prop parsed (lit "scenes")) as [[]|]; try reflexivity.
    contradiction (Hs items). reflexivity.
Qed.

Lemma reconcile_rejects_payload_witness :
  Reconciler.reconcile
    (JObj [(lit "analysis", JObj []); (lit "scenes", JStr (lit "none"))])
    [mkScene 1 0 8 (lit "One.") None None]
  = Throw malformed_payload_error.
Proof.
  apply reconcile_rejects_payload.
  right. intros records H. discriminate H.
Defined.

(** X18: after reconciliation every scene is the scene it was, with a
    non-empty prompt; a scene for which the map has nothing gets the
    placeholder, which step 4 takes for "no prompt". *)
Theorem applyPrompts_fills_every_scene
        (m : Reconciler.PromptMap) (scenes : list Scene) :
  Forall2 same_but_prompt scenes (Reconciler.applyPrompts m scenes)
  /\ Forall (fun o => truthy_str (prompt o) = true)
            (Reconciler.applyPrompts m scenes)
  /\ Forall (fun o => Reconciler.map_get m (of_nat (scene o)) = None ->
                      prompt o = Some (Reconciler.placeholder (scene o))
                      /\ Pipeline.no_valid_prompt o = true)
            (Reconciler.applyPrompts m scenes).
Proof.
  split; [apply PromptFacts.applyPrompts_same|].
  split; [apply PromptFacts.applyPrompts_prompted|].
  unfold Reconciler.applyPrompts. apply Forall_forall. intros o Hin.
  apply in_map_iff in Hin. destruct Hin as (s & <- & _).
  cbn [with_prompt scene]. intros Hnone. rewrite Hnone.
  split; [reflexivity|].
  apply (@PromptFacts.placeholder_not_valid _ (scene s)). reflexivity.
Qed.

(** ** The sanitizer on fenced and plain replies *)

Lemma extractPossibleJSON_fenced_witness :
  Sanitizer.extractPossibleJSON
    (Sanitizer.fence ++ lit "JSON" ++ [10%N] ++ lit " [1, 2] " ++ Sanitizer.fence)
  = trim (lit " [1, 2] ").
Proof.
  apply SanitizerFacts.extractPossibleJSON_fenced.
  - right. split; reflexivity.
  - repeat constructor; discriminate.
  - discriminate.
Defined.

Lemma extractPossibleJSON_plain_witness :
  Sanitizer.extractPossibleJSON (lit "  {} ") = trim (lit "  {} ").
Proof.
  apply SanitizerFacts.extractPossibleJSON_plain.
  repeat constructor; discriminate.
Defined.

Module CommaFacts.

Import Sanitizer.

Lemma plain_quotes_clean (s : jsstring) :
  Forall (fun c => is_smart_quote c = false) (plain_quotes s).
Proof.
  unfold plain_quotes. induction s as [|c s IH]; simpl; constructor;
    [|exact IH].
  destruct (is_smart_quote c) eqn:E; [reflexivity | exact E].
Qed.

Lemma drop_trailing_commas_length (s : jsstring) :
  forall skip, (length (drop_trailing_commas skip s) <= length s)%nat.
Proof.
  induction s as [|c s IH]; intros skip; simpl; [lia|].
  destruct skip as [|k].
  - destruct (c =? 44)%N.
    + destruct (comma_tail s) as [n|].
      * specialize (IH n). lia.
      * simpl. specialize (IH 0%nat). lia.
    + simpl. specialize (IH 0%nat). lia.
  - specialize (IH k). lia.
Qed.

Lemma drop_trailing_commas_id (s : jsstring) :
  Forall (fun c => c <> 44%N) s -> drop_trailing_commas 0 s = s.
Proof.
  induction 1 as [|c s Hc _ IH]; simpl; [reflexivity|].
  destruct (N.eqb_spec c 44); [contradiction|]. rewrite IH. reflexivity.
Qed.

Lemma plain_quotes_id (s : jsstring) :
  Forall (fun c => is_smart_quote c = false) s -> plain_quotes s = s.
Proof.
  unfold plain_quotes. induction 1 as [|c s Hc _ IH]; simpl; [reflexivity|].
  rewrite Hc, IH. reflexivity.
Qed.

End CommaFacts.

(** X11: the cleaned text is never longer than the text, holds no typographic
    quote, and is the text itself when there was neither a comma nor a
    typographic quote in it. *)
Theorem removeTrailingCommas_output (jsonLike : jsstring) :
  (length (Sanitizer.removeTrailingCommas jsonLike) <= length jsonLike)%nat
  /\ Forall (fun c => Sanitizer.is_smart_quote c = false)
            (Sanitizer.removeTrailingCommas jsonLike)
  /\ (Forall (fun c => c <> 44%N /\ Sanitizer.is_smart_quote c = false)
             jsonLike ->
      Sanitizer.removeTrailingCommas jsonLike = jsonLike).
Proof.
  unfold Sanitizer.removeTrailingCommas. split; [|split].
  - unfold Sanitizer.plain_quotes. rewrite length_map.
    apply CommaFacts.drop_trailing_commas_length.
  - apply CommaFacts.plain_quotes_clean.
  - intros H.
    rewrite CommaFacts.drop_trailing_commas_id
      by (eapply Forall_impl; [|exact H]; intros c Hc; apply Hc).
    apply CommaFacts.plain_quotes_id.
    eapply Forall_impl; [|exact H]. intros c Hc. apply Hc.
Qed.

Lemma removeTrailingCommas_output_witness :
  Sanitizer.removeTrailingCommas (lit "[1]") = lit "[1]".
Proof.
  apply (proj2 (proj2 (removeTrailingCommas_output (lit "[1]")))).
  repeat constructor; discriminate.
Defined.

(** X12: a comma that is followed, after any white space, by a closing brace
    or bracket is dropped together with that white space; the brace or
    bracket stays. *)
Theorem removeTrailingCommas_drops_comma
        (ws : jsstring) (c : char) (rest : jsstring) :
  Forall (fun x => isWhiteSpace x = true) ws ->
  Sanitizer.is_closer c = true ->
  Sanitizer.removeTrailingCommas (44%N :: ws ++ c :: rest)
  = c :: Sanitizer.removeTrailingCommas rest.
Proof.
  intros Hws Hc. unfold Sanitizer.removeTrailingCommas.
  rewrite SanitizerFacts.drop_trailing_comma by assumption.
  unfold Sanitizer.plain_quotes. cbn [map].
  assert (Hq : Sanitizer.is_smart_quote c = false).
  { unfold Sanitizer.is_closer in Hc. apply orb_prop in Hc.
    destruct Hc as [Hc|Hc]; apply N.eqb_eq in Hc; subst c; reflexivity. }
  rewrite Hq. reflexivity.
Qed.

Lemma removeTrailingCommas_drops_comma_witness :
  Sanitizer.removeTrailingCommas (44%N :: lit "  " ++ 93%N :: lit " tail")
  = 93%N :: Sanitizer.removeTrailingCommas (lit " tail").
Proof.
  apply removeTrailingCommas_drops_comma.
  - repeat constructor.
  - reflexivity.
Defined.

(** ** Job identifiers *)

Module JobIdFacts.

Import Pipeline.

Lemma single_dashes_tail (c : char) (s : jsstring) :
  single_dashes (c :: s) = true -> single_dashes s = true.
Proof.
  destruct s as [|d s]; [reflexivity|].
  cbn [single_dashes]. intros H. apply andb_prop in H. apply H.
Qed.

Lemma single_dashes_split (a b : jsstring) :
  single_dashes (a ++ 45%N :: 45%N :: b) = false.
Proof.
  induction a as [|c a IH]; [reflexivity|].
  change ((c :: a) ++ 45%N :: 45%N :: b) with (c :: (a ++ 45%N :: 45%N :: b)).
  destruct (a ++ 45%N :: 45%N :: b) as [|d t] eqn:E.
  - destruct a; discriminate E.
  - cbn [single_dashes]. cbn [single_dashes] in IH. rewrite IH.
    apply andb_false_r.
Qed.

Lemma double_dash_found (s : jsstring) :
  single_dashes s = false -> exists a b, s = a ++ 45%N :: 45%N :: b.
Proof.
  induction s as [|c s IH]; [discriminate|].
  destruct s as [|d t]; [discriminate|].
  cbn [single_dashes]. intros H. apply andb_false_iff in H.
  destruct H as [H | H].
  - apply negb_false_iff in H. apply andb_prop in H. destruct H as [Hc Hd].
    apply N.eqb_eq in Hc. apply N.eqb_eq in Hd. subst c d.
    exists [], t. reflexivity.
  - destruct (IH H) as (a & b & E). exists (c :: a), b. rewrite E. reflexivity.
Qed.

Lemma single_dashes_rev (s : jsstring) :
  single_dashes s = true -> single_dashes (rev s) = true.
Proof.
  intros H. destruct (single_dashes (rev s)) eqn:E; [reflexivity|].
  apply double_dash_found in E. destruct E as (a & b & E).
  apply (f_equal (@rev char)) in E. rewrite rev_involutive in E.
  rewrite rev_app_distr in E. cbn [rev] in E.
  rewrite <- !app_assoc in E. cbn [app] in E.
  rewrite E, single_dashes_split in H. discriminate H.
Qed.

Lemma collapse_head (t : jsstring) :
  forall d, exists t', collapse_dashes (d :: t) = d :: t'.
Proof.
  induction t as [|e t IH]; intros d.
  - cbn [collapse_dashes]. destruct (d =? 45)%N; eexists; reflexivity.
  - destruct (N.eqb_spec d 45) as [->|Hd].
    + destruct (N.eqb_spec e 45) as [->|He].
      * change (collapse_dashes (45%N :: 45%N :: t))
          with (collapse_dashes (45%N :: t)).
        apply IH.
      * exists (collapse_dashes (e :: t)).
        change (collapse_dashes (45%N :: e :: t))
          with (if (e =? 45)%N then collapse_dashes (e :: t)
                else 45%N :: collapse_dashes (e :: t)).
        apply N.eqb_neq in He. rewrite He. reflexivity.
    + exists (collapse_dashes (e :: t)).
      change (collapse_dashes (d :: e :: t))
        with (if (d =? 45)%N
              then (if (e =? 45)%N then collapse_dashes (e :: t)
                    else d :: collapse_dashes (e :: t))
              else d :: collapse_dashes (e :: t)).
      apply N.eqb_neq in Hd. rewrite Hd. reflexivity.
Qed.

Lemma single_cons (c : char) (s : jsstring) :
  (c =? 45)%N = false \/ (forall t, s <> 45%N :: t) ->
  single_dashes s = true -> single_dashes (c :: s) = true.
Proof.
  intros Hc Hs. destruct s as [|d t]; [reflexivity|].
  cbn [single_dashes]. cbn [single_dashes] in Hs. rewrite Hs, andb_true_r.
  apply negb_true_iff. destruct Hc as [Hc|Hd]; [rewrite Hc; reflexivity|].
  destruct (N.eqb_spec d 45) as [->|]; [|apply andb_false_r].
  contradiction (Hd t). reflexivity.
Qed.

Lemma collapse_single (s : jsstring) :
  single_dashes (collapse_dashes s) = true.
Proof.
  induction s as [|c s IH]; [reflexivity|].
  assert (Hunfold : collapse_dashes (c :: s)
                    = if (c =? 45)%N then
                        match s with
                        | d :: _ => if (d =? 45)%N then collapse_dashes s
                                    else c :: collapse_dashes s
                        | [] => [c]
                        end
                      else c :: collapse_dashes s) by reflexivity.
  rewrite Hunfold. clear Hunfold.
  destruct (N.eqb_spec c 45) as [->|Hc].
  - destruct s as [|d t]; [reflexivity|].
    destruct (N.eqb_spec d 45) as [->|Hd]; [exact IH|].
    apply single_cons; [|exact IH]. right.
    destruct (collapse_head t d) as [t' ->]. intros t0 E.
    injection E as E _. contradiction.
  - apply single_cons; [|exact IH]. left. apply N.eqb_neq, Hc.
Qed.

Lemma collapse_chars (Q : char -> Prop) (s : jsstring) :
  Forall Q s -> Forall Q (collapse_dashes s).
Proof.
  induction 1 as [|c s Hc Hs IH]; [constructor|].
  assert (Hunfold : collapse_dashes (c :: s)
                    = if (c =? 45)%N then
                        match s with
                        | d :: _ => if (d =? 45)%N then collapse_dashes s
                                    else c :: collapse_dashes s
                        | [] => [c]
                        end
                      else c :: collapse_dashes s) by reflexivity.
  rewrite Hunfold. clear Hunfold.
  destruct (c =? 45)%N.
  - destruct s as [|d t]; [constructor; [exact Hc | constructor]|].
    destruct (d =? 45)%N; [exact IH | constructor; assumption].
  - constructor; assumption.
Qed.

Lemma strip_chars (Q : char -> Prop) (s : jsstring) :
  Forall Q s -> Forall Q (strip_leading_dash s).
Proof.
  intros H. destruct H as [|c s Hc Hs]; [constructor|].
  cbn [strip_leading_dash]. destruct (c =? 45)%N;
    [exact Hs | constructor; assumption].
Qed.

Lemma strip_single (s : jsstring) :
  single_dashes s = true -> single_dashes (strip_leading_dash s) = true.
Proof.
  intros H. destruct s as [|c s]; [reflexivity|].
  cbn [strip_leading_dash]. destruct (c =? 45)%N;
    [exact (single_dashes_tail _ _ H) | exact H].
Qed.

Lemma strip_no_leading (s : jsstring) :
  single_dashes s = true -> forall t, strip_leading_dash s <> 45%N :: t.
Proof.
  intros H t. destruct s as [|c s]; [discriminate|].
  cbn [strip_leading_dash]. destruct (N.eqb_spec c 45) as [->|Hc].
  - intros ->. discriminate H.
  - intros E. injection E as E _. contradiction.
Qed.

Lemma strip_no_trailing (s : jsstring) :
  (forall t, s <> t ++ [45%N]) -> forall t, strip_leading_dash s <> t ++ [45%N].
Proof.
  intros H t. destruct s as [|c s]; [destruct t; discriminate|].
  cbn [strip_leading_dash]. destruct (c =? 45)%N; [|apply H].
  intros ->. apply (H (c :: t)). reflexivity.
Qed.

Lemma rev_no_trailing (s : jsstring) :
  (forall t, s <> 45%N :: t) -> forall t, rev s <> t ++ [45%N].
Proof.
  intros H t E. apply (f_equal (@rev char)) in E.
  rewrite rev_involutive, rev_app_distr in E. apply (H _ E).
Qed.

Lemma rev_no_leading (s : jsstring) :
  (forall t, s <> t ++ [45%N]) -> forall t, rev s <> 45%N :: t.
Proof.
  intros H t E. apply (f_equal (@rev char)) in E.
  rewrite rev_involutive in E. cbn [rev] in E. apply (H _ E).
Qed.

Lemma strip_edge_clean (s : jsstring) :
  Forall (fun c => is_job_char c = true) s ->
  single_dashes s = true ->
  clean_job_id (strip_edge_dashes s).
Proof.
  intros Hchars Hsingle. unfold strip_edge_dashes.
  set (t1 := strip_leading_dash s).
  assert (H1s : single_dashes t1 = true) by apply strip_single, Hsingle.
  assert (H1l : forall t, t1 <> 45%N :: t) by apply strip_no_leading, Hsingle.
  set (t3 := strip_leading_dash (rev t1)).
  assert (H3s : single_dashes t3 = true)
    by apply strip_single, single_dashes_rev, H1s.
  assert (H3l : forall t, t3 <> 45%N :: t)
    by apply strip_no_leading, single_dashes_rev, H1s.
  assert (H3t : forall t, t3 <> t ++ [45%N])
    by apply strip_no_trailing, rev_no_trailing, H1l.
  repeat split.
  - apply Forall_rev, strip_chars, Forall_rev, strip_chars, Hchars.
  - intros a b E.
    pose proof (single_dashes_rev _ H3s) as Hrev.
    rewrite E, single_dashes_split in Hrev. discriminate Hrev.
  - apply rev_no_leading, H3t.
  - apply rev_no_trailing, H3l.
Qed.

Lemma startsWith_literal (pat rest : jsstring) :
  startsWith (pat ++ rest) pat = true.
Proof.
  induction pat as [|c pat IH]; [reflexivity|].
  simpl. unfold char_eqb. rewrite N.eqb_refl. exact IH.
Qed.

Lemma split_first_slash_app (bucket name : jsstring) :
  Forall (fun c => c <> 47%N) bucket ->
  split_first_slash (bucket ++ 47%N :: name) = (bucket, name).
Proof.
  induction 1 as [|c bucket Hc _ IH]; [reflexivity|].
  simpl. destruct (N.eqb_spec c 47); [contradiction|].
  simpl in IH. rewrite IH. reflexivity.
Qed.

End JobIdFacts.

(** X6: whatever the file is called, the stem of the job identifier is made
    of lower-case letters, digits and single dashes, and neither begins
    nor ends with a dash. *)
Theorem getJobId_clean (Ext : Type) (P : Platform Ext) (filename : jsstring) :
  clean_job_id (Pipeline.getJobId P filename).
Proof.
  unfold Pipeline.getJobId. apply JobIdFacts.strip_edge_clean.
  - apply JobIdFacts.collapse_chars.
    apply Forall_forall. intros c Hin. apply in_map_iff in Hin.
    destruct Hin as (x & <- & _). unfold is_job_char.
    destruct (Pipeline.is_lower_alnum x) eqn:E; [rewrite E|]; reflexivity.
  - apply JobIdFacts.collapse_single.
Qed.

(** X8: the audio reference step 1 hands on is read back by step 5 as the
    bucket and the object name it was made of, as long as the bucket name
    has no slash. *)
Theorem audio_uri_round_trip (bucket name : jsstring) :
  Forall (fun c => c <> 47%N) bucket ->
  Pipeline.split_first_slash
    (Pipeline.remove_first (lit "gs://")
                           (lit "gs://" ++ bucket ++ lit "/" ++ name))
  = (bucket, name).
Proof.
  intros Hbucket.
  change (Pipeline.remove_first (lit "gs://")
            (lit "gs://" ++ bucket ++ lit "/" ++ name))
    with (bucket ++ lit "/" ++ name).
  apply JobIdFacts.split_first_slash_app, Hbucket.
Qed.

Lemma audio_uri_round_trip_witness :
  Pipeline.split_first_slash
    (Pipeline.remove_first (lit "gs://")
       (lit "gs://" ++ lit "audio" ++ lit "/" ++ lit "story-1_100.wav"))
  = (lit "audio", lit "story-1_100.wav").
Proof.
  apply audio_uri_round_trip. repeat constructor; discriminate.
Defined.

(** ** Steps 1 to 3 as computations *)

Module StepFacts.

Import Pipeline.

Section WithPlatform.

Variable Ext : Type.
Variable P : Platform Ext.

Lemma world_at_same (w : World Ext) : world_at w (ext w) = w.
Proof. destruct w. reflexivity. Qed.

Lemma call_run {A} (f : Ext -> Outcome A * Ext) (w : World Ext) :
  call f w = (fst (f (ext w)), world_at w (snd (f (ext w)))).
Proof. unfold call, world_at. destruct (f (ext w)). reflexivity. Qed.

Lemma lift_ok_inv {A} (r : Outcome A) (a : A) (w w' : World Ext) :
  lift r w = (Ok a, w') -> r = Ok a /\ w' = w.
Proof.
  destruct r as [a0|e]; cbn; intros H; [|discriminate H].
  injection H as -> ->. split; reflexivity.
Qed.

(** A save that is allowed to fail: the failure is swallowed. *)
Lemma save_quietly_run (bucket filePath content : jsstring) (w : World Ext) :
  exists x, save_quietly P bucket filePath content w = (Ok tt, world_at w x).
Proof.
  unfold save_quietly, try_catch. rewrite call_run.
  destruct (storage_save P bucket filePath content (ext w)) as [[[]|e] x];
    exists x; reflexivity.
Qed.

Lemma runStep2_run (jobId : jsstring) (words : list WordInfo) (w : World Ext) :
  exists x,
    runStep2_ChunkScript P jobId words w
    = (Ok (Segmenter.chunkScript words), world_at w x).
Proof.
  unfold runStep2_ChunkScript. destruct words as [|w0 rest].
  - exists (ext w). unfold ret. rewrite world_at_same. reflexivity.
  - unfold saveChunkedJson, bind.
    destruct (save_quietly_run (chunkedBucketName P) (jobId ++ lit ".json")
                (JSON_stringify_scenes P
                   (Segmenter.chunkScript (w0 :: rest))) w) as [x ->].
    exists x. reflexivity.
Qed.

Lemma runStep1_words (fullJobId : jsstring) (file : File) (w w' : World Ext)
      (words : list WordInfo) (uri : jsstring) :
  runStep1_Transcribe P fullJobId file w = (Ok (words, uri), w') ->
  words <> [].
Proof.
  unfold runStep1_Transcribe. intros H.
  apply JobFacts.bind_ok_inv in H. destruct H as (_ & w1 & _ & H).
  apply JobFacts.bind_ok_inv in H. destruct H as (ws & w2 & _ & H).
  destruct ws as [|w0 rest]; [discriminate H|].
  cbn [length Nat.eqb] in H.
  apply JobFacts.bind_ok_inv in H. destruct H as (_ & w3 & _ & H).
  injection H as <- _ _. discriminate.
Qed.

Lemma runStep3_inv (jobId : jsstring) (scenes : list Scene)
      (fullScript : jsstring) (w w' : World Ext) (out : list Scene) :
  runStep3_AnalyzeAndGeneratePrompts P jobId scenes fullScript w
  = (Ok out, w') ->
  exists promptMap, out = Reconciler.applyPrompts promptMap scenes.
Proof.
  unfold runStep3_AnalyzeAndGeneratePrompts. intros H.
  apply JobFacts.bind_ok_inv in H. destruct H as (result & w1 & _ & H).
  destruct (responseText result) as [[|c text]|];
    try (destruct (blockReason result) as [[|? ?]|]; discriminate H).
  apply JobFacts.bind_ok_inv in H. destruct H as (parsed & w2 & _ & H).
  apply JobFacts.bind_ok_inv in H. destruct H as (updated & w3 & Hrec & H).
  apply JobFacts.bind_ok_inv in H. destruct H as (_ & w4 & _ & H).
  injection H as <- _.
  apply lift_ok_inv in Hrec. destruct Hrec as [Hrec _].
  unfold Reconciler.reconcile in Hrec.
  destruct (prop parsed (lit "analysis")) as [a|]; [|discriminate Hrec].
  destruct (truthy a); [|discriminate Hrec].
  destruct (prop parsed (lit "scenes")) as [[]|]; try discriminate Hrec.
  destruct (Reconciler.buildPromptMap items) as [m|e]; [|discriminate Hrec].
  injection Hrec as <-. exists m. reflexivity.
Qed.

(** The loop body of step 4, with the shape of what it writes. *)
Lemma image_step_shape (s : Scene) (p : jsstring) (w : World Ext) :
  exists u w',
    try_catch (request_image P s p) (image_failed (Ext := Ext) s) w
    = (Ok (with_image_url s (Some u)), w')
    /\ image_ref_written P s u.
Proof.
  destruct w as [x0 ds reqs ts].
  cbv beta iota zeta delta
      [try_catch request_image image_failed bind call log_image_request
       now sleep ret throw ext dirs image_requests transcodes].
  destruct (generateImages P p x0) as [[[[|c b64]|]|e] x];
    cbv beta iota zeta.
  1, 3, 4: eexists; eexists; split; [reflexivity | left; reflexivity].
  destruct (Date_now P x) as [t x1]; cbv beta iota zeta.
  destruct (storage_save P (imageBucketName P) (image_filename s t)
                         (c :: b64) x1) as [[[]|e] x2]; cbv beta iota zeta.
  - eexists; eexists; split; [reflexivity|]. right. exists t. reflexivity.
  - eexists; eexists; split; [reflexivity | left; reflexivity].
Qed.

Lemma step4_loop_shape (scenes : list Scene) :
  forall finalScenes w,
  exists out w',
    step4_loop P scenes finalScenes w = (Ok (finalScenes ++ out), w')
    /\ Forall2 (fun s o =>
                  same_but_image s o
                  /\ (image_url o = image_url s
                      \/ exists u, image_url o = Some u
                                   /\ image_ref_written P s u))
               scenes out.
Proof.
  induction scenes as [|s rest IH]; intros acc w.
  - exists [], w. cbn. rewrite app_nil_r. split; [reflexivity | constructor].
  - cbn [step4_loop].
    assert (Hsame : same_but_image s s /\ (image_url s = image_url s \/
              exists u, image_url s = Some u /\ image_ref_written P s u)).
    { repeat split. left. reflexivity. }
    destruct (no_valid_prompt s).
    + destruct (IH (acc ++ [s]) w) as (out & w' & Hrun & Hout).
      exists (s :: out), w'. rewrite Hrun, <- app_assoc.
      split; [reflexivity | constructor; assumption].
    + destruct (prompt s) as [p|].
      * destruct (image_step_shape s p w) as (u & w1 & Hstep & Hu).
        destruct (IH (acc ++ [with_image_url s (Some u)]) w1)
          as (out & w' & Hrun & Hout).
        exists (with_image_url s (Some u) :: out), w'.
        unfold bind at 1. rewrite Hstep, Hrun, <- app_assoc.
        split; [reflexivity|]. constructor; [|assumption].
        split; [repeat split|]. right. exists u. split; [reflexivity | exact Hu].
      * destruct (IH (acc ++ [s]) w) as (out & w' & Hrun & Hout).
        exists (s :: out), w'. rewrite Hrun, <- app_assoc.
        split; [reflexivity | constructor; assumption].
Qed.

Lemma runStep4_shape (jobId : jsstring) (scenes : list Scene) (w : World Ext) :
  exists out w',
    runStep4_GenerateImages P jobId scenes w = (Ok out, w')
    /\ Forall2 (fun s o =>
                  same_but_image s o
                  /\ (image_url o = image_url s
                      \/ exists u, image_url o = Some u
                                   /\ image_ref_written P s u))
               scenes out.
Proof.
  destruct (step4_loop_shape scenes [] w) as (out & w1 & Hloop & Hout).
  destruct (ImageFacts.saveChunkedJson_quiet P jobId out w1)
    as (w2 & Hsave & _).
  exists out, w2. unfold runStep4_GenerateImages, bind.
  rewrite Hloop. cbn [app]. rewrite Hsave. split; [reflexivity | exact Hout].
Qed.

Lemma same_numbers (R : Scene -> Scene -> Prop) (a b : list Scene) :
  (forall s o, R s o -> scene o = scene s) ->
  Forall2 R a b -> map scene b = map scene a.
Proof.
  intros HR H. induction H as [|s o a b Hso _ IH]; [reflexivity|].
  cbn [map]. rewrite IH, (HR _ _ Hso). reflexivity.
Qed.

Lemma numbered_of_numbers (a b : list Scene) :
  map scene b = map scene a ->
  Timeline.numbered_from_one a -> Timeline.numbered_from_one b.
Proof.
  intros Hmap Hn k o Hk.
  pose proof (map_nth_error scene k b Hk) as Hb. rewrite Hmap in Hb.
  rewrite nth_error_map in Hb.
  destruct (nth_error a k) as [s|] eqn:Ha; [|discriminate Hb].
  injection Hb as Hb. rewrite <- Hb. apply Hn, Ha.
Qed.

End WithPlatform.

End StepFacts.

(** X5: saving the transcript or the scene list never throws: a failed write
    is logged and swallowed, and only the collaborators' state moves. *)
Theorem saves_never_throw
        (Ext : Type) (P : Platform Ext) (jobId script : jsstring)
        (scenes : list Scene) (w : World Ext) :
  (exists x, Pipeline.saveTxtTranscript P jobId script w
             = (Ok tt, world_at w x))
  /\ (exists x, Pipeline.saveChunkedJson P jobId scenes w
                = (Ok tt, world_at w x)).
Proof. split; apply StepFacts.save_quietly_run. Qed.

(** X4: step 2 never throws: it returns the chunked scenes whether or not
    they could be saved. *)
Theorem runStep2_never_throws
        (Ext : Type) (P : Platform Ext) (jobId : jsstring)
        (words : list WordInfo) (w : World Ext) :
  exists x,
    Pipeline.runStep2_ChunkScript P jobId words w
    = (Ok (Segmenter.chunkScript words), world_at w x).
Proof. apply StepFacts.runStep2_run. Qed.

(** X7: step 1 after a successful upload: with no recognized word it throws
    the zero-words error; otherwise it returns the words and the [gs://]
    reference of the uploaded audio, whether or not the transcript could
    be saved. *)
Theorem runStep1_outcome
        (Ext : Type) (P : Platform Ext) (fullJobId : jsstring)
        (file : Pipeline.File) (w : World Ext) (x1 x2 : Ext)
        (words : list WordInfo) :
  storage_save P (audioBucketName P) (audio_object fullJobId file)
               (Pipeline.file_bytes file) (ext w) = (Ok tt, x1) ->
  speech_words P (audio_uri P fullJobId file) x1 = (Ok words, x2) ->
  match words with
  | [] =>
      Pipeline.runStep1_Transcribe P fullJobId file w
      = (Throw zero_words_error, world_at w x2)
  | _ :: _ =>
      exists x3,
        Pipeline.runStep1_Transcribe P fullJobId file w
        = (Ok (words, audio_uri P fullJobId file), world_at w x3)
  end.
Proof.
  unfold audio_uri, audio_object, file_extension.
  destruct w as [x0 ds reqs ts]. cbn [ext]. intros Hup Hwords.
  unfold Pipeline.runStep1_Transcribe, world_at.
  cbv beta iota zeta delta [bind call ext dirs image_requests transcodes].
  unfold jsstring, char in *.
  rewrite Hup. cbv beta iota. rewrite Hwords. cbv beta iota.
  destruct words as [|w0 rest]; [reflexivity|].
  cbn [length Nat.eqb]. cbv beta iota. unfold Pipeline.saveTxtTranscript.
  match goal with
  | |- context [Pipeline.save_quietly P ?b ?f ?c ?w0] =>
      destruct (StepFacts.save_quietly_run P b f c w0) as [x3 Hsave]
  end.
  exists x3. rewrite Hsave. reflexivity.
Qed.

Lemma runStep1_outcome_witness :
  exists x3,
    Pipeline.runStep1_Transcribe Demo.platform (lit "story-1_100")
      (Pipeline.mkFile (lit "Story 1.wav") (lit "audio/wav") (lit "RIFF"))
      (Demo.world (JobSamples.store []))
    = (Ok (JobSamples.heard,
           audio_uri Demo.platform (lit "story-1_100")
             (Pipeline.mkFile (lit "Story 1.wav") (lit "audio/wav")
                              (lit "RIFF"))),
       world_at (Demo.world (JobSamples.store [])) x3).
Proof.
  apply (@runStep1_outcome Demo.Store Demo.platform (lit "story-1_100")
           (Pipeline.mkFile (lit "Story 1.wav") (lit "audio/wav") (lit "RIFF"))
           (Demo.world (JobSamples.store []))
           (Demo.add_object (JobSamples.store []) (lit "audio")
                            (lit "story-1_100.wav"))
           (Demo.add_object (JobSamples.store []) (lit "audio")
                            (lit "story-1_100.wav"))
           JobSamples.heard);
    reflexivity.
Defined.

(** X19: when step 3 returns, every scene is the scene it was given, with a
    non-empty prompt in place of the old one. *)
Theorem runStep3_keeps_scenes
        (Ext : Type) (P : Platform Ext) (jobId : jsstring)
        (scenes : list Scene) (fullScript : jsstring) (w : World Ext) :
  match Pipeline.runStep3_AnalyzeAndGeneratePrompts P jobId scenes
          fullScript w with
  | (Ok out, _) =>
      Forall2 same_but_prompt scenes out
      /\ Forall (fun o => truthy_str (prompt o) = true) out
  | (Throw _, _) => True
  end.
Proof.
  destruct (Pipeline.runStep3_AnalyzeAndGeneratePrompts P jobId scenes
              fullScript w) as [[out|e] w'] eqn:Hrun; [|exact I].
  apply StepFacts.runStep3_inv in Hrun. destruct Hrun as [m ->].
  split; [apply PromptFacts.applyPrompts_same
         | apply PromptFacts.applyPrompts_prompted].
Qed.

(** X20: a reply without text ends step 3 before anything is parsed: with the
    safety error when the reply names a block reason, with the
    empty-response error otherwise; an error of the model call itself is
    passed on unchanged. *)
Theorem runStep3_without_text
        (Ext : Type) (P : Platform Ext) (jobId : jsstring)
        (scenes : list Scene) (fullScript : jsstring) (w : World Ext) :
  match generateContent P (Pipeline.prompt_text fullScript scenes) (ext w) with
  | (Ok r, x) =>
      truthy_str (responseText r) = false ->
      Pipeline.runStep3_AnalyzeAndGeneratePrompts P jobId scenes fullScript w
      = (Throw (empty_reply_error r), world_at w x)
  | (Throw e, x) =>
      Pipeline.runStep3_AnalyzeAndGeneratePrompts P jobId scenes fullScript w
      = (Throw e, world_at w x)
  end.
Proof.
  unfold Pipeline.runStep3_AnalyzeAndGeneratePrompts, bind.
  rewrite StepFacts.call_run.
  destruct (generateContent P (Pipeline.prompt_text fullScript scenes) (ext w))
    as [[r|e] x]; cbn [fst snd]; [|reflexivity].
  intros Hempty. unfold empty_reply_error.
  destruct (responseText r) as [[|c t]|]; try discriminate Hempty;
    destruct (blockReason r) as [[|c' reason]|]; reflexivity.
Qed.

Lemma runStep3_without_text_witness :
  Pipeline.runStep3_AnalyzeAndGeneratePrompts Demo.platform (lit "story_1")
    [mkScene 1 0 8 (lit "One.") None None] (lit "One.")
    (Demo.world (JobSamples.store_with blocked_reply []))
  = (Throw (ErrorObj (lit "Gemini safety blocked the request: SAFETY")),
     Demo.world (JobSamples.store_with blocked_reply [])).
Proof.
  exact (runStep3_without_text Demo.platform (lit "story_1")
           [mkScene 1 0 8 (lit "One.") None None] (lit "One.")
           (Demo.world (JobSamples.store_with blocked_reply []))
           eq_refl).
Defined.

(** X21: step 4 never throws.  It returns one scene per scene, each the scene
    it was apart from the image reference, and an image reference it
    wrote is either the public URL of a file named after the scene in the
    image bucket or a marker that begins with "ERROR: ". *)
Theorem runStep4_keeps_scenes
        (Ext : Type) (P : Platform Ext) (jobId : jsstring)
        (scenes : list Scene) (w : World Ext) :
  exists out w',
    Pipeline.runStep4_GenerateImages P jobId scenes w = (Ok out, w')
    /\ Forall2 (fun s o =>
                  same_but_image s o
                  /\ (image_url o = image_url s
                      \/ exists u, image_url o = Some u
                                   /\ image_ref_written P s u))
               scenes out.
Proof. apply StepFacts.runStep4_shape. Qed.

(** ** Step 5 and the whole job *)

Lemma manifest_without_images_witness :
  Pipeline.build_manifest Demo.platform VideoSamples.TEMP_DIR
    [VideoSamples.scene_b_skipped] (Demo.world VideoSamples.store)
  = (Ok [], Demo.world VideoSamples.store).
Proof. apply manifest_without_images. reflexivity. Defined.

Module TranscodeFacts.

Import Pipeline.

Section WithPlatform.

Variable Ext : Type.
Variable P : Platform Ext.

Lemma quiet_ret {A} (a : A) : keeps_transcodes (ret (Ext := Ext) a).
Proof. intros w. reflexivity. Qed.

Lemma quiet_throw {A} (e : Thrown) :
  keeps_transcodes (throw (Ext := Ext) (A := A) e).
Proof. intros w. reflexivity. Qed.

Lemma quiet_bind {A B} (m : M Ext A) (k : A -> M Ext B) :
  keeps_transcodes m -> (forall a, keeps_transcodes (k a)) ->
  keeps_transcodes (bind m k).
Proof.
  intros Hm Hk w. unfold bind. specialize (Hm w).
  destruct (m w) as [[a|e] w1]; simpl in Hm.
  - rewrite Hk. exact Hm.
  - exact Hm.
Qed.

Lemma quiet_try_catch {A} (body : M Ext A) (handler : Thrown -> M Ext A) :
  keeps_transcodes body -> (forall e, keeps_transcodes (handler e)) ->
  keeps_transcodes (try_catch body handler).
Proof.
  intros Hb Hh w. unfold try_catch. specialize (Hb w).
  destruct (body w) as [[a|e] w1]; simpl in Hb.
  - exact Hb.
  - rewrite Hh. exact Hb.
Qed.

Lemma quiet_call {A} (f : Ext -> Outcome A * Ext) : keeps_transcodes (call f).
Proof. intros w. unfold call. destruct (f (ext w)). reflexivity. Qed.

Lemma quiet_lift {A} (r : Outcome A) : keeps_transcodes (lift (Ext := Ext) r).
Proof. intros w. destruct r; reflexivity. Qed.

Lemma quiet_manifest_loop (TEMP_DIR : jsstring) (scenes : list Scene) :
  forall lines paths last,
    keeps_transcodes (manifest_loop P TEMP_DIR scenes lines paths last).
Proof.
  induction scenes as [|s rest IH]; intros lines paths last.
  - apply quiet_ret.
  - cbn [manifest_loop]. destruct (image_url s) as [[|c u]|]; try apply IH.
    apply quiet_bind; [apply quiet_lift|]. intros pathname.
    apply quiet_bind; [apply quiet_call|]. intros _. apply IH.
Qed.

Lemma quiet_build_manifest (TEMP_DIR : jsstring) (scenes : list Scene) :
  keeps_transcodes (build_manifest P TEMP_DIR scenes).
Proof.
  unfold build_manifest. apply quiet_bind; [apply quiet_manifest_loop|].
  intros [[lines paths] last]. apply quiet_ret.
Qed.

Lemma quiet_assertFfmpeg : keeps_transcodes (assertFfmpeg P).
Proof.
  unfold assertFfmpeg. destruct (ffmpegBin P); [apply quiet_throw|].
  apply quiet_try_catch; [apply quiet_call|]. intros e. apply quiet_throw.
Qed.

Lemma quiet_mkdir (dir : jsstring) : keeps_transcodes (mkdir P dir).
Proof.
  unfold mkdir. apply quiet_bind; [apply quiet_call|].
  intros _ w. reflexivity.
Qed.

Lemma quiet_rm (dir : jsstring) : keeps_transcodes (rm P dir).
Proof.
  unfold rm. apply quiet_bind; [apply quiet_call|].
  intros _ w. reflexivity.
Qed.

(** What follows the hand-over of the manifest. *)
Lemma quiet_after_transcode (a b c d e : jsstring) :
  keeps_transcodes
    (run_ffmpeg P a b c ;;;
     call (storage_upload P (videoBucketName P) d e) ;;;
     ret (public_url (videoBucketName P) e)).
Proof.
  apply quiet_bind.
  { unfold run_ffmpeg. apply quiet_try_catch; [apply quiet_call|].
    intros err. apply quiet_throw. }
  intros _. apply quiet_bind; [apply quiet_call|]. intros _. apply quiet_ret.
Qed.

(** The guarded part hands over at most one manifest, and exactly one
    when it returns. *)
Lemma createVideo_body_once (jobId : jsstring) (scenes : list Scene)
      (gcsAudioUri TEMP_DIR : jsstring) (w : World Ext) :
  match createVideo_body P jobId scenes gcsAudioUri TEMP_DIR w with
  | (Ok _, w') => transcoded_once true w w'
  | (Throw _, w') => transcoded_once false w w'
  end.
Proof.
  unfold createVideo_body.
  destruct (split_first_slash _) as [audioBucket audioFileName].
  unfold bind at 1.
  pose proof (quiet_call (storage_download P audioBucket audioFileName
                            (path_join P TEMP_DIR (lit "audio.wav"))) w) as H1.
  unfold downloadGCSFile.
  destruct (call _ w) as [[[]|e1] w1]; cbn [snd] in H1;
    [|right; split; [reflexivity | exact H1]].
  unfold bind at 1.
  pose proof (quiet_build_manifest TEMP_DIR scenes w1) as H2.
  destruct (build_manifest P TEMP_DIR scenes w1) as [[manifest|e2] w2];
    cbn [snd] in H2; [|right; split; [reflexivity | congruence]].
  unfold bind at 1.
  pose proof (quiet_call (fs_writeFile P (path_join P TEMP_DIR
                                            (lit "inputs.txt"))
                            (render P manifest)) w2) as H3.
  destruct (call _ w2) as [[[]|e3] w3]; cbn [snd] in H3;
    [|right; split; [reflexivity | congruence]].
  unfold bind at 1. unfold log_transcode at 1. cbv beta iota.
  match goal with
  | |- context [bind ?m ?k ?w0] =>
      pose proof (quiet_after_transcode
                    (path_join P TEMP_DIR (lit "inputs.txt"))
                    (path_join P TEMP_DIR (lit "audio.wav"))
                    (path_join P TEMP_DIR (jobId ++ lit ".mp4"))
                    (path_join P TEMP_DIR (jobId ++ lit ".mp4"))
                    (jobId ++ lit ".mp4") w0) as H4;
        destruct (bind m k w0) as [[v|e4] w4]
  end;
    cbn [snd transcodes] in H4; left; exists manifest; congruence.
Qed.

Lemma runStep5_once (jobId : jsstring) (scenes : list Scene)
      (gcsAudioUri : jsstring) (w : World Ext) :
  match runStep5_CreateVideo P jobId scenes gcsAudioUri w with
  | (Ok _, w') => transcoded_once true w w'
  | (Throw _, w') => transcoded_once false w w'
  end.
Proof.
  unfold runStep5_CreateVideo. unfold bind at 1.
  pose proof (quiet_assertFfmpeg w) as H1.
  destruct (assertFfmpeg P w) as [[[]|e1] w1]; cbn [snd] in H1;
    [|right; split; [reflexivity | exact H1]].
  unfold bind at 1.
  pose proof (quiet_mkdir (temp_dir P jobId) w1) as H2.
  destruct (mkdir P (temp_dir P jobId) w1) as [[[]|e2] w2]; cbn [snd] in H2;
    [|right; split; [reflexivity | congruence]].
  unfold try_finally, try_catch.
  pose proof (createVideo_body_once jobId scenes gcsAudioUri
                (temp_dir P jobId) w2) as H3.
  destruct (createVideo_body P jobId scenes gcsAudioUri (temp_dir P jobId) w2)
    as [[v|e3] w3].
  - pose proof (quiet_rm (temp_dir P jobId) w3) as H4.
    destruct (rm P (temp_dir P jobId) w3) as [[[]|e4] w4]; cbn [snd] in H4;
      destruct H3 as [[m Hm] | [Hf _]]; try discriminate Hf;
      left; exists m; congruence.
  - unfold throw.
    pose proof (quiet_rm (temp_dir P jobId) w3) as H4.
    destruct (rm P (temp_dir P jobId) w3) as [[[]|e4] w4]; cbn [snd] in H4;
      (destruct H3 as [[m Hm] | [_ Hsame]];
       [left; exists m; congruence | right; split; [reflexivity|congruence]]).
Qed.

End WithPlatform.

End TranscodeFacts.

(** X23: the transcoder is checked before anything else: with no binary path
    step 5 throws at once and the world is untouched; when the binary
    cannot be accessed it throws the not-found error, and no directory
    has been created. *)
Theorem runStep5_checks_transcoder_first
        (Ext : Type) (P : Platform Ext) (jobId : jsstring)
        (scenes : list Scene) (gcsAudioUri : jsstring) (w : World Ext) :
  match ffmpegBin P with
  | [] =>
      Pipeline.runStep5_CreateVideo P jobId scenes gcsAudioUri w
      = (Throw (ErrorObj (lit "FFmpeg path not resolved")), w)
  | c :: bin =>
      match fs_access P (c :: bin) (ext w) with
      | (Throw _, x) =>
          Pipeline.runStep5_CreateVideo P jobId scenes gcsAudioUri w
          = (Throw (ErrorObj (lit "FFmpeg not found at: " ++ c :: bin)),
             world_at w x)
      | (Ok _, _) => True
      end
  end.
Proof.
  unfold Pipeline.runStep5_CreateVideo, Pipeline.assertFfmpeg, bind.
  destruct (ffmpegBin P) as [|c bin]; [reflexivity|].
  unfold try_catch. rewrite StepFacts.call_run.
  destruct (fs_access P (c :: bin) (ext w)) as [[[]|e] x]; [exact I|].
  reflexivity.
Qed.

(** X24: one run of step 5 hands at most one manifest to the transcoder, and
    exactly one when it returns a video reference. *)
Theorem runStep5_transcodes_once
        (Ext : Type) (P : Platform Ext) (jobId : jsstring)
        (scenes : list Scene) (gcsAudioUri : jsstring) (w : World Ext) :
  match Pipeline.runStep5_CreateVideo P jobId scenes gcsAudioUri w with
  | (Ok _, w') => transcoded_once true w w'
  | (Throw _, w') => transcoded_once false w w'
  end.
Proof. apply TranscodeFacts.runStep5_once. Qed.

(** X25: a storyboard the action returns has at least one scene, and its
    scene [k] is numbered [k]: the numbers given by the chunking survive
    the prompt and image steps. *)
Theorem storyboard_scenes_numbered
        (Ext : Type) (P : Platform Ext) (audioFile : Pipeline.FormEntry)
        (w : World Ext) :
  match Pipeline.generateStoryboard P audioFile w with
  | (Ok (Pipeline.Storyboard scenes _), _) =>
      scenes <> [] /\ Timeline.numbered_from_one scenes
  | _ => True
  end.
Proof.
  unfold Pipeline.generateStoryboard, try_catch.
  match goal with
  | |- context [match ?body w with _ => _ end] =>
      destruct (body w) as [[result|e] w'] eqn:Hbody
  end; [|exact I].
  destruct result as [final video|msg]; [|exact I].
  destruct audioFile as [|[|c s]|file]; try discriminate Hbody.
  unfold Pipeline.storyboard_flow in Hbody.
  apply JobFacts.bind_ok_inv in Hbody. destruct Hbody as (t & w0 & _ & H).
  apply JobFacts.bind_ok_inv in H.
  destruct H as ([words uri] & w1 & H1 & H).
  apply JobFacts.bind_ok_inv in H. destruct H as (chunked & w2 & H2 & H).
  apply JobFacts.bind_ok_inv in H. destruct H as (prompted & w3 & H3 & H).
  apply JobFacts.bind_ok_inv in H. destruct H as (imaged & w4 & H4 & H).
  apply JobFacts.bind_ok_inv in H. destruct H as (v & w5 & _ & H).
  injection H as <- _.
  apply StepFacts.runStep1_words in H1.
  destruct (StepFacts.runStep2_run P
              (Pipeline.getJobId P (Pipeline.file_name file) ++ lit "_"
               ++ N_toString t) words w1) as [x2 Hrun2].
  rewrite Hrun2 in H2. injection H2 as <- _.
  apply StepFacts.runStep3_inv in H3. destruct H3 as [m ->].
  destruct (StepFacts.runStep4_shape P
              (Pipeline.getJobId P (Pipeline.file_name file) ++ lit "_"
               ++ N_toString t)
              (Reconciler.applyPrompts m (Segmenter.chunkScript words)) w3)
    as (out & w4' & Hrun4 & Hout).
  rewrite Hrun4 in H4. injection H4 as <- _.
  assert (Hnum : map scene out = map scene (Segmenter.chunkScript words)).
  { rewrite (StepFacts.same_numbers
               (R := fun s o =>
                       same_but_image s o
                       /\ (image_url o = image_url s
                           \/ exists u, image_url o = Some u
                                        /\ image_ref_written P s u))
               (a := Reconciler.applyPrompts m (Segmenter.chunkScript words)))
      by (try (intros s o [Hs _]; apply Hs); exact Hout).
    apply (StepFacts.same_numbers (R := same_but_prompt));
      [intros s o Hs; apply Hs | apply PromptFacts.applyPrompts_same]. }
  split.
  - intros ->. destruct words as [|w0' rest]; [contradiction|].
    destruct (SegmenterFacts.chunk_loop_length (w0' :: rest) [] []
                (startTime w0')) as [_ Hlt].
    assert (Hlen : length (Segmenter.chunkScript (w0' :: rest)) = 0%nat).
    { rewrite <- (length_map scene), <- Hnum. reflexivity. }
    unfold Segmenter.chunkScript in Hlen.
    specialize (Hlt ltac:(discriminate)). cbn [length] in Hlt. lia.
  - eapply StepFacts.numbered_of_numbers; [exact Hnum|].
    apply ChunkFacts.chunkScript_numbered.
Qed.

Module FlowFacts.

(** Step 1 on a recognizer that reports no word. *)
Lemma runStep1_zero (Ext : Type) (P : Platform Ext) (fullJobId : jsstring)
      (file : Pipeline.File) (w : World Ext) (x1 x2 : Ext) :
  storage_save P (audioBucketName P) (audio_object fullJobId file)
               (Pipeline.file_bytes file) (ext w) = (Ok tt, x1) ->
  speech_words P (audio_uri P fullJobId file) x1 = (Ok [], x2) ->
  Pipeline.runStep1_Transcribe P fullJobId file w
  = (Throw zero_words_error, world_at w x2).
Proof.
  unfold audio_uri, audio_object, file_extension.
  destruct w as [x0 ds reqs ts]. cbn [ext]. intros Hup Hwords.
  unfold Pipeline.runStep1_Transcribe, world_at.
  cbv beta iota zeta delta [bind call ext dirs image_requests transcodes].
  unfold jsstring, char in *.
  rewrite Hup. cbv beta iota. rewrite Hwords. reflexivity.
Qed.

End FlowFacts.

(** X26: when the upload succeeds and the recognizer reports no word, the
    caller gets the zero-words message as the error of the job. *)
Theorem job_without_words
        (Ext : Type) (P : Platform Ext) (file : Pipeline.File)
        (w : World Ext) (t : N) (x0 x1 x2 : Ext) :
  let fullJobId :=
    Pipeline.getJobId P (Pipeline.file_name file) ++ lit "_" ++ N_toString t in
  Date_now P (ext w) = (t, x0) ->
  storage_save P (audioBucketName P) (audio_object fullJobId file)
               (Pipeline.file_bytes file) x0 = (Ok tt, x1) ->
  speech_words P (audio_uri P fullJobId file) x1 = (Ok [], x2) ->
  Pipeline.generateStoryboard P (Pipeline.FileEntry file) w
  = (Ok (Pipeline.Failed (lit "Transcription produced zero words.")),
     world_at w x2).
Proof.
  intros fullJobId Hnow Hup Hwords.
  unfold Pipeline.generateStoryboard, try_catch, Pipeline.storyboard_flow.
  unfold bind at 1. unfold now. rewrite StepFacts.call_run, Hnow.
  cbn [fst snd].
  pose proof (@FlowFacts.runStep1_zero Ext P fullJobId file (world_at w x0)
                x1 x2 Hup Hwords) as Hstep1.
  subst fullJobId.
  unfold bind at 1. rewrite Hstep1. reflexivity.
Qed.

Lemma job_without_words_witness :
  Pipeline.generateStoryboard Demo.platform
    (Pipeline.FileEntry
       (Pipeline.mkFile (lit "Story 1.wav") (lit "audio/wav") (lit "RIFF")))
    (Demo.world (Demo.mkStore [] 100 [] (Throw NonError) [] true))
  = (Ok (Pipeline.Failed (lit "Transcription produced zero words.")),
     world_at (Demo.world (Demo.mkStore [] 100 [] (Throw NonError) [] true))
       (Demo.mkStore [(lit "audio", lit "story-1_100.wav")] 101 []
                     (Throw NonError) [] true)).
Proof.
  apply (@job_without_words Demo.Store Demo.platform
           (Pipeline.mkFile (lit "Story 1.wav") (lit "audio/wav") (lit "RIFF"))
           (Demo.world (Demo.mkStore [] 100 [] (Throw NonError) [] true))
           100%N
           (Demo.mkStore [] 101 [] (Throw NonError) [] true)
           (Demo.mkStore [(lit "audio", lit "story-1_100.wav")] 101 []
                         (Throw NonError) [] true));
    reflexivity.
Defined.

(** ** Integers as numbers *)

Module ExactFacts.

Lemma digits2_size (p : positive) : digits2_pos p = Pos.size p.
Proof. induction p as [p IH|p IH|]; simpl; rewrite ?IH; reflexivity. Qed.

Lemma digits2_bound (m : positive) :
  (Zpos m < 2 ^ 53)%Z -> (Zpos (digits2_pos m) <= 53)%Z.
Proof.
  intros Hm. rewrite digits2_size.
  pose proof (Pos.size_le m) as Hle.
  destruct (Z_le_gt_dec (Zpos (Pos.size m)) 53) as [H|H]; [exact H|].
  exfalso.
  assert (H54 : (2 ^ 54 <= 2 ^ Zpos (Pos.size m))%Z)
    by (apply Z.pow_le_mono_r; lia).
  assert (Hpow : (2 ^ Zpos (Pos.size m) <= Zpos m~0)%Z).
  { rewrite <- Pos2Z.inj_pow. apply Pos2Z.pos_le_pos. exact Hle. }
  change (2 ^ 54)%Z with (2 * 2 ^ 53)%Z in H54.
  rewrite Pos2Z.inj_xO in Hpow. lia.
Qed.

Lemma digits2_iter_xO (d m : positive) :
  digits2_pos (Pos.iter xO m d) = (digits2_pos m + d)%positive.
Proof.
  induction d as [|d IH] using Pos.peano_ind.
  - simpl. lia.
  - rewrite Pos.iter_succ. simpl. rewrite IH. lia.
Qed.

Lemma iter_xO_inj (d m1 m2 : positive) :
  Pos.iter xO m1 d = Pos.iter xO m2 d -> m1 = m2.
Proof.
  induction d as [|d IH] using Pos.peano_ind; intros H.
  - simpl in H. congruence.
  - rewrite !Pos.iter_succ in H. injection H as H. apply IH, H.
Qed.

Lemma binary_round_aux_exact (mz : positive) (ez : Z) :
  Zpos (digits2_pos mz) = 53%Z -> (-1074 <= ez <= 971)%Z ->
  binary_round_aux prec emax false (Zpos mz) ez loc_Exact
  = S754_finite false mz ez.
Proof.
  intros Hd He.
  assert (Hfexp : (fexp prec emax (Zdigits2 (Zpos mz) + ez) - ez = 0)%Z).
  { unfold fexp, emin, prec, emax, Zdigits2. rewrite Hd. lia. }
  unfold binary_round_aux, shr_fexp.
  rewrite Hfexp. cbn [shr shr_record_of_loc shr_m loc_of_shr_record
                      round_nearest_even].
  rewrite Hfexp. cbn [shr shr_record_of_loc shr_m].
  unfold prec, emax.
  destruct (Z.leb_spec ez (1024 - 53)); [reflexivity | lia].
Qed.

Lemma binary_normalize_exact (m : positive) :
  (Zpos m < 2 ^ 53)%Z ->
  binary_normalize prec emax (Zpos m) 0 false
  = S754_finite false (aligned m) (Zpos (digits2_pos m) - 53).
Proof.
  intros Hm. pose proof (@digits2_bound m Hm) as Hd.
  unfold binary_normalize, binary_round, shl_align, aligned.
  assert (Hfexp : fexp prec emax (Zpos (digits2_pos m) + 0)
                  = (Zpos (digits2_pos m) - 53)%Z).
  { unfold fexp, emin, prec, emax. lia. }
  rewrite Hfexp, Z.sub_0_r.
  destruct (Zpos (digits2_pos m) - 53)%Z as [|p|d] eqn:Hdiff; [| lia |].
  - rewrite <- Hdiff at 2. replace (Zpos (digits2_pos m) - 53)%Z with 0%Z.
    apply binary_round_aux_exact; lia.
  - apply binary_round_aux_exact; [|lia].
    rewrite digits2_iter_xO. lia.
Qed.


Lemma aligned_digits (m : positive) :
  (Zpos m < 2 ^ 53)%Z -> Zpos (digits2_pos (aligned m)) = 53%Z.
Proof.
  intros Hm. pose proof (@digits2_bound m Hm) as Hd. unfold aligned.
  destruct (Zpos (digits2_pos m) - 53)%Z as [|p|d] eqn:Hdiff; [lia | lia |].
  rewrite digits2_iter_xO. lia.
Qed.

Lemma Prim2SF_of_Z_pos (m : positive) :
  (Zpos m < 2 ^ 53)%Z ->
  Prim2SF (of_Z (Zpos m))
  = S754_finite false (aligned m) (Zpos (digits2_pos m) - 53).
Proof.
  intros Hm. unfold of_Z. rewrite binary_normalize_exact by exact Hm.
  apply Prim2SF_SF2Prim.
  pose proof (@digits2_bound m Hm) as Hd.
  unfold valid_binary, bounded, canonical_mantissa.
  rewrite (@aligned_digits m Hm).
  unfold fexp, emin, prec, emax.
  apply andb_true_intro. split; [apply Z.eqb_eq | apply Z.leb_le]; lia.
Qed.

Lemma aligned_inj (m1 m2 : positive) :
  digits2_pos m1 = digits2_pos m2 -> aligned m1 = aligned m2 -> m1 = m2.
Proof.
  unfold aligned. intros ->.
  destruct (Zpos (digits2_pos m2) - 53)%Z; [congruence | congruence |].
  apply iter_xO_inj.
Qed.

Lemma SFeqb_finite (m1 m2 : positive) (e1 e2 : Z) :
  SFeqb (S754_finite false m1 e1) (S754_finite false m2 e2) = true ->
  m1 = m2 /\ e1 = e2.
Proof.
  unfold SFeqb, SFcompare.
  destruct (Z.compare_spec e1 e2) as [->| |]; try discriminate.
  change (Pos.compare_cont Eq m1 m2) with (Pos.compare m1 m2).
  destruct (Pos.compare_spec m1 m2) as [->| |]; try discriminate.
  split; reflexivity.
Qed.

Lemma SFeqb_finite_refl (m : positive) (e : Z) :
  SFeqb (S754_finite false m e) (S754_finite false m e) = true.
Proof.
  unfold SFeqb, SFcompare. rewrite Z.compare_refl, Pos.compare_cont_refl.
  reflexivity.
Qed.

(** Integers below 2^53 are exact: two of them are the same map key only
    when they are equal. *)
Lemma of_Z_same (a b : Z) :
  (0 <= a < 2 ^ 53)%Z -> (0 <= b < 2 ^ 53)%Z ->
  sameValueZero (of_Z a) (of_Z b) = true -> a = b.
Proof.
  intros Ha Hb. unfold sameValueZero, is_nan. rewrite !eqb_spec.
  destruct a as [|ma|ma], b as [|mb|mb]; try lia; try reflexivity.
  - rewrite (@Prim2SF_of_Z_pos mb) by lia.
    change (Prim2SF (of_Z 0)) with (S754_zero false).
    intros H. cbn in H. discriminate H.
  - rewrite (@Prim2SF_of_Z_pos ma) by lia.
    change (Prim2SF (of_Z 0)) with (S754_zero false).
    rewrite SFeqb_finite_refl. intros H. cbn in H. discriminate H.
  - rewrite (@Prim2SF_of_Z_pos ma), (@Prim2SF_of_Z_pos mb) by lia.
    rewrite !SFeqb_finite_refl. cbn [negb andb]. rewrite orb_false_r.
    intros H. apply SFeqb_finite in H. destruct H as [Hm He].
    f_equal. apply aligned_inj; [|exact Hm].
    assert (Zpos (digits2_pos ma) = Zpos (digits2_pos mb)) by lia.
    congruence.
Qed.

Lemma of_nat_same (i j : nat) :
  (Z.of_nat i < 2 ^ 53)%Z -> (Z.of_nat j < 2 ^ 53)%Z ->
  sameValueZero (of_nat i) (of_nat j) = true -> i = j.
Proof.
  intros Hi Hj H. apply Nat2Z.inj. apply of_Z_same; [lia | lia | exact H].
Qed.

End ExactFacts.

(** ** Step 3: which record goes to which scene *)

Module PositionFacts.

Import Reconciler.

Lemma sameValueZero_left (a b k : number) :
  sameValueZero a b = true -> sameValueZero a k = sameValueZero b k.
Proof.
  intros Hab.
  destruct (sameValueZero b k) eqn:Hbk.
  - apply (@sameValueZero_trans a b k Hab Hbk).
  - destruct (sameValueZero a k) eqn:Hak; [|reflexivity].
    rewrite sameValueZero_sym in Hab.
    rewrite (@sameValueZero_trans b a k Hab Hak) in Hbk. discriminate Hbk.
Qed.

(** [Map.get] after [Map.set]. *)
Lemma map_get_set (m : PromptMap) (k0 k : number) (v0 : jsstring) :
  map_get (map_set m k0 v0) k
  = if sameValueZero k0 k then Some v0 else map_get m k.
Proof.
  induction m as [|[k' v'] rest IH]; simpl; [reflexivity|].
  destruct (sameValueZero k' k0) eqn:E; simpl.
  - rewrite (@sameValueZero_left k' k0 k E).
    destruct (sameValueZero k0 k); reflexivity.
  - destruct (sameValueZero k' k) eqn:E2; [|exact IH].
    destruct (sameValueZero k0 k) eqn:E3; [|reflexivity].
    rewrite sameValueZero_sym in E3.
    rewrite (@sameValueZero_trans k' k k0 E2 E3) in E. discriminate E.
Qed.

Lemma positional_prompt_cons (r : JSValue) (rest : list JSValue) (n : nat) :
  positional_prompt (r :: rest) (S (S n)) = positional_prompt rest (S n).
Proof. reflexivity. Qed.

(** What the positional pass leaves under an integer key: the prompt of
    the record at that position, or what was there before. *)
Lemma collect_by_position_get (records : list JSValue) :
  forall idx m0 m,
    collect_by_position records idx m0 = Ok m ->
    (Z.of_nat (idx + length records) < 2 ^ 53)%Z ->
    forall j,
      (Z.of_nat j < 2 ^ 53)%Z ->
      map_get m (of_nat j)
      = match positional_prompt records (j - idx) with
        | Some v => Some v
        | None => map_get m0 (of_nat j)
        end.
Proof.
  induction records as [|r rest IH]; intros idx m0 m Hrun Hlen j Hj.
  - injection Hrun as <-. destruct (j - idx)%nat as [|[|n]]; reflexivity.
  - cbn [collect_by_position] in Hrun. cbn [length] in Hlen.
    destruct (pRaw_of r) as [pRaw|e] eqn:Hp; [|discriminate Hrun].
    assert (Hother : j <> S idx ->
                     sameValueZero (of_nat (idx + 1)) (of_nat j) = false).
    { intros Hne. destruct (sameValueZero _ _) eqn:E; [|reflexivity].
      apply ExactFacts.of_nat_same in E; lia. }
    assert (Hrest : (Z.of_nat (S idx + length rest) < 2 ^ 53)%Z) by lia.
    destruct (Nat.lt_trichotomy j (S idx)) as [Hlt | [-> | Hgt]].
    + replace (j - idx)%nat with 0%nat by lia. cbn [positional_prompt].
      destruct pRaw as [|c p].
      * rewrite (IH _ _ _ Hrun Hrest j Hj).
        replace (j - S idx)%nat with 0%nat by lia. reflexivity.
      * rewrite (IH _ _ _ Hrun Hrest j Hj).
        replace (j - S idx)%nat with 0%nat by lia. cbn [positional_prompt].
        rewrite map_get_set, Hother by lia. reflexivity.
    + replace (S idx - idx)%nat with 1%nat by lia.
      cbn [positional_prompt nth_error]. rewrite Hp.
      destruct pRaw as [|c p].
      * rewrite (IH _ _ _ Hrun Hrest (S idx) Hj).
        rewrite Nat.sub_diag. reflexivity.
      * rewrite (IH _ _ _ Hrun Hrest (S idx) Hj).
        rewrite Nat.sub_diag. cbn [positional_prompt].
        rewrite map_get_set. rewrite Nat.add_1_r.
        rewrite sameValueZero_refl. reflexivity.
    + replace (j - idx)%nat with (S (S (j - S (S idx)))) by lia.
      rewrite positional_prompt_cons.
      replace (S (j - S (S idx))) with (j - S idx)%nat by lia.
      destruct pRaw as [|c p].
      * exact (IH _ _ _ Hrun Hrest j Hj).
      * rewrite (IH _ _ _ Hrun Hrest j Hj).
        rewrite map_get_set, Hother by lia. reflexivity.
Qed.

(** Every key of the positional pass is a position. *)
Lemma collect_by_position_keys (records : list JSValue) :
  forall idx m0 m k v,
    collect_by_position records idx m0 = Ok m ->
    map_get m k = Some v ->
    (exists n, (1 <= n <= length records)%nat
               /\ sameValueZero (of_nat (idx + n)) k = true)
    \/ map_get m0 k = Some v.
Proof.
  induction records as [|r rest IH]; intros idx m0 m k v Hrun Hget.
  - injection Hrun as <-. right. exact Hget.
  - cbn [collect_by_position] in Hrun.
    destruct (pRaw_of r) as [pRaw|e]; [|discriminate Hrun].
    assert (Hshift : forall m1,
               collect_by_position rest (S idx) m1 = Ok m ->
               (exists n, (1 <= n <= length (r :: rest))%nat
                          /\ sameValueZero (of_nat (idx + n)) k = true)
               \/ map_get m1 k = Some v).
    { intros m1 Hrun1.
      destruct (IH _ _ _ _ _ Hrun1 Hget) as [(n & Hn & Hk) | Hm1];
        [left | right; exact Hm1].
      exists (S n). split; [cbn [length]; lia|].
      replace (idx + S n)%nat with (S idx + n)%nat by lia. exact Hk. }
    destruct pRaw as [|c p]; [exact (Hshift _ Hrun)|].
    destruct (Hshift _ Hrun) as [Hpos | Hm1]; [left; exact Hpos|].
    rewrite map_get_set in Hm1.
    destruct (sameValueZero (of_nat (idx + 1)) k) eqn:E;
      [|right; exact Hm1].
    left. exists 1%nat. split; [cbn [length]; lia | exact E].
Qed.

Lemma map_get_key (m : PromptMap) (k k2 : number) :
  sameValueZero k k2 = true -> map_get m k = map_get m k2.
Proof.
  intros Hk. induction m as [|[k' v'] rest IH]; simpl; [reflexivity|].
  rewrite IH.
  assert (Heq : sameValueZero k' k = sameValueZero k' k2).
  { rewrite (sameValueZero_sym k' k), (sameValueZero_sym k' k2).
    apply sameValueZero_left, Hk. }
  rewrite Heq. reflexivity.
Qed.

(** Every entry of the pass by identifier comes from a record that has
    both a truthy identifier and a non-empty prompt. *)
Lemma collect_by_id_entries (records : list JSValue) :
  forall m0 m k v,
    collect_by_id records m0 = Ok m ->
    map_get m k = Some v ->
    (exists r x p,
        In r records /\ extractSceneId r = Some x /\ pRaw_of r = Ok p
        /\ usable (Some x) p = true /\ sameValueZero x k = true
        /\ v = promptFinal p)
    \/ map_get m0 k = Some v.
Proof.
  induction records as [|r rest IH]; intros m0 m k v Hrun Hget.
  - injection Hrun as <-. right. exact Hget.
  - cbn [collect_by_id] in Hrun.
    destruct (pRaw_of r) as [pRaw|e] eqn:Hp; [|discriminate Hrun].
    assert (Hshift : forall m1,
               collect_by_id rest m1 = Ok m ->
               (exists r0 x p,
                   In r0 (r :: rest) /\ extractSceneId r0 = Some x
                   /\ pRaw_of r0 = Ok p /\ usable (Some x) p = true
                   /\ sameValueZero x k = true /\ v = promptFinal p)
               \/ map_get m1 k = Some v).
    { intros m1 Hrun1.
      destruct (IH _ _ _ _ Hrun1 Hget) as [(r0 & x & p & Hin & H) | Hm1];
        [left | right; exact Hm1].
      exists r0, x, p. split; [right; exact Hin | exact H]. }
    destruct (extractSceneId r) as [x|] eqn:Hid; [|exact (Hshift _ Hrun)].
    destruct (usable (Some x) pRaw) eqn:Hu; [|exact (Hshift _ Hrun)].
    destruct (Hshift _ Hrun) as [Hrec | Hm1]; [left; exact Hrec|].
    rewrite map_get_set in Hm1.
    destruct (sameValueZero x k) eqn:E; [|right; exact Hm1].
    left. exists r, x, pRaw. injection Hm1 as <-.
    repeat split; try assumption. left. reflexivity.
Qed.

End PositionFacts.

(** C5, as the code has it: the positional assignment is used exactly
    when the pass by identifier stored nothing, that is when no record has
    both a truthy identifier and a non-empty trimmed prompt.  As soon as
    one record has both, the map built by identifier is the result, and
    each of its entries comes from such a record.  The positional
    assignment looks at the prompts only, not at the identifier fields:
    scene number [n] gets the completed prompt of the [n]-th record,
    counting from one, when that prompt is not empty, and nothing else is
    stored.  A response array has fewer than 2^32 records. *)
Theorem buildPromptMap_fallback (records : list JSValue) :
  (Forall (fun r => usable_record r = false) records ->
   Reconciler.buildPromptMap records
   = Reconciler.collect_by_position records 0 [])
  /\ (Exists (fun r => usable_record r = true) records ->
      Reconciler.buildPromptMap records
      = Reconciler.collect_by_id records [])
  /\ (forall others,
        map Reconciler.pRaw_of records = map Reconciler.pRaw_of others ->
        Reconciler.collect_by_position records 0 []
        = Reconciler.collect_by_position others 0 [])
  /\ (Forall (fun r => usable_record r = false) records ->
      (Z.of_nat (length records) < 2 ^ 32)%Z ->
      forall m,
        Reconciler.buildPromptMap records = Ok m ->
        (forall n, (Z.of_nat n < 2 ^ 53)%Z ->
                   Reconciler.map_get m (of_nat n)
                   = positional_prompt records n)
        /\ (forall k v,
              Reconciler.map_get m k = Some v ->
              exists n, (1 <= n <= length records)%nat
                        /\ sameValueZero (of_nat n) k = true
                        /\ positional_prompt records n = Some v)
        /\ (forall scenes,
              Forall (fun s => (Z.of_nat (scene s) < 2 ^ 53)%Z) scenes ->
              map prompt (Reconciler.applyPrompts m scenes)
              = map (positional_scene_prompt records) scenes))
  /\ (Exists (fun r => usable_record r = true) records ->
      forall m k v,
        Reconciler.buildPromptMap records = Ok m ->
        Reconciler.map_get m k = Some v ->
        exists r x p,
          In r records /\ extractSceneId r = Some x
          /\ Reconciler.pRaw_of r = Ok p
          /\ Reconciler.usable (Some x) p = true
          /\ sameValueZero x k = true
          /\ v = Reconciler.promptFinal p).
Proof.
  assert (Hfallback :
            Forall (fun r => usable_record r = false) records ->
            Reconciler.buildPromptMap records
            = Reconciler.collect_by_position records 0 []).
  { intros H. unfold Reconciler.buildPromptMap.
    destruct (ReconcilerFacts.collect_by_id_unusable H [])
      as [Hok | (e & He & Hpos)].
    - rewrite Hok. reflexivity.
    - rewrite He, Hpos. reflexivity. }
  assert (Hbyid :
            Exists (fun r => usable_record r = true) records ->
            Reconciler.buildPromptMap records
            = Reconciler.collect_by_id records []).
  { intros H. unfold Reconciler.buildPromptMap.
    pose proof (ReconcilerFacts.collect_by_id_usable H []) as Hne.
    destruct (Reconciler.collect_by_id records []) as [m|e]; [|reflexivity].
    destruct m; [contradiction Hne; reflexivity | reflexivity]. }
  split; [exact Hfallback|]. split; [exact Hbyid|]. split; [|split].
  - intros others Hmap.
    apply ReconcilerFacts.collect_by_position_ignores_ids, Hmap.
  - intros Hnone Hlen m Hrun. rewrite (Hfallback Hnone) in Hrun.
    assert (Hget : forall n, (Z.of_nat n < 2 ^ 53)%Z ->
                             Reconciler.map_get m (of_nat n)
                             = positional_prompt records n).
    { intros n Hn.
      rewrite (@PositionFacts.collect_by_position_get records 0 [] m Hrun)
        by (cbn [Nat.add]; lia).
      rewrite Nat.sub_0_r. cbn [Reconciler.map_get].
      destruct (positional_prompt records n); reflexivity. }
    split; [exact Hget|]. split.
    + intros k v Hk.
      destruct (@PositionFacts.collect_by_position_keys records 0 [] m k v
                  Hrun Hk) as [(n & Hn & Hsame) | Hnil];
        [|discriminate Hnil].
      cbn [Nat.add] in Hsame. exists n. split; [exact Hn|].
      split; [exact Hsame|].
      rewrite <- Hget by lia.
      rewrite (@PositionFacts.map_get_key m (of_nat n) k Hsame). exact Hk.
    + intros scenes Hscenes. unfold Reconciler.applyPrompts.
      rewrite map_map. apply map_ext_in. intros s Hs.
      rewrite Forall_forall in Hscenes.
      unfold positional_scene_prompt.
      rewrite <- (Hget (scene s) (Hscenes s Hs)).
      destruct s as [n st en sc pr im]. cbn [scene prompt with_prompt].
      destruct (Reconciler.map_get m (of_nat n)) as [[|c p]|] eqn:E;
        try reflexivity.
      rewrite (Hget n (Hscenes _ Hs)) in E.
      destruct n as [|i]; [discriminate E|]. cbn [positional_prompt] in E.
      destruct (nth_error records i) as [r|]; [|discriminate E].
      destruct (Reconciler.pRaw_of r) as [[|c p]|e]; try discriminate E.
      injection E as E. exfalso.
      exact (@PromptFacts.promptFinal_nonempty (c :: p) E).
  - intros Hsome m k v Hrun Hk. rewrite (Hbyid Hsome) in Hrun.
    destruct (@PositionFacts.collect_by_id_entries records [] m k v Hrun Hk)
      as [Hrec | Hnil]; [exact Hrec | discriminate Hnil].
Qed.

Lemma buildPromptMap_fallback_witness :
  exists m,
    Reconciler.buildPromptMap
      [ record_with_id (JStr (lit "x")) (lit "a harbour");
        record_with_id (JNum 0) (lit "a storm") ]
    = Ok m
    /\ Reconciler.map_get m (of_nat 1) = Some (lit "a harbour. 16:9.")
    /\ Reconciler.map_get m (of_nat 2) = Some (lit "a storm. 16:9.")
    /\ Reconciler.map_get m (of_nat 3) = None.
Proof.
  exists [ (of_nat 1, lit "a harbour. 16:9.");
           (of_nat 2, lit "a storm. 16:9.") ].
  split; [reflexivity|].
  destruct (proj1 (proj2 (proj2 (proj2
              (buildPromptMap_fallback
                 [ record_with_id (JStr (lit "x")) (lit "a harbour");
                   record_with_id (JNum 0) (lit "a storm") ]))))
              ltac:(repeat constructor) ltac:(cbn; lia)
              [ (of_nat 1, lit "a harbour. 16:9.");
                (of_nat 2, lit "a storm. 16:9.") ]
              eq_refl) as [Hget _].
  split; [|split].
  - exact (Hget 1%nat ltac:(cbn; lia)).
  - exact (Hget 2%nat ltac:(cbn; lia)).
  - exact (Hget 3%nat ltac:(cbn; lia)).
Defined.

(** ** The tolerant parser: what the repair does to a text *)

Module RepairFacts.

Import Sanitizer.

Lemma smart_quote_spec (c : char) :
  is_smart_quote c = true <-> typographic_quote c.
Proof.
  unfold is_smart_quote, typographic_quote. cbn [In].
  rewrite !orb_true_iff, !N.eqb_eq. intuition congruence.
Qed.

Lemma closer_spec (c : char) : is_closer c = true <-> closing c.
Proof.
  unfold is_closer, closing. rewrite orb_true_iff, !N.eqb_eq. reflexivity.
Qed.

Lemma quote_not_comma (c : char) : typographic_quote c -> (c =? 44)%N = false.
Proof.
  unfold typographic_quote. cbn [In].
  intros [<-|[<-|[<-|[<-|[]]]]]; reflexivity.
Qed.

Lemma comma_tail_inv (s : jsstring) :
  forall n, comma_tail s = Some n ->
    exists ws c rest,
      s = ws ++ c :: rest /\ length ws = n
      /\ Forall (fun x => isWhiteSpace x = true) ws /\ is_closer c = true.
Proof.
  induction s as [|c s IH]; intros n H; [discriminate H|].
  cbn [comma_tail] in H. destruct (isWhiteSpace c) eqn:Hw.
  - destruct (comma_tail s) as [k|]; [|discriminate H].
    injection H as <-.
    destruct (IH k eq_refl) as (ws & c' & rest & -> & Hlen & Hws & Hc).
    exists (c :: ws), c', rest. cbn [length app]. rewrite Hlen.
    repeat split; try assumption. constructor; assumption.
  - destruct (is_closer c) eqn:Hc; [|discriminate H]. injection H as <-.
    exists [], c, s. repeat split; [constructor | exact Hc].
Qed.

Lemma trailing_comma_tail (s : jsstring) :
  trailing_comma (44%N :: s) <-> comma_tail s <> None.
Proof.
  split.
  - intros (ws & c & rest & Heq & Hws & Hc). injection Heq as ->.
    pose proof (@SanitizerFacts.comma_tail_run ws c rest Hws
                  (proj2 (closer_spec c) Hc)) as Hrun.
    unfold jsstring, char in *. rewrite Hrun. discriminate.
  - intros H. destruct (comma_tail s) as [n|] eqn:E; [|contradiction].
    destruct (@comma_tail_inv s n E) as (ws & c & rest & -> & _ & Hws & Hc).
    exists ws, c, rest. repeat split; try assumption.
    apply closer_spec, Hc.
Qed.

Lemma removeTrailingCommas_comma (ws : jsstring) (c : char)
      (rest : jsstring) :
  Forall (fun x => isWhiteSpace x = true) ws -> closing c ->
  removeTrailingCommas (44%N :: ws ++ c :: rest)
  = removeTrailingCommas (c :: rest).
Proof.
  intros Hws Hc. apply closer_spec in Hc. unfold removeTrailingCommas.
  rewrite SanitizerFacts.drop_trailing_comma by assumption.
  cbn [drop_trailing_commas].
  rewrite (@SanitizerFacts.closer_not_comma c Hc). reflexivity.
Qed.

Lemma removeTrailingCommas_keep (c : char) (s : jsstring) :
  ~ trailing_comma (c :: s) ->
  removeTrailingCommas (c :: s)
  = (if is_smart_quote c then 34%N else c) :: removeTrailingCommas s.
Proof.
  intros Hno. unfold removeTrailingCommas. cbn [drop_trailing_commas].
  destruct (N.eqb_spec c 44) as [->|Hc]; [|reflexivity].
  destruct (comma_tail s) as [n|] eqn:E; [|reflexivity].
  exfalso. apply Hno. apply trailing_comma_tail. rewrite E. discriminate.
Qed.

(** The code normalises every text in this way ... *)
Lemma removeTrailingCommas_normalises :
  forall n s, (length s <= n)%nat -> normalised s (removeTrailingCommas s).
Proof.
  induction n as [|n IH]; intros s Hlen.
  - destruct s; [constructor | cbn [length] in Hlen; lia].
  - destruct s as [|c s]; [constructor|]. cbn [length] in Hlen.
    destruct (is_smart_quote c) eqn:Hq.
    + assert (Hno : ~ trailing_comma (c :: s)).
      { intros (ws & c' & rest & Heq & _). injection Heq as -> _.
        discriminate Hq. }
      rewrite (@removeTrailingCommas_keep c s Hno), Hq.
      apply normalised_quote; [apply smart_quote_spec, Hq|].
      apply IH. lia.
    + destruct (N.eqb_spec c 44) as [->|Hc].
      * destruct (comma_tail s) as [k|] eqn:E.
        -- destruct (@comma_tail_inv s k E)
             as (ws & c' & rest & -> & _ & Hws & Hc').
           apply closer_spec in Hc'.
           pose proof (@removeTrailingCommas_comma ws c' rest Hws Hc')
             as Hr.
           unfold jsstring, char in *. rewrite Hr.
           apply normalised_comma; try assumption.
           apply IH. rewrite length_app in Hlen. cbn [length] in *. lia.
        -- assert (Hno : ~ trailing_comma (44%N :: s))
             by (rewrite trailing_comma_tail, E; intros H; apply H;
                 reflexivity).
           rewrite (@removeTrailingCommas_keep 44%N s Hno).
           apply normalised_keep; try assumption.
           ++ intros H. apply smart_quote_spec in H. discriminate H.
           ++ apply IH. lia.
      * assert (Hno : ~ trailing_comma (c :: s)).
        { intros (ws & c' & rest & Heq & _). injection Heq as -> _.
          apply Hc. reflexivity. }
        rewrite (@removeTrailingCommas_keep c s Hno), Hq.
        apply normalised_keep; try assumption.
        -- intros H. apply smart_quote_spec in H. congruence.
        -- apply IH. lia.
Qed.

(** ... and in no other. *)
Lemma normalised_unique (s t : jsstring) :
  normalised s t -> t = removeTrailingCommas s.
Proof.
  induction 1 as [|c s t Hq _ IH|ws c rest t Hws Hc _ IH|c s t Hq Hno _ IH].
  - reflexivity.
  - assert (Hno : ~ trailing_comma (c :: s)).
    { intros (ws & c' & rest & Heq & _). injection Heq as -> _.
      pose proof (quote_not_comma Hq) as H. discriminate H. }
    rewrite (@removeTrailingCommas_keep c s Hno).
    rewrite (proj2 (smart_quote_spec c) Hq), IH. reflexivity.
  - rewrite (@removeTrailingCommas_comma ws c rest Hws Hc). exact IH.
  - rewrite (@removeTrailingCommas_keep c s Hno), IH.
    destruct (is_smart_quote c) eqn:E; [|reflexivity].
    exfalso. apply Hq, smart_quote_spec, E.
Qed.

Lemma extract_fenced (tag body : jsstring) :
  fence_tag tag -> no_backtick body -> body <> [] ->
  extractPossibleJSON (fence ++ tag ++ [10%N] ++ body ++ fence) = trim body.
Proof.
  intros Htag Hbody Hne. unfold extractPossibleJSON.
  change (fence ++ tag ++ [10%N] ++ body ++ fence)
    with (96%N :: 96%N :: 96%N :: tag ++ [10%N] ++ body ++ fence) at 1.
  cbv iota. rewrite SanitizerFacts.trim_fenced.
  replace (fence ++ tag ++ [10%N] ++ body ++ fence)
    with (fence ++ tag ++ [10%N] ++ body ++ fence ++ [])
    by (rewrite app_nil_r; reflexivity).
  rewrite SanitizerFacts.fence_match_fenced by assumption.
  destruct body; [contradiction | reflexivity].
Qed.

Lemma extract_plain (text : jsstring) :
  no_backtick text -> extractPossibleJSON text = trim text.
Proof.
  intros H. unfold extractPossibleJSON.
  destruct text as [|c text]; [reflexivity|].
  rewrite SanitizerFacts.fence_match_none; [reflexivity|].
  unfold trim, trimEnd.
  apply SanitizerFacts.no_backtick_rev, SanitizerFacts.no_backtick_trimStart,
    SanitizerFacts.no_backtick_rev, SanitizerFacts.no_backtick_trimStart, H.
Qed.

End RepairFacts.

(** The normalisation of the two fenced replies. *)
Example curly_reply_normalised :
  Sanitizer.removeTrailingCommas
    (Sanitizer.extractPossibleJSON RepairSamples.curly_reply)
  = Samples.plain_reply.
Proof. reflexivity. Qed.

(** C6: the parser returns what [JSON.parse] returns on the raw text when
    that succeeds.  Only when that fails does it parse the repaired text:
    the inside of the fence when the reply is a fenced block, tagged
    [json] or not, and the trimmed reply when there is no fence; in it
    every typographic quote has become a plain double quote and every
    comma before a closing brace or bracket is gone, and nothing else has
    changed.  In particular the fenced reply of the specification, and
    the same reply written with typographic quotes, are parsed as the
    plain object they wrap. *)
Theorem parseModelJSON_tolerant
        (JSON_parse : jsstring -> Outcome JSValue) (raw : jsstring) :
  (forall v, JSON_parse raw = Ok v ->
             Sanitizer.parseModelJSON JSON_parse raw = Ok v)
  /\ (forall e, JSON_parse raw = Throw e ->
                Sanitizer.parseModelJSON JSON_parse raw
                = JSON_parse
                    (Sanitizer.drop_trailing_commas 0
                       (Sanitizer.plain_quotes
                          (Sanitizer.extractPossibleJSON raw))))
  /\ (forall e, JSON_parse raw = Throw e ->
                exists cleaned,
                  Sanitizer.parseModelJSON JSON_parse raw = JSON_parse cleaned
                  /\ normalised (Sanitizer.extractPossibleJSON raw) cleaned
                  /\ (forall t,
                        normalised (Sanitizer.extractPossibleJSON raw) t ->
                        t = cleaned)
                  /\ Forall (fun c => ~ typographic_quote c) cleaned)
  /\ (forall tag body,
        fence_tag tag -> no_backtick body -> body <> [] ->
        raw = Sanitizer.fence ++ tag ++ [10%N] ++ body ++ Sanitizer.fence ->
        Sanitizer.extractPossibleJSON raw = trim body)
  /\ (no_backtick raw -> Sanitizer.extractPossibleJSON raw = trim raw)
  /\ (forall e, JSON_parse Samples.fenced_reply = Throw e ->
                Sanitizer.parseModelJSON JSON_parse Samples.fenced_reply
                = JSON_parse Samples.plain_reply)
  /\ (forall e, JSON_parse RepairSamples.curly_reply = Throw e ->
                Sanitizer.parseModelJSON JSON_parse RepairSamples.curly_reply
                = JSON_parse Samples.plain_reply).
Proof.
  unfold Sanitizer.parseModelJSON. repeat apply conj.
  - intros v Hv. rewrite Hv. reflexivity.
  - intros e He. rewrite He. unfold Sanitizer.removeTrailingCommas.
    rewrite SanitizerFacts.quotes_commas_commute. reflexivity.
  - intros e He. rewrite He.
    exists (Sanitizer.removeTrailingCommas (Sanitizer.extractPossibleJSON raw)).
    split; [reflexivity|]. split; [|split].
    + apply (@RepairFacts.removeTrailingCommas_normalises
               (length (Sanitizer.extractPossibleJSON raw))).
      apply Nat.le_refl.
    + apply RepairFacts.normalised_unique.
    + unfold Sanitizer.removeTrailingCommas.
      eapply Forall_impl; [|apply CommaFacts.plain_quotes_clean].
      intros c Hc Hq. apply RepairFacts.smart_quote_spec in Hq. congruence.
  - intros tag body Htag Hbody Hne ->.
    apply RepairFacts.extract_fenced; assumption.
  - apply RepairFacts.extract_plain.
  - intros e He. rewrite He. reflexivity.
  - intros e He. rewrite He. reflexivity.
Qed.

Lemma parseModelJSON_tolerant_witness :
  Sanitizer.parseModelJSON Demo.json_parse RepairSamples.curly_reply
  = Demo.json_parse Samples.plain_reply.
Proof.
  apply (proj2 (proj2 (proj2 (proj2 (proj2 (proj2
           (parseModelJSON_tolerant Demo.json_parse
                                    RepairSamples.curly_reply))))))
           (ErrorObj (lit "Unexpected token in JSON"))).
  reflexivity.
Defined.

(** The reply with typographic quotes gives the object as well. *)
Example parseModelJSON_curly_reply :
  Sanitizer.parseModelJSON Demo.json_parse RepairSamples.curly_reply
  = Ok Samples.object_a1.
Proof. reflexivity. Qed.

(** ** Step 5: the manifest beside an error marker *)

Module MarkerFacts.

Import Pipeline.

Section WithPlatform.

Variable Ext : Type.
Variable P : Platform Ext.

Lemma pairs_app (a b : list ManifestLine) : pairs (a ++ b) = (pairs a + pairs b)%nat.
Proof. unfold pairs. rewrite filter_app, length_app. reflexivity. Qed.

(** The loop lists one pair for every scene whose image reference is not
    empty, whatever the reference is. *)
Lemma manifest_loop_pairs (TEMP_DIR : jsstring) (scenes : list Scene) :
  forall lines paths last w lines' paths' last' w',
    manifest_loop P TEMP_DIR scenes lines paths last w
    = (Ok (lines', paths', last'), w') ->
    pairs lines' = (pairs lines + length (filter has_image scenes))%nat.
Proof.
  induction scenes as [|s rest IH];
    intros lines paths last w lines' paths' last' w' Hrun.
  - injection Hrun as <- _ _ _. cbn. lia.
  - cbn [manifest_loop] in Hrun. cbn [filter]. unfold has_image at 1.
    destruct (image_url s) as [[|c u]|].
    + rewrite (IH _ _ _ _ _ _ _ _ Hrun). reflexivity.
    + apply JobFacts.bind_ok_inv in Hrun.
      destruct Hrun as (pathname & w1 & _ & Hrun).
      apply JobFacts.bind_ok_inv in Hrun.
      destruct Hrun as (_ & w2 & _ & Hrun).
      rewrite (IH _ _ _ _ _ _ _ _ Hrun), pairs_app. cbn. lia.
    + rewrite (IH _ _ _ _ _ _ _ _ Hrun). reflexivity.
Qed.

Lemma build_manifest_pairs (TEMP_DIR : jsstring) (scenes : list Scene)
      (w w' : World Ext) (manifest : list ManifestLine) :
  build_manifest P TEMP_DIR scenes w = (Ok manifest, w') ->
  pairs manifest = length (filter has_image scenes).
Proof.
  unfold build_manifest. intros Hrun.
  apply JobFacts.bind_ok_inv in Hrun.
  destruct Hrun as ([[lines paths] last] & w1 & Hloop & Hret).
  injection Hret as <- _.
  apply manifest_loop_pairs in Hloop. cbn in Hloop.
  unfold close_manifest. destruct last as [[|c n]|]; try exact Hloop.
  rewrite pairs_app, Hloop. cbn. lia.
Qed.

Lemma intended_manifest_pairs (scenes : list Scene) :
  pairs (intended_manifest P scenes) = length (filter valid_image scenes).
Proof.
  unfold intended_manifest. generalize (filter valid_image scenes).
  intros listed. rewrite pairs_app.
  replace (pairs match rev listed with
                 | l :: _ => [FileLine (image_file P l)]
                 | [] => []
                 end) with 0%nat by (destruct (rev listed); reflexivity).
  rewrite Nat.add_0_r.
  induction listed as [|s l IH]; [reflexivity|].
  cbn [flat_map]. rewrite pairs_app, IH. reflexivity.
Qed.

Lemma marker_not_valid (s : Scene) :
  error_marked s -> has_image s = true /\ valid_image s = false.
Proof.
  intros [msg Hmark]. unfold has_image, valid_image. rewrite Hmark.
  pose proof (JobIdFacts.startsWith_literal (lit "ERROR: ") msg) as Hs.
  change (lit "ERROR: " ++ msg) with (69%N :: (lit "RROR: " ++ msg)) in *.
  cbv iota. split; [reflexivity | exact (f_equal negb Hs)].
Qed.

Lemma valid_has_image (s : Scene) :
  valid_image s = true -> has_image s = true.
Proof.
  unfold valid_image, has_image.
  destruct (image_url s) as [[|c u]|]; try discriminate. reflexivity.
Qed.

Lemma fewer_valid_images (scenes : list Scene) :
  (length (filter valid_image scenes) <= length (filter has_image scenes)
   /\ (Exists error_marked scenes ->
       length (filter valid_image scenes)
       < length (filter has_image scenes)))%nat.
Proof.
  induction scenes as [|s rest [IHle IHlt]].
  - split; [reflexivity|]. intros H. inversion H.
  - cbn [filter].
    destruct (valid_image s) eqn:Hv.
    + rewrite (@valid_has_image s Hv). cbn [length]. split; [lia|].
      intros H. inversion H as [? ? Hs | ? ? Hrest]; subst.
      * destruct (@marker_not_valid s Hs) as [_ Hnv]. congruence.
      * specialize (IHlt Hrest). lia.
    + destruct (has_image s) eqn:Hi; cbn [length].
      * split; [lia|]. intros _. lia.
      * split; [lia|].
        intros H. inversion H as [? ? Hs | ? ? Hrest]; subst.
        -- destruct (@marker_not_valid s Hs) as [Hyes _]. congruence.
        -- apply IHlt, Hrest.
Qed.

End WithPlatform.

End MarkerFacts.

(** C7 on the code: the loop of step 5 takes every non-empty image
    reference for an image, the marker of a failed image call included.
    As soon as one scene carries such a marker, assembly never builds the
    manifest of the scenes with valid images: it throws, or it returns a
    manifest with one pair more for every marker. *)
Theorem manifest_counts_error_markers
        (Ext : Type) (P : Platform Ext) (TEMP_DIR : jsstring)
        (scenes : list Scene) (w : World Ext) :
  Exists error_marked scenes ->
  fst (Pipeline.build_manifest P TEMP_DIR scenes w)
  <> Ok (intended_manifest P scenes)
  /\ match Pipeline.build_manifest P TEMP_DIR scenes w with
     | (Ok manifest, _) =>
         pairs manifest = length (filter has_image scenes)
         /\ (pairs (intended_manifest P scenes) < pairs manifest)%nat
     | (Throw _, _) => True
     end.
Proof.
  intros Hmark.
  destruct (MarkerFacts.fewer_valid_images scenes) as [_ Hlt].
  specialize (Hlt Hmark).
  destruct (Pipeline.build_manifest P TEMP_DIR scenes w) as [[manifest|e] w']
    eqn:Hrun; cbn [fst].
  - pose proof (@MarkerFacts.build_manifest_pairs Ext P TEMP_DIR scenes w w' manifest Hrun) as Hpairs.
    pose proof (MarkerFacts.intended_manifest_pairs P scenes) as Hint.
    split; [|split; [exact Hpairs | lia]].
    intros Heq. injection Heq as ->. lia.
  - split; [discriminate | exact I].
Qed.

Lemma manifest_counts_error_markers_witness :
  fst (Pipeline.build_manifest Demo.platform VideoSamples.TEMP_DIR
         [VideoSamples.scene_a; VideoSamples.scene_b_failed;
          VideoSamples.scene_c]
         (Demo.world VideoSamples.store))
  <> Ok (intended_manifest Demo.platform
           [VideoSamples.scene_a; VideoSamples.scene_b_failed;
            VideoSamples.scene_c]).
Proof.
  refine (proj1 (@manifest_counts_error_markers
                   Demo.Store Demo.platform VideoSamples.TEMP_DIR
                   [VideoSamples.scene_a; VideoSamples.scene_b_failed;
                    VideoSamples.scene_c]
                   (Demo.world VideoSamples.store) _)).
  right. left. exists (lit "Imagen returned no image data."). reflexivity.
Defined.

(** The scenario of the specification on the reference platform: two
    valid images beside one marker.  The manifest that is meant has the
    two images; assembly asks the image bucket for the file the marker
    seems to name and stops there. *)
Example manifest_beside_marker :
  intended_manifest Demo.platform
    [VideoSamples.scene_a; VideoSamples.scene_b_failed; VideoSamples.scene_c]
  = [ FileLine (lit "scene_001_5.png"); DurationLine 8.5;
      FileLine (lit "scene_003_7.png"); DurationLine 8;
      FileLine (lit "scene_003_7.png") ]
  /\ fst (Pipeline.build_manifest Demo.platform VideoSamples.TEMP_DIR
            [VideoSamples.scene_a; VideoSamples.scene_b_failed;
             VideoSamples.scene_c]
            (Demo.world VideoSamples.store))
     = Throw (ErrorObj
                (lit "No such object: images/ Imagen returned no image data.")).
Proof. vm_compute. split; reflexivity. Qed.

(** ** The job boundary: what a result stands for *)

Module ResultFacts.

Import Pipeline.

Section WithPlatform.

Variable Ext : Type.
Variable P : Platform Ext.

Lemma chunk_loop_blank (ws : list WordInfo) :
  forall scenes currentTokens currentStart,
    Forall (fun s => image_url s = None) scenes ->
    Forall (fun s => image_url s = None)
           (Segmenter.chunk_loop ws scenes currentTokens currentStart).
Proof.
  induction ws as [|w rest IH]; intros scenes cur start Hsc; [exact Hsc|].
  cbn [Segmenter.chunk_loop].
  destruct (_ && _); apply IH; [|exact Hsc].
  apply Forall_app. split; [exact Hsc|]. repeat constructor.
Qed.

Lemma chunkScript_blank (words : list WordInfo) :
  Forall (fun s => image_url s = None) (Segmenter.chunkScript words).
Proof.
  destruct words as [|w0 rest]; [constructor|].
  apply chunk_loop_blank. constructor.
Qed.

(** From the chunks to the scenes of the result, through steps 3 and 4. *)
Lemma finalized_through (m : Reconciler.PromptMap) (chunks : list Scene)
      (out : list Scene) :
  Forall (fun s => image_url s = None) chunks ->
  Forall2 (fun s o =>
             same_but_image s o
             /\ (image_url o = image_url s
                 \/ exists u, image_url o = Some u
                              /\ image_ref_written P s u))
          (Reconciler.applyPrompts m chunks) out ->
  Forall2 (finalized_scene P) chunks out.
Proof.
  intros Hblank. revert out.
  induction Hblank as [|c chunks Hc _ IH]; intros out Hout;
    inversion Hout as [|p o ps os [Hsame Himg] Hrest]; subst;
    constructor; [|apply IH, Hrest].
  destruct Hsame as (Hn & Hs & He & Hsc & Hp).
  destruct c as [n st en sc pr im]. cbn [image_url] in Hc. subst im.
  cbn [with_prompt scene start_time_secs end_time_secs script prompt
       image_url] in *.
  unfold finalized_scene.
  cbn [scene start_time_secs end_time_secs script prompt image_url].
  repeat split; try assumption.
  rewrite Hp.
  destruct (Reconciler.map_get m (of_nat n)) as [[|ch p']|]; reflexivity.
Qed.

(** A video reference returned by step 5 is that of an upload that has
    returned. *)
Lemma runStep5_published (jobId : jsstring) (scenes : list Scene)
      (gcsAudioUri : jsstring) (w w' : World Ext) (v : jsstring) :
  runStep5_CreateVideo P jobId scenes gcsAudioUri w = (Ok v, w') ->
  published P jobId v.
Proof.
  intros Hrun. split; [exact (JobFacts.runStep5_result _ _ _ _ _ Hrun)|].
  unfold runStep5_CreateVideo in Hrun.
  apply JobFacts.bind_ok_inv in Hrun. destruct Hrun as (_ & w0 & _ & H).
  apply JobFacts.bind_ok_inv in H. destruct H as (_ & w1 & _ & H).
  unfold try_finally in H.
  destruct (try_catch _ _ w1) as [r w2] eqn:Hbody.
  destruct (rm P (temp_dir P jobId) w2) as [[[]|e] w3]; [|discriminate H].
  injection H as -> _.
  unfold try_catch in Hbody.
  destruct (createVideo_body P jobId scenes gcsAudioUri
              (temp_dir P jobId) w1) as [[v'|e] w4] eqn:Hcv;
    [|discriminate Hbody].
  clear Hbody. unfold createVideo_body in Hcv.
  destruct (split_first_slash _) as [audioBucket audioFileName].
  apply JobFacts.bind_ok_inv in Hcv. destruct Hcv as (_ & wa & _ & Hcv).
  apply JobFacts.bind_ok_inv in Hcv. destruct Hcv as (mf & wb & _ & Hcv).
  apply JobFacts.bind_ok_inv in Hcv. destruct Hcv as (_ & wc & _ & Hcv).
  apply JobFacts.bind_ok_inv in Hcv. destruct Hcv as (_ & wd & _ & Hcv).
  apply JobFacts.bind_ok_inv in Hcv. destruct Hcv as (_ & we & _ & Hcv).
  apply JobFacts.bind_ok_inv in Hcv. destruct Hcv as ([] & wf & Hup & _).
  rewrite StepFacts.call_run in Hup.
  exists (ext we),
         (snd (storage_upload P (videoBucketName P)
                 (path_join P (temp_dir P jobId) (jobId ++ lit ".mp4"))
                 (jobId ++ lit ".mp4") (ext we))).
  destruct (storage_upload P (videoBucketName P)
              (path_join P (temp_dir P jobId) (jobId ++ lit ".mp4"))
              (jobId ++ lit ".mp4") (ext we)) as [r x'].
  cbn [fst snd] in *. injection Hup as -> _. reflexivity.
Qed.

(** The flow of the action returns a storyboard exactly when the five
    steps have all returned. *)
Lemma flow_ran_to_end (file : File) (w w' : World Ext) (scenes : list Scene)
      (video : jsstring) :
  storyboard_flow P file w = (Ok (Storyboard scenes video), w') ->
  exists tr, ran_to_end P file w tr scenes video w'.
Proof.
  unfold storyboard_flow. intros H.
  apply JobFacts.bind_ok_inv in H. destruct H as (t & w0 & H0 & H).
  apply JobFacts.bind_ok_inv in H.
  destruct H as ([words uri] & w1 & H1 & H).
  apply JobFacts.bind_ok_inv in H. destruct H as (ch & w2 & H2 & H).
  apply JobFacts.bind_ok_inv in H. destruct H as (pr & w3 & H3 & H).
  apply JobFacts.bind_ok_inv in H. destruct H as (final & w4 & H4 & H).
  apply JobFacts.bind_ok_inv in H. destruct H as (v & w5 & H5 & H).
  injection H as <- <- <-.
  exists (mkJobTrace t words uri ch pr w0 w1 w2 w3 w4).
  unfold ran_to_end, job_id. cbn.
  repeat split; assumption.
Qed.

Lemma flow_never_fails (file : File) (w w' : World Ext) (error : jsstring) :
  storyboard_flow P file w <> (Ok (Failed error), w').
Proof.
  unfold storyboard_flow. intros H.
  apply JobFacts.bind_ok_inv in H. destruct H as (t & w0 & _ & H).
  apply JobFacts.bind_ok_inv in H.
  destruct H as ([words uri] & w1 & _ & H).
  apply JobFacts.bind_ok_inv in H. destruct H as (ch & w2 & _ & H).
  apply JobFacts.bind_ok_inv in H. destruct H as (pr & w3 & _ & H).
  apply JobFacts.bind_ok_inv in H. destruct H as (final & w4 & _ & H).
  apply JobFacts.bind_ok_inv in H. destruct H as (v & w5 & _ & H).
  discriminate H.
Qed.

Lemma ran_to_end_flow (file : File) (w w' : World Ext) (tr : JobTrace Ext)
      (scenes : list Scene) (video : jsstring) :
  ran_to_end P file w tr scenes video w' ->
  storyboard_flow P file w = (Ok (Storyboard scenes video), w').
Proof.
  unfold ran_to_end, job_id. intros (H0 & H1 & H2 & H3 & H4 & H5).
  unfold storyboard_flow.
  unfold bind at 1. rewrite H0.
  unfold bind at 1. rewrite H1.
  unfold bind at 1. rewrite H2.
  unfold bind at 1. rewrite H3.
  unfold bind at 1. rewrite H4.
  unfold bind at 1. rewrite H5. reflexivity.
Qed.

End WithPlatform.

End ResultFacts.

(** C2: the server action never throws.  It resolves to a storyboard or
    to a failure.  A storyboard stands for a job whose five steps have
    all returned: its scenes are the chunks of the recognized words, in
    order and numbered from one, each with a prompt and with an image
    reference or an error marker where an image was requested, and its
    video is the public URL of the job's video file, whose upload has
    returned after the transcoder was handed one manifest.  A failure
    carries a message that is not empty, and stands for a job that did not
    run to its end. *)
Theorem generateStoryboard_never_throws
        (Ext : Type) (P : Platform Ext) (audioFile : Pipeline.FormEntry)
        (w : World Ext) :
  exists result w',
    Pipeline.generateStoryboard P audioFile w = (Ok result, w')
    /\ match result with
       | Pipeline.Storyboard scenes video =>
           exists file tr,
             audioFile = Pipeline.FileEntry file
             /\ ran_to_end P file w tr scenes video w'
             /\ heard_words tr <> []
             /\ Forall2 (finalized_scene P)
                        (Segmenter.chunkScript (heard_words tr)) scenes
             /\ scenes <> []
             /\ Timeline.numbered_from_one scenes
             /\ published P (job_id P file (started tr)) video
             /\ transcoded_once true (after_step4 tr) w'
       | Pipeline.Failed error =>
           error <> []
           /\ forall file tr scenes video w'',
                audioFile = Pipeline.FileEntry file ->
                ~ ran_to_end P file w tr scenes video w''
       end.
Proof.
  unfold Pipeline.generateStoryboard, try_catch.
  match goal with
  | |- context [match ?body w with _ => _ end] =>
      destruct (body w) as [[result|e] w'] eqn:Hbody
  end.
  - exists result, w'. split; [reflexivity|].
    destruct audioFile as [|[|c s]|file]; try discriminate Hbody.
    destruct result as [scenes video|error].
    + destruct (@ResultFacts.flow_ran_to_end Ext P file w w' scenes video
                  Hbody) as [tr Hran].
      exists file, tr. split; [reflexivity|]. split; [exact Hran|].
      destruct Hran as (_ & H1 & H2 & H3 & H4 & H5).
      pose proof (@StepFacts.runStep1_words Ext P _ _ _ _ _ _ H1) as Hwords.
      destruct (StepFacts.runStep2_run P (job_id P file (started tr))
                  (heard_words tr) (after_step1 tr)) as [x2 Hrun2].
      rewrite Hrun2 in H2. injection H2 as Hch _.
      rewrite <- Hch in H3.
      apply StepFacts.runStep3_inv in H3. destruct H3 as [m Hpr].
      rewrite Hpr in H4.
      destruct (StepFacts.runStep4_shape P (job_id P file (started tr))
                  (Reconciler.applyPrompts m
                     (Segmenter.chunkScript (heard_words tr)))
                  (after_step3 tr)) as (out & w4 & Hrun4 & Hout).
      rewrite Hrun4 in H4. injection H4 as -> _.
      assert (Hfinal : Forall2 (finalized_scene P)
                               (Segmenter.chunkScript (heard_words tr))
                               scenes).
      { apply (@ResultFacts.finalized_through Ext P m);
          [apply ResultFacts.chunkScript_blank | exact Hout]. }
      assert (Hnum : map scene scenes
                     = map scene (Segmenter.chunkScript (heard_words tr))).
      { apply (StepFacts.same_numbers (R := finalized_scene P));
          [intros s o Hs; apply Hs | exact Hfinal]. }
      split; [exact Hwords|]. split; [exact Hfinal|]. split; [|split].
      * intros ->. destruct (heard_words tr) as [|w0 rest] eqn:Hw;
          [contradiction|].
        destruct (SegmenterFacts.chunk_loop_length (w0 :: rest) [] []
                    (startTime w0)) as [_ Hlt].
        assert (Hlen : length (Segmenter.chunkScript (w0 :: rest)) = 0%nat).
        { rewrite <- (length_map scene), <- Hnum. reflexivity. }
        unfold Segmenter.chunkScript in Hlen.
        specialize (Hlt ltac:(discriminate)). cbn [length] in Hlt. lia.
      * eapply StepFacts.numbered_of_numbers; [exact Hnum|].
        apply ChunkFacts.chunkScript_numbered.
      * split.
        -- exact (@ResultFacts.runStep5_published Ext P _ _ _ _ _ _ H5).
        -- pose proof (TranscodeFacts.runStep5_once P
                         (job_id P file (started tr)) scenes (audio_ref tr)
                         (after_step4 tr)) as Honce.
           rewrite H5 in Honce. exact Honce.
    + exfalso. exact (@ResultFacts.flow_never_fails Ext P file w w' error
                        Hbody).
  - eexists. eexists. split; [reflexivity|]. split.
    + unfold Pipeline.message_or. destruct e as [[|c m]|]; discriminate.
    + intros file tr scenes video w'' -> Hran.
      rewrite (@ResultFacts.ran_to_end_flow Ext P file w w'' tr scenes video
                 Hran) in Hbody.
      discriminate Hbody.
Qed.
